(** * gltf2ozz: the glTF importer of ozz-animation

    A shallow embedding of [src/animation/offline/gltf/gltf2ozz.cc]:
    the three keyframe samplers (linear, step, cubic spline), the channel
    dispatcher, the per-joint track assembly of the animation import, the
    skin root search and the recursive joint import; then the fix-up of
    names, the skins of a scene and the skeleton import.

    Conventions of the embedding.
    - [float] is IEEE 754 binary32, computed with the executable
      specification of [SpecFloat] (precision 24, emax 128); [double] is
      binary64 and only ever converted to [float], but for the keyframe
      count of the cubic spline sampler: the unqualified [floor] there is
      [::floor(double)], so the product, a [float], is converted to
      [double] and [+ 1.f] is a sum of binary64.
    - [size_t] is a 64 bit unsigned integer; its wrap-around is written
      out with [size_t] where the source computes on it.
    - An accessor's bytes are kept as the array of binary32 values found at
      its start address ([Accessor.payload]); byte offsets and strides are
      not modelled, but for [Accessor.data_null]: the start address
      [buffer.data.data() + bufferView.byteOffset + byteOffset] is the null
      pointer, as it is over a buffer without bytes at offset 0.
    - A C++ call that can leave the defined behaviour of the language
      (a read outside an array, a dereferenced null pointer) or throw is a
      computation in the [outcome] monad.
    - Loops whose termination depends on the input graph take a [fuel]
      argument; [None] means the fuel ran out.
    - [assert] is taken as compiled out, and log output is not modelled.
    - A name is a string; the importer's own code is embedded with names
      that hold no NUL, where [c_str()] changes nothing. [FixupNames],
      which decides on the C string of a name, has [c_str] written out. *)

From Stdlib Require Import ZArith Floats.SpecFloat.
From stdpp Require Import gmap strings list pretty sorting.

Set Warnings "-register-all".

Local Open Scope Z_scope.

(** ** Machine numbers *)

Definition size_t (n : Z) : Z := n mod 2 ^ 64.

Module F32.
Definition prec : Z := 24.
Definition emax : Z := 128.

Definition add : spec_float → spec_float → spec_float := SFadd prec emax.
Definition sub : spec_float → spec_float → spec_float := SFsub prec emax.
Definition mul : spec_float → spec_float → spec_float := SFmul prec emax.
Definition div : spec_float → spec_float → spec_float := SFdiv prec emax.
Definition eqb : spec_float → spec_float → bool := SFeqb.
Definition ltb : spec_float → spec_float → bool := SFltb.
Definition leb : spec_float → spec_float → bool := SFleb.
(** [a > b] *)
Definition gtb (a b : spec_float) : bool := SFltb b a.

(** [(float)n] for an integer [n]. *)
Definition of_Z (n : Z) : spec_float := binary_normalize prec emax n 0 false.

(** [static_cast<float>(d)] for a binary64 value [d]. *)
Definition of_double (d : spec_float) : spec_float :=
  match d with
  | S754_finite s m e => binary_round prec emax s m e
  | _ => d
  end.

Definition zero : spec_float := S754_zero false.
Definition one : spec_float := of_Z 1.
Definition two : spec_float := of_Z 2.
Definition three : spec_float := of_Z 3.
Definition thirty : spec_float := of_Z 30.
Definition neg_two : spec_float := of_Z (-2).

(** [floor(x)], itself a binary32 value. *)
Definition floor (x : spec_float) : spec_float :=
  match x with
  | S754_finite s m e =>
      if 0 <=? e then x
      else
        let n := cond_Zopp s (Z.pos m) / 2 ^ (- e) in
        if n =? 0 then S754_zero s else of_Z n
  | _ => x
  end.

(** [static_cast<size_t>(x)]: truncation toward zero; [None] where the
    conversion is undefined (not a number, infinite, or out of the range
    of [size_t]). *)
Definition to_size_t (x : spec_float) : option Z :=
  match x with
  | S754_zero _ => Some 0
  | S754_finite s m e =>
      let n := Z.quot (cond_Zopp s (Z.pos m) * 2 ^ Z.max e 0) (2 ^ Z.max (- e) 0) in
      if (0 <=? n) && (n <? 2 ^ 64) then Some n else None
  | _ => None
  end.
End F32.

(** binary64, for the one sum that the importer computes in [double]. *)
Module F64.
Definition prec : Z := 53.
Definition emax : Z := 1024.

Definition add : spec_float → spec_float → spec_float := SFadd prec emax.

(** [(double)x] for a [float] [x]: the same number. *)
Definition of_float (x : spec_float) : spec_float := x.

Definition one : spec_float := binary_normalize prec emax 1 0 false.

(** [::floor(x)], itself a binary64 value. *)
Definition floor (x : spec_float) : spec_float :=
  match x with
  | S754_finite s m e =>
      if 0 <=? e then x
      else
        let n := cond_Zopp s (Z.pos m) / 2 ^ (- e) in
        if n =? 0 then S754_zero s else binary_normalize prec emax n 0 false
  | _ => x
  end.

(** [static_cast<size_t>(x)], as for a [float]. *)
Definition to_size_t (x : spec_float) : option Z := F32.to_size_t x.
End F64.

Abbreviation float := spec_float (only parsing).
Abbreviation double := spec_float (only parsing).

(** binary64 constants for the examples: [m * 2^e] rounded to nearest. *)
Definition double_of_bits (m e : Z) : double := binary_normalize 53 1024 m e false.

Declare Scope f32_scope.
Delimit Scope f32_scope with f32.
Infix "+" := F32.add : f32_scope.
Infix "-" := F32.sub : f32_scope.
Infix "*" := F32.mul : f32_scope.
Infix "/" := F32.div : f32_scope.

(** ** Outcomes of a C++ call *)

Inductive outcome (A : Type) : Type :=
  | Returns (a : A)
  | Undefined
  | Throws.
Arguments Returns {A} a.
Arguments Undefined {A}.
Arguments Throws {A}.

#[global] Instance outcome_ret : MRet outcome := λ A a, Returns a.
#[global] Instance outcome_bind : MBind outcome := λ A B f m,
  match m with
  | Returns a => f a
  | Undefined => Undefined
  | Throws => Throws
  end.

(** [l[i]] on a [std::vector] or a raw array: outside the array the
    behaviour is undefined. *)
Definition index {A} (l : list A) (i : Z) : outcome A :=
  if i <? 0 then Undefined
  else match l !! Z.to_nat i with
       | Some a => Returns a
       | None => Undefined
       end.

(** [v.at(i) = a]: outside the vector [std::out_of_range] is thrown. *)
Definition at_put {A} (l : list A) (i : Z) (a : A) : outcome (list A) :=
  if (0 <=? i) && (i <? Z.of_nat (length l)) then Returns (<[Z.to_nat i := a]> l)
  else Throws.

(** [v.resize(n)] keeps the first [n] elements and appends value-initialised
    ones. *)
Definition resized {A} (n : nat) (d : A) (l : list A) : list A :=
  take n l ++ replicate (n - length l) d.

Fixpoint foldM {A S} (f : S → A → outcome S) (l : list A) (s : S) : outcome S :=
  match l with
  | [] => Returns s
  | a :: l => s ← f s a; foldM f l s
  end.

(** ** ozz maths and raw animation types *)

Record Float3 := { x : float; y : float; z : float }.
Record Quaternion := { qx : float; qy : float; qz : float; qw : float }.

Module Float3_.
Definition zero : Float3 := {| x := F32.zero; y := F32.zero; z := F32.zero |}.
Definition one : Float3 := {| x := F32.one; y := F32.one; z := F32.one |}.
End Float3_.

Module Quaternion_.
Definition identity : Quaternion :=
  {| qx := F32.zero; qy := F32.zero; qz := F32.zero; qw := F32.one |}.
End Quaternion_.

(** What the samplers need of a keyframe value type ([Float3] or
    [Quaternion]): its size, how it is read from consecutive floats, the
    value a resized vector is filled with, and the two operators of the
    Hermite blend. *)
Class ValueType (V : Type) := {
  sizeof : Z;
  unpack : list float → option V;
  value_init : V;
  scale_by : V → float → V;
  plus : V → V → V;
}.

(** Modelled from the spec: the operators of ozz's maths headers, which are
    not part of the importer's file. "evaluate basis ... against (p0, m0,
    p1, m1)": the blend is a linear combination, so [operator*] by a float
    and [operator+] act on each component. *)
#[global] Instance Float3_value : ValueType Float3 := {|
  sizeof := 12;
  unpack l := match l with
              | [a; b; c] => Some {| x := a; y := b; z := c |}
              | _ => None
              end;
  value_init := Float3_.zero;
  scale_by v k := {| x := (x v * k)%f32; y := (y v * k)%f32; z := (z v * k)%f32 |};
  plus v w := {| x := (x v + x w)%f32; y := (y v + y w)%f32; z := (z v + z w)%f32 |};
|}.

#[global] Instance Quaternion_value : ValueType Quaternion := {|
  sizeof := 16;
  unpack l := match l with
              | [a; b; c; d] => Some {| qx := a; qy := b; qz := c; qw := d |}
              | _ => None
              end;
  value_init := {| qx := F32.zero; qy := F32.zero; qz := F32.zero; qw := F32.zero |};
  scale_by v k := {| qx := (qx v * k)%f32; qy := (qy v * k)%f32;
                     qz := (qz v * k)%f32; qw := (qw v * k)%f32 |};
  plus v w := {| qx := (qx v + qx w)%f32; qy := (qy v + qy w)%f32;
                 qz := (qz v + qz w)%f32; qw := (qw v + qw w)%f32 |};
|}.

(** [values[i]] through a [const V*] into the accessor's floats. *)
Definition load `{ValueType V} (values : list float) (i : Z) : outcome V :=
  if i <? 0 then Undefined
  else
    let k := Z.to_nat (sizeof / 4) in
    match unpack (take k (drop (Z.to_nat i * k) values)) with
    | Some v => Returns v
    | None => Undefined
    end.

Record Key (V : Type) := { time : float; value : V }.
Arguments time {V} _.
Arguments value {V} _.

Definition TranslationKey := Key Float3.
Definition RotationKey := Key Quaternion.
Definition ScaleKey := Key Float3.

Record JointTrack := {
  translations : list TranslationKey;
  rotations : list RotationKey;
  scales : list ScaleKey;
}.

Module RawAnimation.
Record t := {
  name : string;
  duration : float;
  tracks : list JointTrack;
}.
End RawAnimation.

Module Transform.
Record t := {
  translation : Float3;
  rotation : Quaternion;
  scale : Float3;
}.
Definition identity : t :=
  {| translation := Float3_.zero; rotation := Quaternion_.identity; scale := Float3_.one |}.
End Transform.

(** [RawSkeleton::Joint] *)
Inductive Joint := MkJoint (name : string) (transform : Transform.t) (children : list Joint).

(** ** tinygltf document types *)

Module Accessor.
Record t := {
  count : Z;
  componentType : Z;
  type : Z;
  maxValues : list double;
  payload : list float;
  data_null : bool;
}.
End Accessor.

Module AnimationSampler.
Record t := {
  input : Z;
  output : Z;
  interpolation : string;
}.
End AnimationSampler.

Module AnimationChannel.
Record t := {
  sampler : Z;
  target_node : Z;
  target_path : string;
}.
End AnimationChannel.

Module Animation.
Record t := {
  name : string;
  channels : list AnimationChannel.t;
  samplers : list AnimationSampler.t;
}.
End Animation.

Module Node.
Record t := {
  name : string;
  children : list Z;
  translation : list double;
  rotation : list double;
  scale : list double;
  matrix : list double;
}.
End Node.

Module Skin.
Record t := {
  joints : list Z;
  skeleton : Z;
}.
End Skin.

Module Model.
Record t := {
  accessors : list Accessor.t;
  animations : list Animation.t;
  nodes : list Node.t;
}.
End Model.

(** What the importer calls outside its own file: two tinygltf size tables,
    ozz's quaternion normalisation, the validation of a raw animation and
    the largest size a keyframe vector accepts, which no implementation
    puts as high as [2^64 - 1]. *)
Class Library := {
  GetComponentSizeInBytes : Z → Z;
  GetTypeSizeInBytes : Z → Z;
  Normalize : Quaternion → Quaternion;
  Validate : RawAnimation.t → bool;
  max_size : Z;
  max_size_lt : max_size < 2 ^ 64 - 1;
}.

Section Importer.
Context `{L : Library}.

(** ** Typed buffer views *)

(** [BufferView<T>]: a null pointer when the accessor's element size is not
    [sizeof(T)], else the address of the accessor's data, which is null
    again over a buffer without bytes. *)
Definition BufferView (size_of_T : Z) (_accessor : Accessor.t) : option (list float) :=
  let component_size := GetComponentSizeInBytes (Accessor.componentType _accessor) in
  let element_size := component_size * GetTypeSizeInBytes (Accessor.type _accessor) in
  if negb (element_size =? size_of_T) then None
  else if Accessor.data_null _accessor then None
  else Some (Accessor.payload _accessor).

(** [_keyframes->resize(n)] *)
Definition resize {V} (n : Z) (d : V) (l : list V) : outcome (list V) :=
  if max_size <? n then Throws else Returns (resized (Z.to_nat n) d l).

(** ** The three samplers *)

Section Samplers.
Context `{VT : ValueType V}.

Definition SampleLinearChannel (_output : Accessor.t) (_timestamps : list float)
    (_keyframes : list (Key V)) : outcome (bool * list (Key V)) :=
  match BufferView sizeof _output with
  | None => Returns (false, _keyframes)
  | Some values =>
      _keyframes ← resize (Accessor.count _output) (Build_Key V F32.zero value_init) _keyframes;
      _keyframes ← foldM (λ _keyframes i,
          t ← index _timestamps i;
          v ← load values i;
          at_put _keyframes i {| time := t; value := v |})
        (seqZ 0 (Accessor.count _output)) _keyframes;
      Returns (true, _keyframes)
  end.

(** [1e-6f]: the binary32 value next to [10^-6], [8796093 * 2^-43]. *)
Definition eps : float := S754_finite false 8796093 (-43).

(** [_output.count * 2 - 1] in [size_t]. *)
Definition StepNumKeyframes (_output : Accessor.t) : Z :=
  size_t (size_t (Accessor.count _output * 2) - 1).

(** One turn of the [for] loop of the step sampler. *)
Definition StepTurn (_output : Accessor.t) (values timestamps : list float)
    (_keyframes : list (Key V)) (i : Z) : outcome (list (Key V)) :=
  t ← index timestamps i;
  v ← load values i;
  _keyframes ← at_put _keyframes (size_t (i * 2)) {| time := t; value := v |};
  if i <? size_t (Accessor.count _output - 1) then
    t' ← index timestamps (i + 1);
    v ← load values i;
    at_put _keyframes (size_t (size_t (i * 2) + 1)) {| time := (t' - eps)%f32; value := v |}
  else Returns _keyframes.

Definition SampleStepChannel (_output : Accessor.t) (timestamps : list float)
    (_keyframes : list (Key V)) : outcome (bool * list (Key V)) :=
  match BufferView sizeof _output with
  | None => Returns (false, _keyframes)
  | Some values =>
      let numKeyframes := StepNumKeyframes _output in
      _keyframes ← resize numKeyframes (Build_Key V F32.zero value_init) _keyframes;
      _keyframes ← foldM (StepTurn _output values timestamps)
                     (seqZ 0 (Accessor.count _output)) _keyframes;
      Returns (true, _keyframes)
  end.

Definition SampleHermiteSpline (t : float) (p0 m0 p1 m1 : V) : V :=
  let t2 := (t * t)%f32 in
  let t3 := (t2 * t)%f32 in
  let a := (F32.two * t3 - F32.three * t2 + F32.one)%f32 in
  let b := (t3 - F32.two * t2 + t)%f32 in
  let c := (F32.neg_two * t3 + F32.three * t2)%f32 in
  let d := (t3 - t2)%f32 in
  plus (plus (plus (scale_by p0 a) (scale_by m0 b)) (scale_by p1 c)) (scale_by m1 d).

(** The [while] loop of the cubic spline sampler, from [currentKey] on:
    [suffix] is what is left of [_timestamps] at [currentKey], so the loop
    ends at the latest where the array does, with a read outside it. *)
Fixpoint seek_key (time : float) (numKeyframes : Z) (suffix : list float)
    (currentKey : Z) : outcome Z :=
  match suffix with
  | [] => Undefined
  | t_current :: suffix =>
      if F32.gtb t_current time && (currentKey <? size_t (numKeyframes - 1))
      then seek_key time numKeyframes suffix (size_t (currentKey + 1))
      else Returns currentKey
  end.

(** One turn of the [for] loop of the cubic spline sampler: the key found,
    the interpolation parameter [t] and the keyframe written at [i]. *)
Definition CubicSplineTurn (values _timestamps : list float) (_sampling_rate : float)
    (numKeyframes i currentKey : Z) : outcome (Z * float * Key V) :=
  let time := (F32.of_Z i / _sampling_rate)%f32 in
  currentKey ← seek_key time numKeyframes
                 (drop (Z.to_nat currentKey) _timestamps) currentKey;
  currentTime ← index _timestamps currentKey;
  nextTime ← index _timestamps (currentKey + 1);
  let t := ((time - currentTime) / (nextTime - currentTime))%f32 in
  p0 ← load values (currentKey * 3 + 1);
  m0 ← (v ← load values (currentKey * 3 + 2);
        Returns (scale_by v (nextTime - currentTime)%f32));
  p1 ← load values ((currentKey + 1) * 3 + 1);
  m1 ← (v ← load values ((currentKey + 1) * 3);
        Returns (scale_by v (nextTime - currentTime)%f32));
  Returns (currentKey, t, {| time := time; value := SampleHermiteSpline t p0 m0 p1 m1 |}).

Definition SampleCubicSplineChannel (_output : Accessor.t) (_timestamps : list float)
    (_keyframes : list (Key V)) (_sampling_rate duration : float)
    : outcome (bool * list (Key V)) :=
  match BufferView sizeof _output with
  | None => Returns (false, _keyframes)
  | Some values =>
      let numKeyframes := Accessor.count _output / 3 in
      match F64.to_size_t
              (F64.add (F64.floor (F64.of_float (duration * _sampling_rate)%f32)) F64.one) with
      | None => Undefined
      | Some n =>
          _keyframes ← resize n (Build_Key V F32.zero value_init) _keyframes;
          '(_, _keyframes) ← foldM (λ '(currentKey, _keyframes) i,
              '(currentKey, _, key) ← CubicSplineTurn values _timestamps _sampling_rate
                                        numKeyframes i currentKey;
              _keyframes ← at_put _keyframes i key;
              Returns (currentKey, _keyframes))
            (seqZ 0 (Z.of_nat (length _keyframes))) (0, _keyframes);
          Returns (true, _keyframes)
      end
  end.

End Samplers.

(** ** Bind pose keys and node transforms *)

(** [Float3(static_cast<float>(v[0]), ..., static_cast<float>(v[2]))] *)
Definition Float3_of (v : list double) : outcome Float3 :=
  a ← index v 0; b ← index v 1; c ← index v 2;
  Returns {| x := F32.of_double a; y := F32.of_double b; z := F32.of_double c |}.

Definition Quaternion_of (v : list double) : outcome Quaternion :=
  a ← index v 0; b ← index v 1; c ← index v 2; d ← index v 3;
  Returns {| qx := F32.of_double a; qy := F32.of_double b;
             qz := F32.of_double c; qw := F32.of_double d |}.

Definition CreateTranslationBindPoseKey (_node : Node.t) : outcome TranslationKey :=
  if bool_decide (Node.translation _node = []) then
    Returns {| time := F32.zero; value := Float3_.zero |}
  else
    v ← Float3_of (Node.translation _node);
    Returns {| time := F32.zero; value := v |}.

Definition CreateRotationBindPoseKey (_node : Node.t) : outcome RotationKey :=
  if bool_decide (Node.rotation _node = []) then
    Returns {| time := F32.zero; value := Quaternion_.identity |}
  else
    v ← Quaternion_of (Node.rotation _node);
    Returns {| time := F32.zero; value := v |}.

Definition CreateScaleBindPoseKey (_node : Node.t) : outcome ScaleKey :=
  if bool_decide (Node.scale _node = []) then
    Returns {| time := F32.zero; value := Float3_.one |}
  else
    v ← Float3_of (Node.scale _node);
    Returns {| time := F32.zero; value := v |}.

(** Returns [false], leaving [_transform] as it was, when the node has a
    matrix. *)
Definition CreateNodeTransform (_node : Node.t) (_transform : Transform.t)
    : outcome (bool * Transform.t) :=
  if negb (bool_decide (Node.matrix _node = [])) then Returns (false, _transform)
  else
    let _transform := Transform.identity in
    _transform ← (if negb (bool_decide (Node.translation _node = [])) then
                    v ← Float3_of (Node.translation _node);
                    Returns {| Transform.translation := v;
                               Transform.rotation := Transform.rotation _transform;
                               Transform.scale := Transform.scale _transform |}
                  else Returns _transform);
    _transform ← (if negb (bool_decide (Node.rotation _node = [])) then
                    v ← Quaternion_of (Node.rotation _node);
                    Returns {| Transform.translation := Transform.translation _transform;
                               Transform.rotation := v;
                               Transform.scale := Transform.scale _transform |}
                  else Returns _transform);
    _transform ← (if negb (bool_decide (Node.scale _node = [])) then
                    v ← Float3_of (Node.scale _node);
                    Returns {| Transform.translation := Transform.translation _transform;
                               Transform.rotation := Transform.rotation _transform;
                               Transform.scale := v |}
                  else Returns _transform);
    Returns (true, _transform).

(** ** The importer, over its document [m_model] *)

Variable m_model : Model.t.

(** *** Skin roots *)

(** The two nested [for] loops that fill [parents]: the inner one over the
    children of a joint, the outer one over the joints of the skin. *)
Definition record_children (parents : gmap Z Z) (node : Z) : outcome (gmap Z Z) :=
  n ← index (Model.nodes m_model) node;
  Returns (foldl (λ parents child, <[child := node]> parents) parents (Node.children n)).

Definition skin_parents (joints : list Z) : outcome (gmap Z Z) :=
  foldM record_children joints ∅.

(** The [while] loop that climbs from [root] while it has a parent. *)
Fixpoint climb (fuel : nat) (parents : gmap Z Z) (root : Z) : option Z :=
  match fuel with
  | O => None
  | S fuel =>
      match parents !! root with
      | Some parent => climb fuel parents parent
      | None => Some root
      end
  end.

Definition FindSkinRootJointIndex (fuel : nat) (skin : Skin.t) : option (outcome Z) :=
  if bool_decide (Skin.joints skin = []) then Some (Returns (-1))
  else if negb (Skin.skeleton skin =? -1) then Some (Returns (Skin.skeleton skin))
  else
    match skin_parents (Skin.joints skin), index (Skin.joints skin) 0 with
    | Returns parents, Returns root => Returns <$> climb fuel parents root
    | Returns _, Undefined | Undefined, _ => Some Undefined
    | Returns _, Throws | Throws, _ => Some Throws
    end.

(** *** Joints *)

(** The joint that [resize] adds to a vector: value-initialised, without a
    name or children and with a transform of zeros. *)
Definition Joint_default : Joint :=
  MkJoint ""
    {| Transform.translation := Float3_.zero;
       Transform.rotation :=
         {| qx := F32.zero; qy := F32.zero; qz := F32.zero; qw := F32.zero |};
       Transform.scale := Float3_.zero |} [].
Definition Joint_transform (j : Joint) : Transform.t := let 'MkJoint _ t _ := j in t.
Definition Joint_children (j : Joint) : list Joint := let 'MkJoint _ _ c := j in c.

(** [ImportNode]: the inner [fix] is the loop over [_node.children], [i]
    counting the children done; it stops at the first child that fails. *)
Fixpoint ImportNode (fuel : nat) (_node : Node.t) (_joint : Joint)
    : option (outcome (bool * Joint)) :=
  match fuel with
  | O => None
  | S fuel =>
      let name := Node.name _node in
      match CreateNodeTransform _node (Joint_transform _joint) with
      | Returns (false, transform) =>
          Some (Returns (false, MkJoint name transform (Joint_children _joint)))
      | Returns (true, transform) =>
          let children :=
            resized (length (Node.children _node)) Joint_default (Joint_children _joint) in
          (fix fill (todo : list Z) (i : nat) (children : list Joint)
              : option (outcome (bool * Joint)) :=
             match todo with
             | [] => Some (Returns (true, MkJoint name transform children))
             | child :: todo =>
                 match index (Model.nodes m_model) child, children !! i with
                 | Returns child_node, Some child_joint =>
                     match ImportNode fuel child_node child_joint with
                     | Some (Returns (true, child_joint)) =>
                         fill todo (S i) (<[i := child_joint]> children)
                     | Some (Returns (false, child_joint)) =>
                         Some (Returns (false,
                                 MkJoint name transform (<[i := child_joint]> children)))
                     | Some Undefined => Some Undefined
                     | Some Throws => Some Throws
                     | None => None
                     end
                 | Throws, _ => Some Throws
                 | _, _ => Some Undefined
                 end
             end) (Node.children _node) O children
      | Undefined => Some Undefined
      | Throws => Some Throws
      end
  end.

(** *** Channel dispatch *)

Definition set_translations (_track : JointTrack) (r : outcome (bool * list TranslationKey))
    : outcome (bool * JointTrack) :=
  '(ok, keys) ← r;
  Returns (ok, {| translations := keys; rotations := rotations _track;
                  scales := scales _track |}).

Definition set_rotations (_track : JointTrack) (r : outcome (bool * list RotationKey))
    : outcome (bool * JointTrack) :=
  '(ok, keys) ← r;
  Returns (ok, {| translations := translations _track; rotations := keys;
                  scales := scales _track |}).

Definition set_scales (_track : JointTrack) (r : outcome (bool * list ScaleKey))
    : outcome (bool * JointTrack) :=
  '(ok, keys) ← r;
  Returns (ok, {| translations := translations _track; rotations := rotations _track;
                  scales := keys |}).

(** The rotation branch of the cubic spline case: sample, then normalise
    every key of the track. *)
Definition SampleCubicSplineRotations (_output : Accessor.t) (timestamps : list float)
    (_keyframes : list RotationKey) (_sampling_rate duration : float)
    : outcome (bool * list RotationKey) :=
  match SampleCubicSplineChannel _output timestamps _keyframes _sampling_rate duration with
  | Returns (true, keys) =>
      Returns (true, (λ key, {| time := time key; value := Normalize (value key) |}) <$> keys)
  | failed => failed
  end.

(** [_duration] and [_track] are the in-out parameters: the result carries
    the returned [bool] and what the two hold on return. *)
Definition SampleAnimationChannel (_sampler : AnimationSampler.t) (_target_path : string)
    (_sampling_rate : float) (_duration : float) (_track : JointTrack)
    : outcome (bool * float * JointTrack) :=
  input ← index (Model.accessors m_model) (AnimationSampler.input _sampler);
  max0 ← index (Accessor.maxValues input) 0;
  let duration := F32.of_double max0 in
  let _duration := if F32.gtb duration _duration then duration else _duration in
  _output ← index (Model.accessors m_model) (AnimationSampler.output _sampler);
  match BufferView 4 input with
  | None => Returns (false, _duration, _track)
  | Some timestamps =>
      let interpolation := AnimationSampler.interpolation _sampler in
      '(ok, _track) ←
        (if String.eqb interpolation "" then Returns (false, _track)
         else if String.eqb interpolation "LINEAR" then
           if String.eqb _target_path "translation" then
             set_translations _track
               (SampleLinearChannel _output timestamps (translations _track))
           else if String.eqb _target_path "rotation" then
             set_rotations _track
               (SampleLinearChannel _output timestamps (rotations _track))
           else if String.eqb _target_path "scale" then
             set_scales _track
               (SampleLinearChannel _output timestamps (scales _track))
           else Returns (false, _track)
         else if String.eqb interpolation "STEP" then
           if String.eqb _target_path "translation" then
             set_translations _track
               (SampleStepChannel _output timestamps (translations _track))
           else if String.eqb _target_path "rotation" then
             set_rotations _track
               (SampleStepChannel _output timestamps (rotations _track))
           else if String.eqb _target_path "scale" then
             set_scales _track
               (SampleStepChannel _output timestamps (scales _track))
           else Returns (false, _track)
         else if String.eqb interpolation "CUBICSPLINE" then
           if String.eqb _target_path "translation" then
             set_translations _track
               (SampleCubicSplineChannel _output timestamps (translations _track)
                  _sampling_rate duration)
           else if String.eqb _target_path "rotation" then
             set_rotations _track
               (SampleCubicSplineRotations _output timestamps (rotations _track)
                  _sampling_rate duration)
           else if String.eqb _target_path "scale" then
             set_scales _track
               (SampleCubicSplineChannel _output timestamps (scales _track)
                  _sampling_rate duration)
           else Returns (false, _track)
         else Returns (false, _track));
      Returns (ok, _duration, _track)
  end.

(** *** Animation import *)

Definition FindNodeByName (_name : string) : option Node.t :=
  List.find (λ node, String.eqb (Node.name node) _name) (Model.nodes m_model).

(** The first loop of [Import]: the channels of the animation, per name of
    their target node, in the order of the animation. *)
Definition record_channel (per_joint : gmap string (list AnimationChannel.t))
    (channel : AnimationChannel.t) : outcome (gmap string (list AnimationChannel.t)) :=
  if AnimationChannel.target_node channel =? -1 then Returns per_joint
  else
    target_node ← index (Model.nodes m_model) (AnimationChannel.target_node channel);
    let name := Node.name target_node in
    Returns (<[name := default [] (per_joint !! name) ++ [channel]]> per_joint).

Definition channels_per_joint (channels : list AnimationChannel.t)
    : outcome (gmap string (list AnimationChannel.t)) :=
  foldM record_channel channels ∅.

(** The loop over the channels of one joint; it returns at the first
    channel that fails. *)
Fixpoint sample_channels (gltf_animation : Animation.t) (_sampling_rate : float)
    (channels : list AnimationChannel.t) (duration : float) (track : JointTrack)
    : outcome (bool * float * JointTrack) :=
  match channels with
  | [] => Returns (true, duration, track)
  | channel :: channels =>
      sampler ← index (Animation.samplers gltf_animation) (AnimationChannel.sampler channel);
      '(ok, duration, track) ←
        SampleAnimationChannel sampler (AnimationChannel.target_path channel)
          _sampling_rate duration track;
      if negb ok then Returns (false, duration, track)
      else sample_channels gltf_animation _sampling_rate channels duration track
  end.

(** [*node] for the pointer that [FindNodeByName] returns. *)
Definition deref (node : option Node.t) : outcome Node.t :=
  match node with
  | Some node => Returns node
  | None => Undefined
  end.

(** Pads the bind pose into the properties of [track] left empty; [node]
    is dereferenced for these properties only. *)
Definition pad_bind_pose (node : option Node.t) (track : JointTrack) : outcome JointTrack :=
  translations ← (if bool_decide (translations track = []) then
                    node ← deref node;
                    key ← CreateTranslationBindPoseKey node; Returns [key]
                  else Returns (translations track));
  rotations ← (if bool_decide (rotations track = []) then
                 node ← deref node;
                 key ← CreateRotationBindPoseKey node; Returns [key]
               else Returns (rotations track));
  scales ← (if bool_decide (scales track = []) then
              node ← deref node;
              key ← CreateScaleBindPoseKey node; Returns [key]
            else Returns (scales track));
  Returns {| translations := translations; rotations := rotations; scales := scales |}.

Definition set_track (_animation : RawAnimation.t) (duration : float) (i : nat)
    (track : JointTrack) : RawAnimation.t :=
  {| RawAnimation.name := RawAnimation.name _animation;
     RawAnimation.duration := duration;
     RawAnimation.tracks := <[i := track]> (RawAnimation.tracks _animation) |}.

(** The loop over the joints of the skeleton, from joint [i] on. *)
Fixpoint import_joints (gltf_animation : Animation.t) (_sampling_rate : float)
    (per_joint : gmap string (list AnimationChannel.t)) (joint_names : list string)
    (i : nat) (_animation : RawAnimation.t) : outcome (bool * RawAnimation.t) :=
  match joint_names with
  | [] => Returns (true, _animation)
  | joint_name :: joint_names =>
      let channels := default [] (per_joint !! joint_name) in
      track ← index (RawAnimation.tracks _animation) (Z.of_nat i);
      '(ok, duration, track) ←
        sample_channels gltf_animation _sampling_rate channels
          (RawAnimation.duration _animation) track;
      if negb ok then Returns (false, set_track _animation duration i track)
      else
        let node := FindNodeByName joint_name in
        track ← pad_bind_pose node track;
        import_joints gltf_animation _sampling_rate per_joint joint_names (S i)
          (set_track _animation duration i track)
  end.

Definition JointTrack_empty : JointTrack :=
  {| translations := []; rotations := []; scales := [] |}.

(** [Import] of an animation: [skeleton] stands for the joint names of the
    runtime skeleton, in its joint order; [_animation] is the object the
    caller passes, the result what it holds on return. *)
Definition Import (_animation_name : string) (skeleton : list string)
    (_sampling_rate : float) (_animation : RawAnimation.t)
    : outcome (bool * RawAnimation.t) :=
  let _sampling_rate :=
    if F32.eqb _sampling_rate F32.zero then F32.thirty else _sampling_rate in
  match List.find (λ a, String.eqb (Animation.name a) _animation_name)
          (Model.animations m_model) with
  | None => Undefined
  | Some gltf_animation =>
      let num_joints := length skeleton in
      let _animation :=
        {| RawAnimation.name := Animation.name gltf_animation;
           RawAnimation.duration := F32.zero;
           RawAnimation.tracks :=
             resized num_joints JointTrack_empty (RawAnimation.tracks _animation) |} in
      per_joint ← channels_per_joint (Animation.channels gltf_animation);
      '(ok, _animation) ←
        import_joints gltf_animation _sampling_rate per_joint skeleton O _animation;
      if negb ok then Returns (false, _animation)
      else if negb (Validate _animation) then Returns (false, _animation)
      else Returns (true, _animation)
  end.

End Importer.

(** ** A reference instance of the library

    The definitions of this part stand for code outside the importer's
    file; the general theorems below hold for every [Library], the worked
    inputs are run with this one. *)

(** The size tables as tinygltf documents them: the glTF component type
    codes 5120 to 5126 and 5130, and the type codes of [TINYGLTF_TYPE_*]. *)
Definition tinygltf_GetComponentSizeInBytes (componentType : Z) : Z :=
  if componentType =? 5120 then 1
  else if componentType =? 5121 then 1
  else if componentType =? 5122 then 2
  else if componentType =? 5123 then 2
  else if componentType =? 5124 then 4
  else if componentType =? 5125 then 4
  else if componentType =? 5126 then 4
  else if componentType =? 5130 then 8
  else -1.

Definition TINYGLTF_COMPONENT_TYPE_FLOAT : Z := 5126.
Definition TINYGLTF_TYPE_VEC3 : Z := 3.
Definition TINYGLTF_TYPE_VEC4 : Z := 4.
Definition TINYGLTF_TYPE_SCALAR : Z := 64 + 1.

Definition tinygltf_GetTypeSizeInBytes (ty : Z) : Z :=
  if ty =? TINYGLTF_TYPE_SCALAR then 1
  else if ty =? 2 then 2
  else if ty =? TINYGLTF_TYPE_VEC3 then 3
  else if ty =? TINYGLTF_TYPE_VEC4 then 4
  else if ty =? 32 + 2 then 4
  else if ty =? 32 + 3 then 9
  else if ty =? 32 + 4 then 16
  else -1.

(** Modelled from the spec: ozz's [Normalize] of a quaternion is not in the
    importer's file. "Rotation outputs are re-normalized
    post-interpolation": every component is divided by the norm. *)
Definition ozz_Normalize (q : Quaternion) : Quaternion :=
  let sq_len := (qx q * qx q + qy q * qy q + qz q * qz q + qw q * qw q)%f32 in
  let inv_len := (F32.one / SFsqrt F32.prec F32.emax sq_len)%f32 in
  {| qx := (qx q * inv_len)%f32; qy := (qy q * inv_len)%f32;
     qz := (qz q * inv_len)%f32; qw := (qw q * inv_len)%f32 |}.

Fixpoint strictly_increasing (times : list float) : bool :=
  match times with
  | t1 :: (t2 :: _) as rest => F32.ltb t1 t2 && strictly_increasing rest
  | _ => true
  end.

(** Modelled from the spec: [RawAnimation::Validate] is not in the
    importer's file. An animation is valid with a "non-negative duration,
    non-empty tracks, strictly increasing keyframe times per track". *)
Definition spec_Validate (a : RawAnimation.t) : bool :=
  F32.leb F32.zero (RawAnimation.duration a)
  && forallb (λ track,
       negb (bool_decide (translations track = []))
       && negb (bool_decide (rotations track = []))
       && negb (bool_decide (scales track = []))
       && strictly_increasing (time <$> translations track)
       && strictly_increasing (time <$> rotations track)
       && strictly_increasing (time <$> scales track))
     (RawAnimation.tracks a).

#[global] Instance reference_library : Library := {|
  GetComponentSizeInBytes := tinygltf_GetComponentSizeInBytes;
  GetTypeSizeInBytes := tinygltf_GetTypeSizeInBytes;
  Normalize := ozz_Normalize;
  Validate := spec_Validate;
  max_size := (2 ^ 64 - 1) `div` 16;
  max_size_lt := eq_refl;
|}.


(** ** Names of the document *)

(** What [FixupNames] needs of the elements of the vector it is given
    (scenes, nodes or animations): their [name] member, read and written. *)
Class Named (A : Type) := {
  name_of : A → string;
  set_name : string → A → A;
  name_of_set_name : ∀ name a, name_of (set_name name a) = name;
}.

#[global] Instance Node_named : Named Node.t := {|
  name_of := Node.name;
  set_name name node :=
    {| Node.name := name; Node.children := Node.children node;
       Node.translation := Node.translation node; Node.rotation := Node.rotation node;
       Node.scale := Node.scale node; Node.matrix := Node.matrix node |};
  name_of_set_name _ _ := eq_refl;
|}.

#[global] Instance Animation_named : Named Animation.t := {|
  name_of := Animation.name;
  set_name name a :=
    {| Animation.name := name; Animation.channels := Animation.channels a;
       Animation.samplers := Animation.samplers a |};
  name_of_set_name _ _ := eq_refl;
|}.

(** [s.c_str()] read back as a string, and a [const char*] read as one:
    the characters before the first NUL. *)
Fixpoint c_str (s : string) : string :=
  match s with
  | EmptyString => EmptyString
  | String c s => if Ascii.eqb c Ascii.zero then EmptyString else String c (c_str s)
  end.

(** [std::to_string(i)] for an index [i]: its decimal digits. *)
Definition to_string (i : nat) : string := pretty i.

(** The inner [for] loop of [FixupNames]: while [name] is among [names],
    ["_"] and the index are appended to it. *)
Fixpoint fix_duplicate (fuel : nat) (names : gset string) (i : nat) (name : string)
    (renamed : bool) : option (string * bool) :=
  match fuel with
  | O => None
  | S fuel =>
      if bool_decide (name ∈ names)
      then fix_duplicate fuel names i (name +:+ "_" +:+ to_string i) true
      else Some (name, renamed)
  end.

(** The outer loop of [FixupNames], from element [i] on: [todo] is
    [_data[i..]], the result what these elements have become. *)
Fixpoint fixup_from {A} `{Named A} (fuel : nat) (_prefix_name : string)
    (names : gset string) (i : nat) (todo : list A) : option (list A) :=
  match todo with
  | [] => Some []
  | data :: todo =>
      let name := c_str (name_of data) in
      let '(name, renamed) :=
        if String.eqb name "" then (c_str _prefix_name +:+ to_string i, true)
        else (name, false) in
      match fix_duplicate fuel names i name renamed with
      | None => None
      | Some (name, renamed) =>
          match fixup_from fuel _prefix_name ({[name]} ∪ names) (S i) todo with
          | None => None
          | Some done => Some ((if renamed then set_name name data else data) :: done)
          end
      end
  end.

(** [FixupNames]: the returned [bool] and what [_data] holds on return. *)
Definition FixupNames {A} `{Named A} (fuel : nat) (_data : list A)
    (_prefix_name : string) : option (bool * list A) :=
  match fixup_from fuel _prefix_name ∅ O _data with
  | None => None
  | Some _data => Some (true, _data)
  end.

(** ** Scenes and skins of the document *)

Module Scene.
Record t := {
  name : string;
  nodes : list Z;
}.
End Scene.

(** The members of [tinygltf::Model] that the skeleton import reads: those
    of [Model.t], the scenes, the skins and the default scene. *)
Module Document.
Record t := {
  model : Model.t;
  scenes : list Scene.t;
  skins : list Skin.t;
  defaultScene : Z;
}.
End Document.

(** [std::set<int>]: a finite set whose first element is its least one and
    which is gone through in ascending order. *)
Definition begin (s : gset Z) : option Z :=
  match elements s with
  | [] => None
  | x :: l => Some (foldr Z.min x l)
  end.

Definition ascending (s : gset Z) : list Z := merge_sort Z.le (elements s).

(** A call that may run out of fuel, leave the defined behaviour or throw,
    followed by what is done with its result. *)
Definition and_then {A B} (m : option (outcome A)) (k : A → option (outcome B))
    : option (outcome B) :=
  match m with
  | Some (Returns a) => k a
  | Some Undefined => Some Undefined
  | Some Throws => Some Throws
  | None => None
  end.

Section SkeletonImporter.

Variable m_document : Document.t.

(** [RawSkeleton::Validate], which is not of the importer's file: any
    function of the roots. *)
Variable Validate_skeleton : list Joint → bool.

(** The [while] loop of [GetSkinsForScene] over the set [open]. *)
Fixpoint visit (fuel : nat) (open found : gset Z) : option (outcome (gset Z)) :=
  match fuel with
  | O => None
  | S fuel =>
      match begin open with
      | None => Some (Returns found)
      | Some nodeIndex =>
          let found := {[nodeIndex]} ∪ found in
          let open := open ∖ {[nodeIndex]} in
          match index (Model.nodes (Document.model m_document)) nodeIndex with
          | Returns node => visit fuel (list_to_set (Node.children node) ∪ open) found
          | Undefined => Some Undefined
          | Throws => Some Throws
          end
      end
  end.

Definition GetSkinsForScene (fuel : nat) (_scene : Scene.t)
    : option (outcome (list Skin.t)) :=
  and_then (visit fuel (list_to_set (Scene.nodes _scene)) ∅) (λ found,
    Some (Returns
      (List.filter (λ skin,
           match Skin.joints skin with
           | [] => false
           | joint :: _ => bool_decide (joint ∈ found)
           end)
         (Document.skins m_document)))).

(** The loop of [Import] over the skins of the scene, which collects their
    roots. *)
Fixpoint skin_roots (fuel : nat) (skins : list Skin.t) (roots : gset Z)
    : option (outcome (gset Z)) :=
  match skins with
  | [] => Some (Returns roots)
  | skin :: skins =>
      and_then (FindSkinRootJointIndex (Document.model m_document) fuel skin) (λ root,
        if root =? -1 then skin_roots fuel skins roots
        else skin_roots fuel skins ({[root]} ∪ roots))
  end.

(** The loop of [Import] over the roots, [i] counting the roots done; it
    stops at the first root whose import fails. *)
Fixpoint import_roots (fuel : nat) (roots : list Z) (i : nat) (joints : list Joint)
    : option (outcome (bool * list Joint)) :=
  match roots with
  | [] => Some (Returns (true, joints))
  | root :: roots =>
      match index (Model.nodes (Document.model m_document)) root, joints !! i with
      | Returns root_node, Some root_joint =>
          and_then (ImportNode (Document.model m_document) fuel root_node root_joint)
            (λ '(ok, root_joint),
               let joints := <[i := root_joint]> joints in
               if ok then import_roots fuel roots (S i) joints
               else Some (Returns (false, joints)))
      | Throws, _ => Some Throws
      | _, _ => Some Undefined
      end
  end.

(** [Import] of a skeleton: [_skeleton] is the vector of roots of the
    object the caller passes, the result what it holds on return. *)
Definition ImportSkeleton (fuel : nat) (_skeleton : list Joint)
    : option (outcome (bool * list Joint)) :=
  match Document.scenes m_document with
  | [] => Some (Returns (false, _skeleton))
  | _ =>
      let defaultScene := Document.defaultScene m_document in
      let defaultScene := if defaultScene =? -1 then 0 else defaultScene in
      match index (Document.scenes m_document) defaultScene with
      | Returns scene =>
          match Scene.nodes scene with
          | [] => Some (Returns (false, _skeleton))
          | _ =>
              and_then (GetSkinsForScene fuel scene) (λ skins,
              and_then (match skins with
                        | [] => Some (Returns (list_to_set (Scene.nodes scene)))
                        | _ => skin_roots fuel skins ∅
                        end) (λ roots,
              and_then (import_roots fuel (ascending roots) O
                          (resized (size roots) Joint_default _skeleton))
                (λ '(ok, joints),
                   if negb ok then Some (Returns (false, joints))
                   else if negb (Validate_skeleton joints) then Some (Returns (false, joints))
                   else Some (Returns (true, joints)))))
          end
      | Undefined => Some Undefined
      | Throws => Some Throws
      end
  end.

End SkeletonImporter.

(** [GetAnimationNames]: the names of the animations, as C strings. *)
Definition GetAnimationNames (m_model : Model.t) : list string :=
  (λ animation, c_str (Animation.name animation)) <$> Model.animations m_model.

(** * Vocabulary of the statements *)

Definition supported_interpolation (interpolation : string) : Prop :=
  interpolation = "LINEAR" ∨ interpolation = "STEP" ∨ interpolation = "CUBICSPLINE".

Definition supported_target_path (target_path : string) : Prop :=
  target_path = "translation" ∨ target_path = "rotation" ∨ target_path = "scale".

(** [channel] is one of the channels [Import] hands to the joint named
    [joint_name]: its target node is set and carries that name. *)
Definition targets (m_model : Model.t) (joint_name : string)
    (channel : AnimationChannel.t) : bool :=
  negb (AnimationChannel.target_node channel =? -1)
  && match index (Model.nodes m_model) (AnimationChannel.target_node channel) with
     | Returns node => String.eqb (Node.name node) joint_name
     | _ => false
     end.

Definition channels_of (m_model : Model.t) (gltf_animation : Animation.t)
    (joint_name : string) : list AnimationChannel.t :=
  List.filter (targets m_model joint_name) (Animation.channels gltf_animation).

(** The channels [Import] samples for a skeleton, in the order it samples
    them. *)
Definition sampled_channels (m_model : Model.t) (gltf_animation : Animation.t)
    (skeleton : list string) : list AnimationChannel.t :=
  skeleton ≫= channels_of m_model gltf_animation.

(** The channel names a sampler of the animation, with an interpolation
    and a target path that the dispatcher knows. *)
Definition dispatch_supported (gltf_animation : Animation.t)
    (channel : AnimationChannel.t) : Prop :=
  ∃ sampler,
    index (Animation.samplers gltf_animation) (AnimationChannel.sampler channel)
    = Returns sampler
    ∧ supported_interpolation (AnimationSampler.interpolation sampler)
    ∧ supported_target_path (AnimationChannel.target_path channel).

(** The rest pose of a node, property by property: what the node gives,
    else zero translation, identity rotation, unit scale. *)
Definition rest_translation (node : Node.t) : outcome Float3 :=
  if bool_decide (Node.translation node = []) then Returns Float3_.zero
  else Float3_of (Node.translation node).

Definition rest_rotation (node : Node.t) : outcome Quaternion :=
  if bool_decide (Node.rotation node = []) then Returns Quaternion_.identity
  else Quaternion_of (Node.rotation node).

Definition rest_scale (node : Node.t) : outcome Float3 :=
  if bool_decide (Node.scale node = []) then Returns Float3_.one
  else Float3_of (Node.scale node).

(** The rest pose of a node as the document gives it, written out number
    by number: the node's translation, rotation and scale, each number
    converted to [float]; for a property the node leaves out, zero
    translation, identity rotation, unit scale. *)
Definition rest_pose (node : Node.t) : Transform.t :=
  {| Transform.translation :=
       match Node.translation node with
       | tx :: ty :: tz :: _ =>
           {| x := F32.of_double tx; y := F32.of_double ty; z := F32.of_double tz |}
       | _ => {| x := F32.of_Z 0; y := F32.of_Z 0; z := F32.of_Z 0 |}
       end;
     Transform.rotation :=
       match Node.rotation node with
       | rx :: ry :: rz :: rw :: _ =>
           {| qx := F32.of_double rx; qy := F32.of_double ry;
              qz := F32.of_double rz; qw := F32.of_double rw |}
       | _ => {| qx := F32.of_Z 0; qy := F32.of_Z 0; qz := F32.of_Z 0; qw := F32.of_Z 1 |}
       end;
     Transform.scale :=
       match Node.scale node with
       | sx :: sy :: sz :: _ =>
           {| x := F32.of_double sx; y := F32.of_double sy; z := F32.of_double sz |}
       | _ => {| x := F32.of_Z 1; y := F32.of_Z 1; z := F32.of_Z 1 |}
       end |}.

(** The track of a joint holds no key. *)
Definition no_keys (track : JointTrack) : Prop :=
  translations track = [] ∧ rotations track = [] ∧ scales track = [].

(** The order of binary32 values that are numbers, by a key compared
    lexicographically: sign class, then exponent, then mantissa. *)
Definition float_key (x : float) : option (Z * Z * Z) :=
  match x with
  | S754_nan => None
  | S754_infinity true => Some (-2, 0, 0)
  | S754_infinity false => Some (2, 0, 0)
  | S754_zero _ => Some (0, 0, 0)
  | S754_finite true m e => Some (-1, - e, - Z.pos m)
  | S754_finite false m e => Some (1, e, Z.pos m)
  end.

Definition key_lt (a b : Z * Z * Z) : Prop :=
  a.1.1 < b.1.1 ∨ (a.1.1 = b.1.1 ∧ (a.1.2 < b.1.2 ∨ (a.1.2 = b.1.2 ∧ a.2 < b.2))).

(** The duration a channel declares: the maximum its sampler's input
    accessor declares, as a [float]. *)
Definition declared_duration (m_model : Model.t) (gltf_animation : Animation.t)
    (channel : AnimationChannel.t) : outcome float :=
  sampler ← index (Animation.samplers gltf_animation) (AnimationChannel.sampler channel);
  input ← index (Model.accessors m_model) (AnimationSampler.input sampler);
  max0 ← index (Accessor.maxValues input) 0;
  Returns (F32.of_double max0).

(** [d] is the maximum of the values [ds]. *)
Definition is_maximum (d : float) (ds : list float) : Prop :=
  d ∈ ds ∧ ∀ x, x ∈ ds → F32.ltb d x = false.

(** The duration as the maximum over the channels, 0 without channels. *)
Definition maximal_duration (ds : list float) (d : float) : Prop :=
  match ds with
  | [] => d = F32.zero
  | _ => is_maximum d ds
  end.

(** The accumulator step of [SampleAnimationChannel]. *)
Definition raise (_duration duration : float) : float :=
  if F32.gtb duration _duration then duration else _duration.

(** [child] is listed among the children of node [parent]. *)
Definition is_child (m_model : Model.t) (parent child : Z) : bool :=
  match index (Model.nodes m_model) parent with
  | Returns node => bool_decide (child ∈ Node.children node)
  | _ => false
  end.

(** [joint] is [root] or hangs below it by at most [depth] child links
    between joints of the skin. *)
Fixpoint descends (m_model : Model.t) (joints : list Z) (root : Z) (depth : nat)
    (joint : Z) : bool :=
  (joint =? root)
  || match depth with
     | O => false
     | S depth =>
         existsb (λ parent,
             is_child m_model parent joint && descends m_model joints root depth parent)
           joints
     end.

(** The joints of a skin form one tree with the parentless joint [root]:
    [root] is a joint that no joint has as a child, no joint is the child of
    two joints, and every joint hangs below [root]. Every joint is a node of
    the document. *)
Definition skin_tree (m_model : Model.t) (joints : list Z) (root : Z) : bool :=
  bool_decide (root ∈ joints)
  && forallb (λ joint,
         match index (Model.nodes m_model) joint with Returns _ => true | _ => false end
         && negb (is_child m_model joint root)) joints
  && forallb (λ child,
         forallb (λ p,
             forallb (λ q,
                 implb (is_child m_model p child && is_child m_model q child) (p =? q))
               joints) joints) joints
  && forallb (descends m_model joints root (length joints)) joints.

(** Every path of child links from [node] ends after fewer than [depth]
    nodes: none comes back to a node it has passed. *)
Fixpoint paths_end_within (m_model : Model.t) (depth : nat) (node : Node.t) : bool :=
  match depth with
  | O => false
  | S depth =>
      forallb (λ child,
          match index (Model.nodes m_model) child with
          | Returns child_node => paths_end_within m_model depth child_node
          | _ => true
          end)
        (Node.children node)
  end.

(** The document without the channels whose target node is unset. *)
Definition drop_unset_targets (a : Animation.t) : Animation.t :=
  {| Animation.name := Animation.name a;
     Animation.channels :=
       List.filter (λ channel, negb (AnimationChannel.target_node channel =? -1))
         (Animation.channels a);
     Animation.samplers := Animation.samplers a |}.

Definition without_unset_targets (m_model : Model.t) : Model.t :=
  {| Model.accessors := Model.accessors m_model;
     Model.animations := drop_unset_targets <$> Model.animations m_model;
     Model.nodes := Model.nodes m_model |}.

(** * Worked inputs *)

Definition float_accessor (ty : Z) (count : Z) (max : list double) (data : list float)
    : Accessor.t :=
  {| Accessor.count := count;
     Accessor.componentType := TINYGLTF_COMPONENT_TYPE_FLOAT;
     Accessor.type := ty;
     Accessor.maxValues := max;
     Accessor.payload := data;
     Accessor.data_null := false |}.

Definition vec3 (a b c : Z) : list float := [F32.of_Z a; F32.of_Z b; F32.of_Z c].

(** An output accessor without elements. *)
Definition no_values : Accessor.t := float_accessor TINYGLTF_TYPE_VEC3 0 [] [].

Definition walk_animation (interpolation target_path : string) : Animation.t :=
  {| Animation.name := "walk";
     Animation.channels :=
       [{| AnimationChannel.sampler := 0;
           AnimationChannel.target_node := 0;
           AnimationChannel.target_path := target_path |}];
     Animation.samplers :=
       [{| AnimationSampler.input := 0;
           AnimationSampler.output := 1;
           AnimationSampler.interpolation := interpolation |}] |}.

(** A document with one animation of one channel, whose sampler names the
    interpolation [interpolation] and whose target is [target_path] of node
    0, the only joint. *)
Definition one_channel_model (interpolation target_path : string) : Model.t :=
  {| Model.accessors :=
       [float_accessor TINYGLTF_TYPE_SCALAR 2 [double_of_bits 1 0]
          [F32.of_Z 0; F32.of_Z 1];
        float_accessor TINYGLTF_TYPE_VEC3 2 [] (vec3 0 0 0 ++ vec3 1 0 0)];
     Model.animations := [walk_animation interpolation target_path];
     Model.nodes :=
       [{| Node.name := "J0"; Node.children := []; Node.translation := [];
           Node.rotation := []; Node.scale := []; Node.matrix := [] |}] |}.

Definition fresh_animation : RawAnimation.t :=
  {| RawAnimation.name := ""; RawAnimation.duration := F32.one; RawAnimation.tracks := [] |}.

(** A document whose only channel declares a negative maximum: two linear
    translation keys at times -2 and -1. *)
Definition negative_span_model : Model.t :=
  {| Model.accessors :=
       [float_accessor TINYGLTF_TYPE_SCALAR 2 [double_of_bits (-1) 0]
          [F32.of_Z (-2); F32.of_Z (-1)];
        float_accessor TINYGLTF_TYPE_VEC3 2 [] (vec3 0 0 0 ++ vec3 1 0 0)];
     Model.animations := [walk_animation "LINEAR" "translation"];
     Model.nodes :=
       [{| Node.name := "J0"; Node.children := []; Node.translation := [];
           Node.rotation := []; Node.scale := []; Node.matrix := [] |}] |}.

Definition plain_node (name : string) (children : list Z) : Node.t :=
  {| Node.name := name; Node.children := children; Node.translation := [];
     Node.rotation := []; Node.scale := []; Node.matrix := [] |}.

(** The skeleton J0 <- J1 <- J2 of three nodes, J0 the root. *)
Definition chain_model : Model.t :=
  {| Model.accessors := [];
     Model.animations := [];
     Model.nodes := [plain_node "J0" [1]; plain_node "J1" [2]; plain_node "J2" []] |}.

(** A node that lists itself as its child. *)
Definition loop_node : Node.t := plain_node "J0" [0].

Definition loop_model : Model.t :=
  {| Model.accessors := []; Model.animations := []; Model.nodes := [loop_node] |}.

(** A step channel of two keys, at 0 s and at 64 s. *)
Definition late_step_timestamps : list float := [F32.of_Z 0; F32.of_Z 64].
Definition late_step_output : Accessor.t :=
  float_accessor TINYGLTF_TYPE_VEC3 2 [] (vec3 1 2 3 ++ vec3 4 5 6).

(** The document of that step channel, on its only joint. *)
Definition late_step_model : Model.t :=
  {| Model.accessors :=
       [float_accessor TINYGLTF_TYPE_SCALAR 2 [double_of_bits 64 0] late_step_timestamps;
        late_step_output];
     Model.animations := [walk_animation "STEP" "translation"];
     Model.nodes :=
       [{| Node.name := "J0"; Node.children := []; Node.translation := [];
           Node.rotation := []; Node.scale := []; Node.matrix := [] |}] |}.

(** A cubic spline channel of three keys, at 0 s, 1 s and 2 s, with the
    values (0,0,0), (1,0,0), (3,0,0) and flat tangents: per key the
    in-tangent, the value and the out-tangent. *)
Definition spline_timestamps : list float := [F32.of_Z 0; F32.of_Z 1; F32.of_Z 2].
Definition spline_output : Accessor.t :=
  float_accessor TINYGLTF_TYPE_VEC3 9 []
    (vec3 0 0 0 ++ vec3 0 0 0 ++ vec3 0 0 0
     ++ vec3 0 0 0 ++ vec3 1 0 0 ++ vec3 0 0 0
     ++ vec3 0 0 0 ++ vec3 3 0 0 ++ vec3 0 0 0).

(** The end-to-end example: the chain J0 <- J1 <- J2 with one linear
    translation channel on J1, keys (0, (0,0,0)) and (1, (1,0,0)). *)
Definition walk_animation_on (target_node : Z) : Animation.t :=
  {| Animation.name := "walk";
     Animation.channels :=
       [{| AnimationChannel.sampler := 0;
           AnimationChannel.target_node := target_node;
           AnimationChannel.target_path := "translation" |}];
     Animation.samplers :=
       [{| AnimationSampler.input := 0;
           AnimationSampler.output := 1;
           AnimationSampler.interpolation := "LINEAR" |}] |}.

Definition chain_walk_model : Model.t :=
  {| Model.accessors :=
       [float_accessor TINYGLTF_TYPE_SCALAR 2 [double_of_bits 1 0]
          [F32.of_Z 0; F32.of_Z 1];
        float_accessor TINYGLTF_TYPE_VEC3 2 [] (vec3 0 0 0 ++ vec3 1 0 0)];
     Model.animations := [walk_animation_on 1];
     Model.nodes := [plain_node "J0" [1]; plain_node "J1" [2]; plain_node "J2" []] |}.

Definition chain_skeleton : list string := ["J0"; "J1"; "J2"].

(** What the import of the end-to-end example leaves in the animation. *)
Definition chain_walk_animation : RawAnimation.t :=
  Eval vm_compute in
    match Import chain_walk_model "walk" chain_skeleton F32.thirty fresh_animation with
    | Returns (_, a) => a
    | _ => fresh_animation
    end.

(** The end-to-end example with a rest pose of its own on J2: translation
    (1, 2, 3), a half turn about x, scale (2, 2, 2). *)
Definition posed_leaf : Node.t :=
  {| Node.name := "J2"; Node.children := [];
     Node.translation := [double_of_bits 1 0; double_of_bits 2 0; double_of_bits 3 0];
     Node.rotation := [double_of_bits 1 0; double_of_bits 0 0; double_of_bits 0 0;
                       double_of_bits 0 0];
     Node.scale := [double_of_bits 2 0; double_of_bits 2 0; double_of_bits 2 0];
     Node.matrix := [] |}.

Definition posed_walk_model : Model.t :=
  {| Model.accessors := Model.accessors chain_walk_model;
     Model.animations := Model.animations chain_walk_model;
     Model.nodes := [plain_node "J0" [1]; plain_node "J1" [2]; posed_leaf] |}.

Definition posed_walk_animation : RawAnimation.t :=
  Eval vm_compute in
    match Import posed_walk_model "walk" chain_skeleton F32.thirty fresh_animation with
    | Returns (_, a) => a
    | _ => fresh_animation
    end.

(** An animation object that was used before: its first track still holds
    a rotation key, a half turn about x. *)
Definition old_key : RotationKey :=
  {| time := F32.zero;
     value := {| qx := F32.of_Z 1; qy := F32.of_Z 0; qz := F32.of_Z 0; qw := F32.of_Z 0 |} |}.

Definition reused_animation : RawAnimation.t :=
  {| RawAnimation.name := "run"; RawAnimation.duration := F32.one;
     RawAnimation.tracks :=
       [{| translations := []; rotations := [old_key]; scales := [] |}] |}.

Definition reused_walk_animation : RawAnimation.t :=
  Eval vm_compute in
    match Import chain_walk_model "walk" chain_skeleton F32.thirty reused_animation with
    | Returns (_, a) => a
    | _ => reused_animation
    end.

(** * Further vocabulary *)

(** [joint] is the joint tree of [node], down to [depth] levels: it has the
    node's name and transform, and one child per child of the node, in the
    node's order, each the joint tree of that child. *)
Fixpoint mirrors (m_model : Model.t) (depth : nat) (node : Node.t) (joint : Joint)
    : Prop :=
  match depth with
  | O => False
  | S depth =>
      let 'MkJoint name transform children := joint in
      name = Node.name node
      ∧ CreateNodeTransform node Transform.identity = Returns (true, transform)
      ∧ Forall2 (λ child child_joint,
            ∃ child_node,
              index (Model.nodes m_model) child = Returns child_node
              ∧ mirrors m_model depth child_node child_joint)
          (Node.children node) children
  end.

(** A binary32 value that is a number in canonical form: a zero, or a
    finite value whose mantissa and exponent are those of its format. *)
Definition finite_float (x : float) : bool :=
  match x with
  | S754_finite _ m e => bounded F32.prec F32.emax m e
  | S754_zero _ => true
  | _ => false
  end.

(** Equal, or two zeros whatever their signs. *)
Definition same_number (x y : float) : Prop :=
  x = y ∨ ∃ s s', x = S754_zero s ∧ y = S754_zero s'.

Definition finite_Float3 (v : Float3) : bool :=
  finite_float (x v) && finite_float (y v) && finite_float (z v).

(** [==] on every component. *)
Definition Float3_eqb (v w : Float3) : bool :=
  F32.eqb (x v) (x w) && F32.eqb (y v) (y w) && F32.eqb (z v) (z w).

(** * Further worked inputs *)

(** A linear translation channel of two keys, (0, (1,2,3)) and
    (1, (4,5,6)). *)
Definition two_key_timestamps : list float := [F32.of_Z 0; F32.of_Z 1].
Definition two_key_output : Accessor.t :=
  float_accessor TINYGLTF_TYPE_VEC3 2 [] (vec3 1 2 3 ++ vec3 4 5 6).
Definition two_key_time (i : Z) : float := F32.of_Z i.
Definition two_key_value (i : Z) : Float3 :=
  {| x := F32.of_Z (3 * i + 1); y := F32.of_Z (3 * i + 2); z := F32.of_Z (3 * i + 3) |}.

(** A node with a rest pose of its own: translation (1, 2, 3), the
    rotation of a half turn about x, scale (2, 2, 2). *)
Definition posed_node : Node.t :=
  {| Node.name := "hip"; Node.children := [];
     Node.translation := [double_of_bits 1 0; double_of_bits 2 0; double_of_bits 3 0];
     Node.rotation := [double_of_bits 1 0; double_of_bits 0 0; double_of_bits 0 0;
                       double_of_bits 0 0];
     Node.scale := [double_of_bits 2 0; double_of_bits 2 0; double_of_bits 2 0];
     Node.matrix := [] |}.

Definition posed_transform : Transform.t :=
  {| Transform.translation := {| x := F32.of_Z 1; y := F32.of_Z 2; z := F32.of_Z 3 |};
     Transform.rotation :=
       {| qx := F32.of_Z 1; qy := F32.zero; qz := F32.zero; qw := F32.zero |};
     Transform.scale := {| x := F32.of_Z 2; y := F32.of_Z 2; z := F32.of_Z 2 |} |}.

(** Nodes as a loader may leave them: one without a name, three of one
    name, one named as the first renaming would name another. *)
Definition unnamed_nodes : list Node.t :=
  [plain_node "a" []; plain_node "" []; plain_node "a" []; plain_node "a_2" [];
   plain_node "a" []].

Definition walk_channel (target_path : string) : AnimationChannel.t :=
  {| AnimationChannel.sampler := 0; AnimationChannel.target_node := 0;
     AnimationChannel.target_path := target_path |}.

Definition walk_sampler (interpolation : string) : AnimationSampler.t :=
  {| AnimationSampler.input := 0; AnimationSampler.output := 1;
     AnimationSampler.interpolation := interpolation |}.

Definition a_track : JointTrack :=
  {| translations := [];
     rotations := [{| time := F32.zero; value := Quaternion_.identity |}];
     scales := [{| time := F32.zero; value := Float3_.one |}] |}.

Definition spline_keys : list (Key Float3) :=
  Eval vm_compute in
    match SampleCubicSplineChannel (V := Float3) spline_output spline_timestamps []
            (F32.of_Z 1) (F32.of_Z 2) with
    | Returns (_, keys) => keys
    | _ => []
    end.

Definition walked : float * JointTrack :=
  Eval vm_compute in
    match SampleAnimationChannel (one_channel_model "LINEAR" "translation")
            (walk_sampler "LINEAR") "translation" F32.thirty F32.zero a_track with
    | Returns (_, _duration, _track) => (_duration, _track)
    | _ => (F32.zero, a_track)
    end.

Definition walked_duration : float := walked.1.
Definition walked_track : JointTrack := walked.2.

(** The track of the root joint after the import of the end-to-end
    example. *)
Definition chain_root_track : JointTrack :=
  Eval vm_compute in default JointTrack_empty (RawAnimation.tracks chain_walk_animation !! 0%nat).

Definition chain_joint_tree : Joint :=
  MkJoint "J0" Transform.identity
    [MkJoint "J1" Transform.identity [MkJoint "J2" Transform.identity []]].

Definition f3 (a b c : Z) : Float3 := {| x := F32.of_Z a; y := F32.of_Z b; z := F32.of_Z c |}.

(** ** The node graph *)

(** [child] is listed among the children of the node [parent]. *)
Definition child_of (m_model : Model.t) (parent child : Z) : Prop :=
  is_child m_model parent child = true.

(** [n] is one of [roots] or is reached from one of them along child
    links. *)
Definition reachable (m_model : Model.t) (roots : list Z) (n : Z) : Prop :=
  ∃ root, root ∈ roots ∧ rtc (child_of m_model) root n.

(** Every path of child links from the node of index [n] ends after fewer
    than [depth] nodes; an index outside the nodes ends a path. *)
Definition ends_within (m_model : Model.t) (depth : nat) (n : Z) : bool :=
  match index (Model.nodes m_model) n with
  | Returns node => paths_end_within m_model depth node
  | _ => true
  end.

(** The number of paths of child links that start at [n], of less than
    [depth] links: what the visit of [n] and of all below it costs at
    most. *)
Fixpoint weight (m_model : Model.t) (depth : nat) (n : Z) : nat :=
  match depth with
  | O => 1
  | S depth =>
      match index (Model.nodes m_model) n with
      | Returns node => S (sum_list_with (weight m_model depth) (Node.children node))
      | _ => 1
      end
  end.

(** [n] is [node] or a node below it along child links. *)
Inductive below (m_model : Model.t) : Node.t → Node.t → Prop :=
  | below_self node : below m_model node node
  | below_child node child child_node n :
      child ∈ Node.children node →
      index (Model.nodes m_model) child = Returns child_node →
      below m_model child_node n →
      below m_model node n.
(** The chain J0 <- J1 <- J2 in a scene, with a skin whose joints are
    listed as J2, J0, J1 and a skin without joints. *)
Definition chain_skin : Skin.t := {| Skin.joints := [2; 0; 1]; Skin.skeleton := -1 |}.

Definition chain_scene : Scene.t := {| Scene.name := "scene"; Scene.nodes := [0] |}.

Definition chain_document : Document.t :=
  {| Document.model := chain_model;
     Document.scenes := [chain_scene];
     Document.skins := [chain_skin; {| Skin.joints := []; Skin.skeleton := -1 |}];
     Document.defaultScene := -1 |}.

(** The node that is its own child, in a scene. *)
Definition loop_document : Document.t :=
  {| Document.model := loop_model;
     Document.scenes := [chain_scene];
     Document.skins := [];
     Document.defaultScene := -1 |}.

(** A validation of skeletons that accepts every skeleton. *)
Definition accept_all (roots : list Joint) : bool := true.

(** A node with a matrix below a node without. *)
Definition matrix_node : Node.t :=
  {| Node.name := "J1"; Node.children := []; Node.translation := [];
     Node.rotation := []; Node.scale := [];
     Node.matrix := replicate 16 (double_of_bits 1 0) |}.

Definition matrix_model : Model.t :=
  {| Model.accessors := []; Model.animations := [];
     Model.nodes := [plain_node "J0" [1]; matrix_node] |}.

(** The nodes [unnamed_nodes] once their names are fixed. *)
Definition renamed_nodes : list Node.t :=
  Eval vm_compute in
    match FixupNames 5 unnamed_nodes "node_" with
    | Some (_, nodes) => nodes
    | None => []
    end.

Definition renamed_model : Model.t :=
  {| Model.accessors := []; Model.animations := []; Model.nodes := renamed_nodes |}.

(** Two animations of one name, and what [FixupNames] makes of them. *)
Definition two_walks : list Animation.t :=
  [walk_animation "LINEAR" "translation"; walk_animation "STEP" "scale"].

Definition renamed_walks : list Animation.t :=
  Eval vm_compute in
    match FixupNames 2 two_walks "animation_" with
    | Some (_, animations) => animations
    | None => []
    end.

Definition two_walks_model : Model.t :=
  {| Model.accessors := []; Model.animations := renamed_walks; Model.nodes := [] |}.

(** The node [n] lies on a cycle of child links: one of its children leads
    back to it. *)
Definition on_cycle (m_model : Model.t) (n : Node.t) : Prop :=
  ∃ child child_node,
    child ∈ Node.children n
    ∧ index (Model.nodes m_model) child = Returns child_node
    ∧ below m_model child_node n.

(** The node of index 0 lists itself after a child that carries a
    matrix. *)
Definition matrix_loop_model : Model.t :=
  {| Model.accessors := []; Model.animations := [];
     Model.nodes := [plain_node "J0" [1; 0]; matrix_node] |}.

(** An accessor over a buffer without bytes: its start address is null. *)
Definition without_bytes (a : Accessor.t) : Accessor.t :=
  {| Accessor.count := Accessor.count a;
     Accessor.componentType := Accessor.componentType a;
     Accessor.type := Accessor.type a;
     Accessor.maxValues := Accessor.maxValues a;
     Accessor.payload := [];
     Accessor.data_null := true |}.

(** An animation object that was used before and whose only track holds
    keys of the three kinds. *)
Definition full_animation : RawAnimation.t :=
  {| RawAnimation.name := "run"; RawAnimation.duration := F32.one;
     RawAnimation.tracks :=
       [{| translations := [{| time := F32.zero; value := Float3_.zero |}];
           rotations := [old_key];
           scales := [{| time := F32.zero; value := Float3_.one |}] |}] |}.

(** * Properties *)

(** ** The outcome monad *)

Lemma bind_Returns {A B} (m : outcome A) (f : A → outcome B) (b : B) :
  m ≫= f = Returns b ↔ ∃ a, m = Returns a ∧ f a = Returns b.
Proof.
  destruct m as [a| |]; simpl; split.
  - eauto.
  - intros [a' [[= <-] ?]]. done.
  - done.
  - intros [a' [? ?]]. done.
  - done.
  - intros [a' [? ?]]. done.
Qed.

Lemma index_Returns {A} (l : list A) (i : Z) (a : A) :
  index l i = Returns a ↔ 0 ≤ i ∧ l !! Z.to_nat i = Some a.
Proof.
  unfold index. destruct (Z.ltb_spec i 0).
  - split; [done | lia].
  - destruct (l !! Z.to_nat i); split; try done.
    + intros [= ->]. done.
    + intros [_ [= ->]]. done.
    + intros [_ ?]. done.
Qed.

Lemma at_put_Returns {A} (l : list A) (i : Z) (a : A) :
  0 ≤ i < Z.of_nat (length l) → at_put l i a = Returns (<[Z.to_nat i := a]> l).
Proof.
  intros Hi. unfold at_put.
  destruct (Z.leb_spec 0 i); [| lia]. destruct (Z.ltb_spec i (Z.of_nat (length l))); [| lia].
  done.
Qed.

Lemma bind_ret {A B} (a : A) (f : A → outcome B) : Returns a ≫= f = f a.
Proof. done. Qed.

Lemma size_t_small (n : Z) : 0 ≤ n < 2 ^ 64 → size_t n = n.
Proof. intros Hn. unfold size_t. by apply Z.mod_small. Qed.

(** Splits a hypothesis [m ≫= f = Returns b] into its two steps. *)
Tactic Notation "bind_inv" hyp(H) :=
  let a := fresh "r" in
  let H1 := fresh H "_l" in
  apply bind_Returns in H as [a [H1 H]].

Tactic Notation "bind_inv" hyp(H) "as" ident(a) ident(H1) :=
  apply bind_Returns in H as [a [H1 H]].

(** ** Constants *)

Example eps_is_1e_6f : eps = (F32.of_Z 1 / F32.of_Z 1000000)%f32.
Proof. vm_compute. reflexivity. Qed.

Example thirty_is_30f : F32.thirty = S754_finite false 15728640 (-19).
Proof. vm_compute. reflexivity. Qed.

Example wrap_below_zero : size_t (0 * 2 - 1) = 18446744073709551615.
Proof. reflexivity. Qed.

(** ** The order of binary32 values *)

(** One case of a comparison against the keys: the comparison is false and
    the keys are not in order, or it is true and they are. *)
Ltac key_case :=
  first
    [ split; [done |];
      let Hk := fresh in intros (? & ? & [= <-] & [= <-] & Hk); simpl in Hk; lia
    | split; [done | intros (? & ? & ? & ? & ?); done]
    | split; [intros _; eexists _, _; split; [done |]; split; [done |]; simpl; lia | done] ].

(** Two finite values of one sign: by exponent, then by mantissa. *)
Ltac key_finite m1 e1 m2 e2 :=
  change (PosDef.Pos.compare_cont Eq m1 m2) with (Pos.compare m1 m2);
  destruct (Z.compare_spec e1 e2); [destruct (Pos.compare_spec m1 m2) | |];
  simpl; key_case.

Lemma ltb_key (x y : float) :
  F32.ltb x y = true ↔ ∃ a b, float_key x = Some a ∧ float_key y = Some b ∧ key_lt a b.
Proof.
  unfold F32.ltb, SFltb, key_lt.
  destruct x as [[]|[]| |[] m1 e1], y as [[]|[]| |[] m2 e2]; simpl;
    try key_case; key_finite m1 e1 m2 e2.
Qed.

Lemma leb_key (x y : float) :
  F32.leb x y = true ↔ ∃ a b, float_key x = Some a ∧ float_key y = Some b ∧ ¬ key_lt b a.
Proof.
  unfold F32.leb, SFleb, key_lt.
  destruct x as [[]|[]| |[] m1 e1], y as [[]|[]| |[] m2 e2]; simpl;
    try key_case; key_finite m1 e1 m2 e2.
Qed.

(** After [a < b], what is not above [a] is not above [b]. *)
Lemma ltb_trans_neg (a b c : float) :
  F32.ltb a b = true → F32.ltb a c = false → F32.ltb b c = false.
Proof.
  intros Hab Hac. destruct (F32.ltb b c) eqn:Hbc; [| done].
  rewrite <- Hac. symmetry. apply ltb_key.
  apply ltb_key in Hab as (ka & kb & Ha & Hb & Hab).
  apply ltb_key in Hbc as (kb' & kc & Hb' & Hc & Hbc).
  rewrite Hb in Hb'. injection Hb' as <-.
  exists ka, kc. split; [done |]. split; [done |]. unfold key_lt in *. lia.
Qed.

Lemma ltb_irrefl (a : float) : F32.ltb a a = false.
Proof.
  destruct (F32.ltb a a) eqn:H; [| done].
  apply ltb_key in H as (ka & ka' & Ha & Ha' & H).
  rewrite Ha in Ha'. injection Ha' as <-. unfold key_lt in H. lia.
Qed.

Lemma leb_zero_ltb (a b : float) :
  F32.leb F32.zero a = true → F32.ltb a b = true → F32.leb F32.zero b = true.
Proof.
  intros Ha Hab. apply leb_key.
  apply leb_key in Ha as (k0 & ka & [= <-] & Ha & H0).
  apply ltb_key in Hab as (ka' & kb & Ha' & Hb & Hab).
  rewrite Ha in Ha'. injection Ha' as <-.
  exists (0, 0, 0), kb. split; [done |]. split; [done |].
  unfold key_lt in *. simpl in *. lia.
Qed.

Section Properties.
Context `{L : Library}.
Variable m_model : Model.t.

(** ** Sampling rate *)

(** C10. A sampling rate of exactly 0 imports the animation that a sampling
    rate of 30 imports: for every document, animation name, skeleton and
    animation object the two calls give the same outcome. *)
Theorem Import_rate_zero_is_thirty (_animation_name : string) (skeleton : list string)
    (_animation : RawAnimation.t) :
  Import m_model _animation_name skeleton F32.zero _animation
  = Import m_model _animation_name skeleton F32.thirty _animation.
Proof.
  unfold Import.
  replace (F32.eqb F32.zero F32.zero) with true by (vm_compute; done).
  replace (F32.eqb F32.thirty F32.zero) with false by (vm_compute; done).
  done.
Qed.

(** ** The keyframe count of the step sampler *)

(** C8. With an output accessor of 0 elements the step sampler computes its
    keyframe count [2 * count - 1] in [size_t], where it wraps to
    [2^64 - 1]; the sampler then neither returns an empty track nor
    [false]: the resize to that count throws. *)
Theorem StepNumKeyframes_wraps_at_zero `{VT : ValueType V} (_output : Accessor.t)
    (values timestamps : list float) (_keyframes : list (Key V)) :
  Accessor.count _output = 0 →
  BufferView sizeof _output = Some values →
  StepNumKeyframes _output = 2 ^ 64 - 1
  ∧ SampleStepChannel _output timestamps _keyframes = Throws.
Proof.
  intros Hcount Hview.
  assert (Hnum : StepNumKeyframes _output = 2 ^ 64 - 1).
  { unfold StepNumKeyframes. rewrite Hcount. done. }
  split; [done |].
  unfold SampleStepChannel. rewrite Hview, Hnum.
  unfold resize. pose proof max_size_lt as Hmax.
  destruct (Z.ltb_spec max_size (2 ^ 64 - 1)); [done | lia].
Qed.

(** ** The layout of the step sampler's track *)

Section StepLayout.
Context `{VT : ValueType V}.
Variables (_output : Accessor.t) (values timestamps : list float).
Variables (n : Z) (t : Z → float) (v : Z → V).
Hypothesis Hcount : Accessor.count _output = n.
Hypothesis Hn : 1 ≤ n < 2 ^ 63.
Hypothesis Hinputs : ∀ i, 0 ≤ i < n →
  index timestamps i = Returns (t i) ∧ load values i = Returns (v i).

Lemma StepTurn_at (k : Z) (_keyframes : list (Key V)) :
  0 ≤ k < n →
  Z.of_nat (length _keyframes) = 2 * n - 1 →
  ∃ keys,
    StepTurn _output values timestamps _keyframes k = Returns keys
    ∧ length keys = length _keyframes
    ∧ (∀ j, (j < Z.to_nat (2 * k))%nat → keys !! j = _keyframes !! j)
    ∧ keys !! Z.to_nat (2 * k) = Some {| time := t k; value := v k |}
    ∧ (k < n - 1 →
       keys !! Z.to_nat (2 * k + 1)
       = Some {| time := (t (k + 1) - eps)%f32; value := v k |}).
Proof.
  intros Hk Hsize. destruct (Hinputs k) as [Ht Hv]; [lia |].
  unfold StepTurn. rewrite Ht, bind_ret. rewrite Hv, bind_ret.
  rewrite (size_t_small (k * 2)) by lia.
  rewrite at_put_Returns, bind_ret by lia.
  rewrite Hcount, (size_t_small (n - 1)) by lia.
  replace (k * 2) with (2 * k) by lia.
  destruct (Z.ltb_spec k (n - 1)) as [Hlt | Hge].
  - destruct (Hinputs (k + 1)) as [Ht' _]; [lia |]. rewrite Ht', !bind_ret.
    rewrite (size_t_small (2 * k + 1)) by lia.
    rewrite at_put_Returns by (rewrite length_insert; lia).
    eexists. split; [done |]. rewrite !length_insert. split; [done |].
    split; [| split].
    + intros j Hj. rewrite !list_lookup_insert_ne by lia. done.
    + rewrite list_lookup_insert_ne by lia. apply list_lookup_insert_eq. lia.
    + intros _. apply list_lookup_insert_eq. rewrite length_insert. lia.
  - eexists. split; [done |]. rewrite length_insert. split; [done |].
    split; [| split].
    + intros j Hj. rewrite list_lookup_insert_ne by lia. done.
    + apply list_lookup_insert_eq. lia.
    + lia.
Qed.

Lemma StepTurn_loop (len : nat) :
  ∀ (k : Z) (_keyframes : list (Key V)),
    0 ≤ k →
    k + Z.of_nat len = n →
    Z.of_nat (length _keyframes) = 2 * n - 1 →
    ∃ keys,
      foldM (StepTurn _output values timestamps) (seqZ k (Z.of_nat len)) _keyframes
      = Returns keys
      ∧ length keys = length _keyframes
      ∧ (∀ j, (j < Z.to_nat (2 * k))%nat → keys !! j = _keyframes !! j)
      ∧ (∀ i, k ≤ i < n →
           keys !! Z.to_nat (2 * i) = Some {| time := t i; value := v i |}
           ∧ (i < n - 1 →
              keys !! Z.to_nat (2 * i + 1)
              = Some {| time := (t (i + 1) - eps)%f32; value := v i |})).
Proof.
  induction len as [|len IH]; intros k _keyframes Hk Hlen Hsize.
  - exists _keyframes. split; [done |]. split; [done |]. split; [done |]. intros i Hi. lia.
  - rewrite seqZ_cons by lia. simpl foldM.
    destruct (StepTurn_at k _keyframes) as (keys1 & -> & Hlen1 & Hframe1 & Hkey & Hkey');
      [lia | done |]. simpl.
    replace (Z.pred (Z.of_nat (S len))) with (Z.of_nat len) by lia.
    destruct (IH (Z.succ k) keys1) as (keys & Hkeys & Hlen2 & Hframe2 & Hall);
      [lia | lia | lia |].
    exists keys. split; [done |]. split; [lia |]. split.
    + intros j Hj. rewrite Hframe2 by lia. by apply Hframe1.
    + intros i Hi. destruct (decide (i = k)) as [-> | Hne].
      * rewrite !Hframe2 by lia. done.
      * apply Hall. lia.
Qed.

(** X2. With [n >= 1] samples the step sampler gives [2n - 1] keyframes:
    [(t_i, v_i)] at [2i] and, up to the last sample, [(t_{i+1} - eps, v_i)]
    at [2i + 1], the subtraction being the one of binary32. *)
Lemma SampleStepChannel_layout (_keyframes : list (Key V)) :
  BufferView sizeof _output = Some values →
  2 * n - 1 ≤ max_size →
  ∃ keys,
    SampleStepChannel _output timestamps _keyframes = Returns (true, keys)
    ∧ Z.of_nat (length keys) = 2 * n - 1
    ∧ (∀ i, 0 ≤ i < n →
         keys !! Z.to_nat (2 * i) = Some {| time := t i; value := v i |}
         ∧ (i < n - 1 →
            keys !! Z.to_nat (2 * i + 1)
            = Some {| time := (t (i + 1) - eps)%f32; value := v i |})).
Proof.
  intros Hview Hmax. unfold SampleStepChannel. rewrite Hview.
  assert (Hnum : StepNumKeyframes _output = 2 * n - 1).
  { unfold StepNumKeyframes. rewrite Hcount, (size_t_small (n * 2)) by lia.
    rewrite size_t_small by lia. lia. }
  rewrite Hnum. unfold resize. destruct (Z.ltb_spec max_size (2 * n - 1)); [lia |]. simpl.
  set (resized_keys := resized _ _ _).
  assert (Hsize : Z.of_nat (length resized_keys) = 2 * n - 1).
  { unfold resized_keys, resized. rewrite length_app, length_take, length_replicate. lia. }
  destruct (StepTurn_loop (Z.to_nat n) 0 resized_keys) as (keys & Hloop & Hlen & _ & Hall);
    [lia | lia | done |].
  rewrite Z2Nat.id in Hloop by lia. rewrite Hcount, Hloop, bind_ret.
  exists keys. split; [done |]. split; [lia | done].
Qed.

End StepLayout.

(** ** The key search of the cubic spline sampler *)

(** The search leaves [currentKey] where it is as soon as the timestamp of
    that key is not above the output time. *)
Lemma seek_key_stays `{VT : ValueType V} (time : float) (numKeyframes : Z)
    (t_current : float) (suffix : list float) (currentKey : Z) :
  F32.gtb t_current time = false →
  seek_key time numKeyframes (t_current :: suffix) currentKey = Returns currentKey.
Proof. intros H. simpl. by rewrite H. Qed.

(** So an output time that is not before the first timestamp is always
    sampled on the first segment. *)
Lemma CubicSplineTurn_stays_at_first `{VT : ValueType V} (values : list float)
    (t0 : float) (_timestamps : list float) (_sampling_rate : float)
    (numKeyframes i found : Z) (u : float) (key : Key V) :
  F32.gtb t0 (F32.of_Z i / _sampling_rate)%f32 = false →
  CubicSplineTurn values (t0 :: _timestamps) _sampling_rate numKeyframes i 0
  = Returns (found, u, key) →
  found = 0.
Proof.
  intros Hle H. unfold CubicSplineTurn in H.
  change (drop (Z.to_nat 0) (t0 :: _timestamps)) with (t0 :: _timestamps) in H.
  rewrite (seek_key_stays (V := V)) in H by done. rewrite bind_ret in H.
  bind_inv H as currentTime H1. bind_inv H as nextTime H2.
  bind_inv H as p0 H3. bind_inv H as m0 H4. bind_inv H as p1 H5. bind_inv H as m1 H6.
  by injection H as <- _ _.
Qed.

(** ** Channel dispatch *)

Lemma SampleAnimationChannel_true_supported _sampler _target_path _sampling_rate
    _duration _track _duration' _track' :
  SampleAnimationChannel m_model _sampler _target_path _sampling_rate _duration _track
  = Returns (true, _duration', _track') →
  supported_interpolation (AnimationSampler.interpolation _sampler)
  ∧ supported_target_path _target_path.
Proof.
  unfold SampleAnimationChannel, supported_interpolation, supported_target_path.
  intros H. bind_inv H. bind_inv H. bind_inv H.
  destruct (BufferView 4 r) as [timestamps|]; [| done].
  bind_inv H. destruct r2 as [ok track2]. injection H as -> _ _.
  repeat match type of H_l2 with
         | context [String.eqb ?a ?b] => destruct (String.eqb_spec a b)
         end; try discriminate; subst; eauto 10.
Qed.

Lemma SampleAnimationChannel_unsupported _sampler _target_path _sampling_rate
    _duration _track input max0 _output :
  index (Model.accessors m_model) (AnimationSampler.input _sampler) = Returns input →
  index (Accessor.maxValues input) 0 = Returns max0 →
  index (Model.accessors m_model) (AnimationSampler.output _sampler) = Returns _output →
  ¬ (supported_interpolation (AnimationSampler.interpolation _sampler)
     ∧ supported_target_path _target_path) →
  ∃ _duration',
    SampleAnimationChannel m_model _sampler _target_path _sampling_rate _duration _track
    = Returns (false, _duration', _track).
Proof.
  unfold SampleAnimationChannel, supported_interpolation, supported_target_path.
  intros H1 H2 H3 Hno. rewrite H1. simpl. rewrite H2. simpl. rewrite H3. simpl.
  destruct (BufferView 4 input) as [timestamps|]; [| eauto].
  repeat match goal with
         | |- context [String.eqb ?a ?b] => destruct (String.eqb_spec a b)
         end; simpl; eauto; exfalso; apply Hno; subst; eauto 10.
Qed.

(** ** The channels of a joint *)

Lemma channels_per_joint_from channels per_joint0 per_joint joint_name :
  foldM (record_channel m_model) channels per_joint0 = Returns per_joint →
  default [] (per_joint !! joint_name)
  = default [] (per_joint0 !! joint_name) ++ List.filter (targets m_model joint_name) channels.
Proof.
  revert per_joint0. induction channels as [|channel channels IH]; intros per_joint0 H.
  - injection H as <-. by rewrite app_nil_r.
  - simpl in H. bind_inv H. rewrite (IH _ H). clear IH H.
    unfold record_channel in H_l. simpl. unfold targets at 2.
    destruct (Z.eqb_spec (AnimationChannel.target_node channel) (-1)) as [Heq|Hne].
    + injection H_l as <-. done.
    + bind_inv H_l as node Hnode. injection H_l as <-. rewrite Hnode. simpl.
      destruct (String.eqb_spec (Node.name node) joint_name) as [->|Hname].
      * rewrite lookup_insert_eq. simpl. by rewrite <- app_assoc.
      * by rewrite lookup_insert_ne.
Qed.

Lemma channels_per_joint_lookup gltf_animation per_joint joint_name :
  channels_per_joint m_model (Animation.channels gltf_animation) = Returns per_joint →
  default [] (per_joint !! joint_name) = channels_of m_model gltf_animation joint_name.
Proof.
  intros H. unfold channels_per_joint in H.
  rewrite (channels_per_joint_from _ _ _ joint_name H). by rewrite lookup_empty.
Qed.

(** ** What a successful import went through *)

Lemma sample_channels_true_supported gltf_animation rate channels d track d' track' :
  sample_channels m_model gltf_animation rate channels d track = Returns (true, d', track') →
  Forall (dispatch_supported gltf_animation) channels.
Proof.
  revert d track. induction channels as [|channel channels IH]; intros d track H.
  - constructor.
  - simpl in H. bind_inv H. bind_inv H. destruct r0 as [[ok d1] track1].
    destruct ok; simpl in H; [| done].
    constructor; [| by eapply IH].
    exists r. split; [done |]. by eapply SampleAnimationChannel_true_supported.
Qed.

Lemma import_joints_true_supported gltf_animation rate per_joint joint_names i a a' :
  import_joints m_model gltf_animation rate per_joint joint_names i a = Returns (true, a') →
  Forall (λ joint_name,
    Forall (dispatch_supported gltf_animation) (default [] (per_joint !! joint_name)))
    joint_names.
Proof.
  revert i a. induction joint_names as [|joint_name joint_names IH]; intros i a H.
  - constructor.
  - simpl in H. bind_inv H. bind_inv H. destruct r0 as [[ok d1] track1].
    destruct ok; simpl in H; [| done].
    bind_inv H.
    constructor; [by eapply sample_channels_true_supported | by eapply IH].
Qed.

Lemma Import_true_inv _animation_name skeleton _sampling_rate _animation a' :
  Import m_model _animation_name skeleton _sampling_rate _animation = Returns (true, a') →
  ∃ gltf_animation per_joint,
    List.find (λ a, String.eqb (Animation.name a) _animation_name)
      (Model.animations m_model) = Some gltf_animation
    ∧ channels_per_joint m_model (Animation.channels gltf_animation) = Returns per_joint
    ∧ import_joints m_model gltf_animation
        (if F32.eqb _sampling_rate F32.zero then F32.thirty else _sampling_rate)
        per_joint skeleton O
        {| RawAnimation.name := Animation.name gltf_animation;
           RawAnimation.duration := F32.zero;
           RawAnimation.tracks :=
             resized (length skeleton) JointTrack_empty (RawAnimation.tracks _animation) |}
      = Returns (true, a')
    ∧ Validate a' = true.
Proof.
  unfold Import. intros H.
  destruct (List.find _ (Model.animations m_model)) as [gltf_animation|]; [| done].
  bind_inv H. bind_inv H. destruct r0 as [ok a1].
  destruct ok; simpl in H; [| by injection H].
  destruct (Validate a1) eqn:Hvalid; simpl in H; [| by injection H].
  injection H as <-. eauto 10.
Qed.

Lemma Import_true_supported _animation_name skeleton _sampling_rate _animation a'
    gltf_animation :
  Import m_model _animation_name skeleton _sampling_rate _animation = Returns (true, a') →
  List.find (λ a, String.eqb (Animation.name a) _animation_name)
    (Model.animations m_model) = Some gltf_animation →
  Forall (dispatch_supported gltf_animation)
    (sampled_channels m_model gltf_animation skeleton).
Proof.
  intros H Hfind. apply Import_true_inv in H as (g & per_joint & Hg & Hper & H & _).
  rewrite Hfind in Hg. injection Hg as <-.
  apply import_joints_true_supported in H.
  unfold sampled_channels. apply Forall_bind.
  eapply Forall_impl; [exact H |]. intros joint_name Hjoint. simpl in *.
  by rewrite <- (channels_per_joint_lookup _ _ joint_name Hper).
Qed.

(** C6. A channel whose sampler names none of LINEAR, STEP, CUBICSPLINE
    (the empty string included), or whose target path is none of
    translation, rotation, scale, makes [SampleAnimationChannel] return
    [false] with the joint's track as it was; the loop over the joint's
    channels returns [false] at that channel, and no import that samples
    the channel succeeds. *)
Theorem unsupported_channel_is_hard_failure (gltf_animation : Animation.t)
    (channel : AnimationChannel.t) (rest : list AnimationChannel.t)
    (_sampler : AnimationSampler.t) (input _output : Accessor.t) (max0 : double)
    (_sampling_rate _duration : float) (_track : JointTrack) :
  index (Animation.samplers gltf_animation) (AnimationChannel.sampler channel)
  = Returns _sampler →
  index (Model.accessors m_model) (AnimationSampler.input _sampler) = Returns input →
  index (Accessor.maxValues input) 0 = Returns max0 →
  index (Model.accessors m_model) (AnimationSampler.output _sampler) = Returns _output →
  ¬ (supported_interpolation (AnimationSampler.interpolation _sampler)
     ∧ supported_target_path (AnimationChannel.target_path channel)) →
  (∃ _duration',
     SampleAnimationChannel m_model _sampler (AnimationChannel.target_path channel)
       _sampling_rate _duration _track = Returns (false, _duration', _track)
     ∧ sample_channels m_model gltf_animation _sampling_rate (channel :: rest)
         _duration _track = Returns (false, _duration', _track))
  ∧ (∀ _animation_name skeleton rate _animation a',
       List.find (λ a, String.eqb (Animation.name a) _animation_name)
         (Model.animations m_model) = Some gltf_animation →
       channel ∈ sampled_channels m_model gltf_animation skeleton →
       Import m_model _animation_name skeleton rate _animation ≠ Returns (true, a')).
Proof.
  intros Hsampler Hinput Hmax Houtput Hno. split.
  - destruct (SampleAnimationChannel_unsupported _sampler
                (AnimationChannel.target_path channel) _sampling_rate _duration _track
                input max0 _output Hinput Hmax Houtput Hno) as [d' Hd'].
    exists d'. split; [done |]. simpl. rewrite Hsampler. simpl. rewrite Hd'. done.
  - intros nm skeleton rate a a' Hfind Hin Himport.
    pose proof (Import_true_supported _ _ _ _ _ _ Himport Hfind) as Hall.
    rewrite Forall_forall in Hall. destruct (Hall _ Hin) as (s & Hs & Hsup).
    rewrite Hsampler in Hs. injection Hs as <-. by apply Hno.
Qed.

(** ** Channels without a target node *)

Lemma find_drop_unset_targets _animation_name (animations : list Animation.t) :
  List.find (λ a, String.eqb (Animation.name a) _animation_name)
    (drop_unset_targets <$> animations)
  = drop_unset_targets
    <$> List.find (λ a, String.eqb (Animation.name a) _animation_name) animations.
Proof.
  induction animations as [|a animations IH]; [done |].
  simpl. destruct (String.eqb (Animation.name a) _animation_name); [done | exact IH].
Qed.

Lemma record_channel_unset per_joint channel :
  AnimationChannel.target_node channel = -1 →
  record_channel m_model per_joint channel = Returns per_joint.
Proof. intros H. unfold record_channel. by rewrite H. Qed.

Lemma channels_per_joint_drop_unset channels per_joint :
  foldM (record_channel (without_unset_targets m_model))
    (List.filter (λ channel, negb (AnimationChannel.target_node channel =? -1)) channels)
    per_joint
  = foldM (record_channel m_model) channels per_joint.
Proof.
  revert per_joint. induction channels as [|channel channels IH]; intros per_joint; [done |].
  simpl.
  destruct (Z.eqb_spec (AnimationChannel.target_node channel) (-1)) as [Heq|Hne]; simpl.
  - rewrite IH, record_channel_unset; done.
  - change (record_channel (without_unset_targets m_model) per_joint channel)
      with (record_channel m_model per_joint channel).
    destruct (record_channel m_model per_joint channel); simpl; [apply IH | done | done].
Qed.

Lemma sample_channels_drop_unset gltf_animation rate channels d track :
  sample_channels (without_unset_targets m_model) (drop_unset_targets gltf_animation)
    rate channels d track
  = sample_channels m_model gltf_animation rate channels d track.
Proof.
  revert d track. induction channels as [|channel channels IH]; intros d track; [done |].
  simpl. destruct (index _ _) as [sampler| |]; simpl; [| done | done].
  change (SampleAnimationChannel (without_unset_targets m_model))
    with (SampleAnimationChannel m_model).
  destruct (SampleAnimationChannel _ _ _ _ _ _) as [[[ok d1] track1]| |]; simpl;
    [| done | done].
  destruct ok; simpl; [apply IH | done].
Qed.

Lemma import_joints_drop_unset gltf_animation rate per_joint joint_names i a :
  import_joints (without_unset_targets m_model) (drop_unset_targets gltf_animation)
    rate per_joint joint_names i a
  = import_joints m_model gltf_animation rate per_joint joint_names i a.
Proof.
  revert i a. induction joint_names as [|joint_name joint_names IH]; intros i a; [done |].
  simpl. destruct (index _ _) as [track| |]; simpl; [| done | done].
  rewrite sample_channels_drop_unset.
  destruct (sample_channels _ _ _ _ _ _) as [[[ok d1] track1]| |]; simpl; [| done | done].
  destruct ok; simpl; [| done].
  change (FindNodeByName (without_unset_targets m_model)) with (FindNodeByName m_model).
  destruct (pad_bind_pose _ _); simpl; [apply IH | done | done].
Qed.

(** C9. A channel whose target node is unset ([target_node = -1]) is
    skipped by the import: importing from the document gives the same
    outcome, tracks, duration and result, as importing from the document
    with all such channels removed. *)
Theorem Import_skips_unset_targets (_animation_name : string) (skeleton : list string)
    (_sampling_rate : float) (_animation : RawAnimation.t) :
  Import m_model _animation_name skeleton _sampling_rate _animation
  = Import (without_unset_targets m_model) _animation_name skeleton _sampling_rate
      _animation.
Proof.
  unfold Import. simpl. rewrite find_drop_unset_targets.
  destruct (List.find _ (Model.animations m_model)) as [gltf_animation|]; [| done].
  simpl. unfold channels_per_joint. rewrite channels_per_joint_drop_unset.
  destruct (foldM _ _ _) as [per_joint| |]; simpl; [| done | done].
  by rewrite import_joints_drop_unset.
Qed.

(** ** Bind pose padding *)

Lemma import_joints_frame gltf_animation rate per_joint joint_names i a ok a' :
  import_joints m_model gltf_animation rate per_joint joint_names i a = Returns (ok, a') →
  length (RawAnimation.tracks a') = length (RawAnimation.tracks a)
  ∧ ∀ j, (j < i)%nat → RawAnimation.tracks a' !! j = RawAnimation.tracks a !! j.
Proof.
  revert i a. induction joint_names as [|joint_name joint_names IH]; intros i a H.
  - injection H as _ <-. done.
  - simpl in H. bind_inv H as track Htrack. bind_inv H as r Hsample.
    destruct r as [[ok1 d1] track1]. destruct ok1; simpl in H.
    + bind_inv H as final Hfinal. apply IH in H as [Hlen Hframe]. simpl in *.
      rewrite length_insert in Hlen. split; [done |].
      intros j Hj. rewrite Hframe by lia. apply list_lookup_insert_ne. lia.
    + injection H as _ <-. simpl. rewrite length_insert. split; [done |].
      intros j Hj. apply list_lookup_insert_ne. lia.
Qed.

Lemma import_joints_unauthored gltf_animation rate per_joint joint_names i a a' k
    joint_name track :
  import_joints m_model gltf_animation rate per_joint joint_names i a = Returns (true, a') →
  joint_names !! k = Some joint_name →
  default [] (per_joint !! joint_name) = [] →
  RawAnimation.tracks a !! (i + k)%nat = Some track →
  ∃ final,
    pad_bind_pose (FindNodeByName m_model joint_name) track = Returns final
    ∧ RawAnimation.tracks a' !! (i + k)%nat = Some final.
Proof.
  revert i a k. induction joint_names as [|name joint_names IH]; intros i a k H Hk Hnone Ha.
  - done.
  - simpl in H. bind_inv H as track0 Htrack. bind_inv H as r Hsample.
    destruct r as [[ok1 d1] track1]. destruct ok1; simpl in H; [| done].
    bind_inv H as final Hfinal.
    destruct k as [|k].
    + injection Hk as ->. rewrite Hnone in Hsample. injection Hsample as _ <-.
      apply index_Returns in Htrack as [_ Htrack]. rewrite Nat2Z.id in Htrack.
      rewrite Nat.add_0_r in Ha |- *. rewrite Ha in Htrack. injection Htrack as <-.
      exists final. split; [done |].
      apply import_joints_frame in H as [_ Hframe]. rewrite Hframe by lia. simpl.
      apply list_lookup_insert_eq. by eapply lookup_lt_Some.
    + simpl in Hk. replace (i + S k)%nat with (S i + k)%nat in * by lia.
      eapply IH; [exact H | exact Hk | exact Hnone |].
      simpl. rewrite list_lookup_insert_ne by lia. done.
Qed.

Lemma lookup_resized_nil {A} (n i : nat) (d : A) :
  (i < n)%nat → resized n d [] !! i = Some d.
Proof.
  intros Hi. unfold resized. rewrite take_nil. simpl. rewrite Nat.sub_0_r.
  by apply lookup_replicate_2.
Qed.

Lemma CreateTranslationBindPoseKey_rest node key :
  CreateTranslationBindPoseKey node = Returns key →
  ∃ T, key = {| time := F32.zero; value := T |} ∧ rest_translation node = Returns T.
Proof.
  unfold CreateTranslationBindPoseKey, rest_translation.
  destruct (bool_decide (Node.translation node = [])); intros H.
  - injection H as <-. eauto.
  - bind_inv H as T HT. injection H as <-. eauto.
Qed.

Lemma CreateRotationBindPoseKey_rest node key :
  CreateRotationBindPoseKey node = Returns key →
  ∃ R, key = {| time := F32.zero; value := R |} ∧ rest_rotation node = Returns R.
Proof.
  unfold CreateRotationBindPoseKey, rest_rotation.
  destruct (bool_decide (Node.rotation node = [])); intros H.
  - injection H as <-. eauto.
  - bind_inv H as R HR. injection H as <-. eauto.
Qed.

Lemma CreateScaleBindPoseKey_rest node key :
  CreateScaleBindPoseKey node = Returns key →
  ∃ S, key = {| time := F32.zero; value := S |} ∧ rest_scale node = Returns S.
Proof.
  unfold CreateScaleBindPoseKey, rest_scale.
  destruct (bool_decide (Node.scale node = [])); intros H.
  - injection H as <-. eauto.
  - bind_inv H as S HS. injection H as <-. eauto.
Qed.

Lemma deref_Returns (p : option Node.t) (node : Node.t) :
  deref p = Returns node → p = Some node.
Proof. destruct p; [by intros [= ->] | done]. Qed.

Lemma pad_bind_pose_empty p track final :
  translations track = [] → rotations track = [] → scales track = [] →
  pad_bind_pose p track = Returns final →
  ∃ node T R S,
    p = Some node
    ∧ final = {| translations := [{| time := F32.zero; value := T |}];
                 rotations := [{| time := F32.zero; value := R |}];
                 scales := [{| time := F32.zero; value := S |}] |}
    ∧ rest_translation node = Returns T
    ∧ rest_rotation node = Returns R
    ∧ rest_scale node = Returns S.
Proof.
  unfold pad_bind_pose. intros -> -> ->. simpl.
  intros H. bind_inv H as ts Hts. bind_inv H as rs Hrs. bind_inv H as ss Hss.
  injection H as <-.
  bind_inv Hts as node Hnode. apply deref_Returns in Hnode as ->. simpl in Hrs, Hss.
  bind_inv Hts as tk Htk. injection Hts as <-.
  bind_inv Hrs as rk Hrk. injection Hrs as <-.
  bind_inv Hss as sk Hsk. injection Hss as <-.
  apply CreateTranslationBindPoseKey_rest in Htk as (T & -> & HT).
  apply CreateRotationBindPoseKey_rest in Hrk as (R & -> & HR).
  apply CreateScaleBindPoseKey_rest in Hsk as (S & -> & HS).
  exists node, T, R, S. done.
Qed.

(** The rest pose is the transform the skeleton import gives the joint. *)
Lemma CreateNodeTransform_rest_pose node t0 transform :
  CreateNodeTransform node t0 = Returns (true, transform) →
  rest_translation node = Returns (Transform.translation transform)
  ∧ rest_rotation node = Returns (Transform.rotation transform)
  ∧ rest_scale node = Returns (Transform.scale transform).
Proof.
  unfold CreateNodeTransform, rest_translation, rest_rotation, rest_scale.
  destruct (bool_decide (Node.matrix node = [])); simpl; [| done].
  intros H. bind_inv H as t1 H1. bind_inv H as t2 H2. bind_inv H as t3 H3.
  injection H as <-.
  destruct (bool_decide (Node.translation node = [])); simpl in *;
    [injection H1 as <- | bind_inv H1 as v1 Hv1; injection H1 as <-];
    (destruct (bool_decide (Node.rotation node = [])); simpl in *;
     [injection H2 as <- | bind_inv H2 as v2 Hv2; injection H2 as <-]);
    (destruct (bool_decide (Node.scale node = [])); simpl in *;
     [injection H3 as <- | bind_inv H3 as v3 Hv3; injection H3 as <-]);
    done.
Qed.

Lemma Float3_of_Returns (v : list double) (T : Float3) :
  Float3_of v = Returns T →
  ∃ a b c rest,
    v = a :: b :: c :: rest
    ∧ T = {| x := F32.of_double a; y := F32.of_double b; z := F32.of_double c |}.
Proof.
  unfold Float3_of. intros H.
  bind_inv H as a Ha. bind_inv H as b Hb. bind_inv H as c Hc. injection H as <-.
  apply index_Returns in Ha as [_ Ha]. apply index_Returns in Hb as [_ Hb].
  apply index_Returns in Hc as [_ Hc].
  destruct v as [|a' [|b' [|c' rest]]]; try done.
  injection Ha as ->. injection Hb as ->. injection Hc as ->. by exists a, b, c, rest.
Qed.

Lemma Quaternion_of_Returns (v : list double) (R : Quaternion) :
  Quaternion_of v = Returns R →
  ∃ a b c d rest,
    v = a :: b :: c :: d :: rest
    ∧ R = {| qx := F32.of_double a; qy := F32.of_double b;
             qz := F32.of_double c; qw := F32.of_double d |}.
Proof.
  unfold Quaternion_of. intros H.
  bind_inv H as a Ha. bind_inv H as b Hb. bind_inv H as c Hc. bind_inv H as d Hd.
  injection H as <-.
  apply index_Returns in Ha as [_ Ha]. apply index_Returns in Hb as [_ Hb].
  apply index_Returns in Hc as [_ Hc]. apply index_Returns in Hd as [_ Hd].
  destruct v as [|a' [|b' [|c' [|d' rest]]]]; try done.
  injection Ha as ->. injection Hb as ->. injection Hc as ->. injection Hd as ->.
  by exists a, b, c, d, rest.
Qed.

(** What the code reads of a node is the rest pose the document gives. *)
Lemma rest_translation_pose node T :
  rest_translation node = Returns T → T = Transform.translation (rest_pose node).
Proof.
  unfold rest_translation, rest_pose. simpl.
  destruct (Node.translation node) as [|a v] eqn:Hv; simpl; [by intros [= <-] |].
  intros H. apply Float3_of_Returns in H as (a' & b & c & rest & [= -> ->] & ->). done.
Qed.

Lemma rest_rotation_pose node R :
  rest_rotation node = Returns R → R = Transform.rotation (rest_pose node).
Proof.
  unfold rest_rotation, rest_pose. simpl.
  destruct (Node.rotation node) as [|a v] eqn:Hv; simpl; [by intros [= <-] |].
  intros H. apply Quaternion_of_Returns in H as (a' & b & c & d & rest & [= -> ->] & ->).
  done.
Qed.

Lemma rest_scale_pose node S :
  rest_scale node = Returns S → S = Transform.scale (rest_pose node).
Proof.
  unfold rest_scale, rest_pose. simpl.
  destruct (Node.scale node) as [|a v] eqn:Hv; simpl; [by intros [= <-] |].
  intros H. apply Float3_of_Returns in H as (a' & b & c & rest & [= -> ->] & ->). done.
Qed.

Lemma lookup_resized {A} (n i : nat) (d : A) (l : list A) :
  (i < n)%nat → resized n d l !! i = Some (default d (l !! i)).
Proof.
  intros Hi. unfold resized. destruct (decide (i < length l)%nat) as [Hl | Hl].
  - rewrite lookup_app_l by (rewrite length_take; lia). rewrite lookup_take_lt by lia.
    destruct (lookup_lt_is_Some_2 l i Hl) as [a ->]. done.
  - rewrite lookup_app_r by (rewrite length_take; lia). rewrite length_take.
    rewrite (lookup_ge_None_2 l i) by lia. simpl.
    apply lookup_replicate_2. lia.
Qed.

(** C4. After a successful import, a joint none of whose channels is
    authored in the animation, and whose track in the animation object
    handed to the import holds no key, has in each of its three tracks
    exactly one keyframe, at time 0, whose value is that property of the
    rest pose of the node of that name: the numbers of the node, else zero
    translation, identity rotation, unit scale. *)
Theorem unauthored_joint_gets_rest_pose (_animation_name : string)
    (skeleton : list string) (_sampling_rate : float) (_animation a' : RawAnimation.t)
    (gltf_animation : Animation.t) (i : nat) (joint_name : string) :
  Import m_model _animation_name skeleton _sampling_rate _animation = Returns (true, a') →
  (∀ track, RawAnimation.tracks _animation !! i = Some track → no_keys track) →
  List.find (λ a, String.eqb (Animation.name a) _animation_name)
    (Model.animations m_model) = Some gltf_animation →
  skeleton !! i = Some joint_name →
  channels_of m_model gltf_animation joint_name = [] →
  ∃ node,
    FindNodeByName m_model joint_name = Some node
    ∧ RawAnimation.tracks a' !! i
      = Some {| translations :=
                  [{| time := F32.zero; value := Transform.translation (rest_pose node) |}];
                rotations :=
                  [{| time := F32.zero; value := Transform.rotation (rest_pose node) |}];
                scales :=
                  [{| time := F32.zero; value := Transform.scale (rest_pose node) |}] |}.
Proof.
  intros H Hfresh Hfind Hi Hnone.
  apply Import_true_inv in H as (g & per_joint & Hg & Hper & H & _).
  rewrite Hfind in Hg. injection Hg as <-.
  rewrite <- (channels_per_joint_lookup _ _ joint_name Hper) in Hnone.
  set (track := default JointTrack_empty (RawAnimation.tracks _animation !! i)).
  assert (Hempty : no_keys track).
  { unfold track. destruct (RawAnimation.tracks _animation !! i) as [t|] eqn:Ht; [| done].
    by apply Hfresh. }
  destruct (import_joints_unauthored _ _ _ _ _ _ _ i joint_name track
              H Hi Hnone) as (final & Hpad & Hfinal).
  { simpl. apply lookup_resized. by eapply lookup_lt_Some. }
  destruct Hempty as (HT0 & HR0 & HS0).
  apply pad_bind_pose_empty in Hpad as (node & T & R & S & Hnode & -> & HT & HR & HS);
    [| done ..].
  apply rest_translation_pose in HT as ->. apply rest_rotation_pose in HR as ->.
  apply rest_scale_pose in HS as ->.
  exists node. done.
Qed.

(** ** Duration *)

Lemma SampleAnimationChannel_duration gltf_animation channel sampler rate d track ok d'
    track' :
  index (Animation.samplers gltf_animation) (AnimationChannel.sampler channel)
  = Returns sampler →
  SampleAnimationChannel m_model sampler (AnimationChannel.target_path channel) rate d track
  = Returns (ok, d', track') →
  ∃ x, declared_duration m_model gltf_animation channel = Returns x ∧ d' = raise d x.
Proof.
  intros Hsampler H. unfold declared_duration. rewrite Hsampler. simpl.
  unfold SampleAnimationChannel in H.
  bind_inv H as input Hinput. bind_inv H as max0 Hmax. bind_inv H as output Houtput.
  rewrite Hinput. simpl. rewrite Hmax. simpl.
  exists (F32.of_double max0). split; [done |].
  destruct (BufferView 4 input); [| by injection H].
  bind_inv H as r Hr. destruct r. by injection H.
Qed.

Lemma sample_channels_duration gltf_animation rate channels d track d' track' :
  sample_channels m_model gltf_animation rate channels d track = Returns (true, d', track') →
  ∃ ds, Forall2 (λ channel x, declared_duration m_model gltf_animation channel = Returns x)
          channels ds
        ∧ d' = foldl raise d ds.
Proof.
  revert d track. induction channels as [|channel channels IH]; intros d track H.
  - injection H as <- _. exists []. split; [constructor | done].
  - simpl in H. bind_inv H as sampler Hsampler. bind_inv H as r Hr.
    destruct r as [[ok d1] track1]. destruct ok; simpl in H; [| done].
    destruct (SampleAnimationChannel_duration _ _ _ _ _ _ _ _ _ Hsampler Hr)
      as (x & Hx & ->).
    apply IH in H as (ds & Hds & ->).
    exists (x :: ds). split; [by constructor | done].
Qed.

Lemma import_joints_duration gltf_animation rate per_joint joint_names i a a' :
  import_joints m_model gltf_animation rate per_joint joint_names i a = Returns (true, a') →
  ∃ ds, Forall2 (λ channel x, declared_duration m_model gltf_animation channel = Returns x)
          (joint_names ≫= λ joint_name, default [] (per_joint !! joint_name)) ds
        ∧ RawAnimation.duration a' = foldl raise (RawAnimation.duration a) ds.
Proof.
  revert i a. induction joint_names as [|joint_name joint_names IH]; intros i a H.
  - injection H as <-. exists []. split; [constructor | done].
  - simpl in H. bind_inv H as track Htrack. bind_inv H as r Hr.
    destruct r as [[ok d1] track1]. destruct ok; simpl in H; [| done].
    bind_inv H as final Hfinal.
    apply sample_channels_duration in Hr as (ds1 & Hds1 & ->).
    apply IH in H as (ds2 & Hds2 & ->). simpl.
    exists (ds1 ++ ds2). split; [by apply Forall2_app | by rewrite foldl_app].
Qed.

(** What the accumulator holds after the durations [ds]. *)
Lemma foldl_raise_max (ds seen : list float) (d : float) :
  (∀ x, x ∈ seen → F32.ltb d x = false) →
  d = F32.zero ∨ d ∈ seen →
  F32.leb F32.zero d = true →
  let d' := foldl raise d ds in
  (∀ x, x ∈ seen ++ ds → F32.ltb d' x = false)
  ∧ (d' = F32.zero ∨ d' ∈ seen ++ ds)
  ∧ F32.leb F32.zero d' = true.
Proof.
  revert seen d. induction ds as [|x ds IH]; intros seen d Hmax Hin Hpos; simpl.
  - rewrite app_nil_r. done.
  - replace (seen ++ x :: ds) with ((seen ++ [x]) ++ ds) by (by rewrite <- app_assoc).
    apply IH; unfold raise, F32.gtb.
    + intros y Hy. destruct (SFltb d x) eqn:Hdx.
      * apply elem_of_app in Hy as [Hy | Hy%list_elem_of_singleton].
        -- eapply ltb_trans_neg; [exact Hdx | by apply Hmax].
        -- subst y. apply ltb_irrefl.
      * apply elem_of_app in Hy as [Hy | Hy%list_elem_of_singleton].
        -- by apply Hmax.
        -- by subst y.
    + destruct (SFltb d x) eqn:Hdx.
      * right. apply elem_of_app. right. by apply list_elem_of_singleton.
      * destruct Hin as [-> | Hin]; [by left |]. right. apply elem_of_app. by left.
    + destruct (SFltb d x) eqn:Hdx; [| done]. by eapply leb_zero_ltb.
Qed.

(** C5, as the code has it. After a successful import the duration of the
    animation is the accumulator started at 0 and raised by the declared
    maximum of every sampled channel: it is below none of them, it is 0
    or one of them, it is 0 when no channel is sampled, and it is never
    negative. *)
Theorem Import_duration_is_raised_maximum (_animation_name : string)
    (skeleton : list string) (_sampling_rate : float) (_animation a' : RawAnimation.t)
    (gltf_animation : Animation.t) :
  Import m_model _animation_name skeleton _sampling_rate _animation = Returns (true, a') →
  List.find (λ a, String.eqb (Animation.name a) _animation_name)
    (Model.animations m_model) = Some gltf_animation →
  ∃ ds,
    Forall2 (λ channel x, declared_duration m_model gltf_animation channel = Returns x)
      (sampled_channels m_model gltf_animation skeleton) ds
    ∧ RawAnimation.duration a' = foldl raise F32.zero ds
    ∧ (∀ x, x ∈ ds → F32.ltb (RawAnimation.duration a') x = false)
    ∧ (RawAnimation.duration a' = F32.zero ∨ RawAnimation.duration a' ∈ ds)
    ∧ (sampled_channels m_model gltf_animation skeleton = [] →
       RawAnimation.duration a' = F32.zero)
    ∧ F32.leb F32.zero (RawAnimation.duration a') = true.
Proof.
  intros H Hfind.
  apply Import_true_inv in H as (g & per_joint & Hg & Hper & H & _).
  rewrite Hfind in Hg. injection Hg as <-.
  apply import_joints_duration in H as (ds & Hds & Hd). simpl in Hd.
  assert (Hsame : skeleton ≫= (λ joint_name, default [] (per_joint !! joint_name))
                  = sampled_channels m_model gltf_animation skeleton).
  { unfold sampled_channels. clear Hds. induction skeleton as [|joint_name names IH];
      [done |]. rewrite !bind_cons, IH.
    by rewrite (channels_per_joint_lookup _ _ joint_name Hper). }
  rewrite Hsame in Hds.
  destruct (foldl_raise_max ds [] F32.zero) as (Hmax & Hin & Hpos).
  { intros x Hx. by apply elem_of_nil in Hx. }
  { by left. }
  { done. }
  simpl in Hmax, Hin. rewrite <- Hd in Hmax, Hin, Hpos.
  exists ds. repeat split; try done.
  intros Hnone. rewrite Hnone in Hds. apply Forall2_nil_inv_l in Hds. by subst ds.
Qed.

(** ** Skin roots *)

Lemma lookup_insert_children (children : list Z) (node : Z) (parents : gmap Z Z) (c : Z) :
  foldl (λ parents child, <[child := node]> parents) parents children !! c
  = if bool_decide (c ∈ children) then Some node else parents !! c.
Proof.
  revert parents. induction children as [|child children IH]; intros parents; simpl.
  - done.
  - rewrite IH. destruct (decide (c = child)) as [->|Hne].
    + rewrite lookup_insert_eq. rewrite (bool_decide_eq_true_2 (child ∈ child :: children));
        [| by left]. by destruct (bool_decide (child ∈ children)).
    + rewrite lookup_insert_ne by done.
      destruct (decide (c ∈ children)) as [Hin|Hout].
      * rewrite !bool_decide_eq_true_2; [done | by right | done].
      * rewrite !bool_decide_eq_false_2; [done | | done].
        intros [?|?]%elem_of_cons; done.
Qed.

Lemma skin_parents_from (joints : list Z) (parents0 parents : gmap Z Z) :
  foldM (record_children m_model) joints parents0 = Returns parents →
  ∀ c,
    (∀ p, parents !! c = Some p →
          parents0 !! c = Some p ∨ (p ∈ joints ∧ is_child m_model p c = true))
    ∧ (is_Some (parents0 !! c) ∨ (∃ p, p ∈ joints ∧ is_child m_model p c = true) →
       is_Some (parents !! c)).
Proof.
  revert parents0. induction joints as [|node joints IH]; intros parents0 H c.
  - injection H as <-. split; [by left |].
    intros [? | (p & Hp & _)]; [done | by apply elem_of_nil in Hp].
  - simpl in H. bind_inv H as parents1 H1. bind_inv H1 as n Hn. injection H1 as <-.
    destruct (IH _ H c) as [Hsome Hdom]. clear IH H.
    assert (Hchild : is_child m_model node c = bool_decide (c ∈ Node.children n)).
    { unfold is_child. by rewrite Hn. }
    split.
    + intros p Hp. apply Hsome in Hp as [Hp | [Hp Hc]].
      * rewrite lookup_insert_children in Hp.
        destruct (bool_decide (c ∈ Node.children n)) eqn:Hc.
        -- injection Hp as <-. right. split; [by left | by rewrite Hchild].
        -- by left.
      * right. split; [by right | done].
    + intros Hpre. apply Hdom. rewrite lookup_insert_children.
      destruct (bool_decide (c ∈ Node.children n)) eqn:Hc; [by left |].
      destruct Hpre as [? | (p & Hp & Hpc)]; [by left |].
      apply elem_of_cons in Hp as [-> | Hp].
      * rewrite Hchild in Hpc. congruence.
      * right. eauto.
Qed.

Lemma skin_parents_Returns (joints : list Z) :
  (∀ j, j ∈ joints → ∃ n, index (Model.nodes m_model) j = Returns n) →
  ∃ parents, skin_parents m_model joints = Returns parents.
Proof.
  unfold skin_parents. generalize (∅ : gmap Z Z).
  induction joints as [|node joints IH]; intros parents0 Hrange; simpl.
  - eauto.
  - destruct (Hrange node) as [n Hn]; [by left |].
    replace (record_children m_model parents0 node)
      with (Returns (foldl (λ parents child, <[child := node]> parents) parents0
                       (Node.children n)))
      by (unfold record_children; by rewrite Hn).
    simpl.
    apply IH. intros j Hj. apply Hrange. by right.
Qed.

Section SkinTree.
Variables (joints : list Z) (root : Z).
Hypothesis Htree : skin_tree m_model joints root = true.

Lemma skin_tree_root : root ∈ joints.
Proof.
  unfold skin_tree in Htree. rewrite !andb_true_iff in Htree.
  destruct Htree as [[[H _] _] _]. by apply bool_decide_eq_true_1 in H.
Qed.

Lemma skin_tree_node j :
  j ∈ joints → ∃ n, index (Model.nodes m_model) j = Returns n.
Proof.
  intros Hj%list_elem_of_In. unfold skin_tree in Htree. rewrite !andb_true_iff in Htree.
  destruct Htree as [[[_ H] _] _]. rewrite forallb_forall in H.
  apply H in Hj. apply andb_true_iff in Hj as [Hj _].
  destruct (index (Model.nodes m_model) j); [eauto | done | done].
Qed.

Lemma skin_tree_parentless p : p ∈ joints → is_child m_model p root = false.
Proof.
  intros Hp%list_elem_of_In. unfold skin_tree in Htree. rewrite !andb_true_iff in Htree.
  destruct Htree as [[[_ H] _] _]. rewrite forallb_forall in H.
  apply H in Hp. apply andb_true_iff in Hp as [_ Hp]. by apply negb_true_iff in Hp.
Qed.

Lemma skin_tree_one_parent c p q :
  c ∈ joints → p ∈ joints → q ∈ joints →
  is_child m_model p c = true → is_child m_model q c = true → p = q.
Proof.
  intros Hc%list_elem_of_In Hp%list_elem_of_In Hq%list_elem_of_In Hpc Hqc.
  unfold skin_tree in Htree. rewrite !andb_true_iff in Htree.
  destruct Htree as [[_ H] _]. rewrite forallb_forall in H.
  apply H in Hc. rewrite forallb_forall in Hc. apply Hc in Hp.
  rewrite forallb_forall in Hp. apply Hp in Hq. rewrite Hpc, Hqc in Hq. simpl in Hq.
  by apply Z.eqb_eq.
Qed.

Lemma skin_tree_descends j :
  j ∈ joints → descends m_model joints root (length joints) j = true.
Proof.
  intros Hj%list_elem_of_In. unfold skin_tree in Htree. rewrite !andb_true_iff in Htree.
  destruct Htree as [_ H]. rewrite forallb_forall in H. by apply H.
Qed.

(** Exactly one joint is parentless: the root. *)
Lemma skin_tree_parentless_is_root j :
  j ∈ joints →
  (∀ p, p ∈ joints → is_child m_model p j = false) ↔ j = root.
Proof.
  intros Hj. split.
  - intros Hnone. pose proof (skin_tree_descends j Hj) as Hd.
    destruct (length joints) as [|depth]; simpl in Hd.
    + rewrite orb_false_r in Hd. by apply Z.eqb_eq.
    + apply orb_true_iff in Hd as [Hd | Hd]; [by apply Z.eqb_eq |].
      apply existsb_exists in Hd as (p & Hp%list_elem_of_In & Hpj).
      apply andb_true_iff in Hpj as [Hpj _]. rewrite (Hnone p Hp) in Hpj. done.
  - intros -> p Hp. by apply skin_tree_parentless.
Qed.

(** Climbing from a joint reaches the root, whatever the order in which the
    joints [joints'] of the skin are listed. *)
Lemma climb_reaches_root (joints' : list Z) (parents : gmap Z Z) :
  joints' ≡ₚ joints →
  skin_parents m_model joints' = Returns parents →
  ∀ depth j fuel,
    j ∈ joints →
    descends m_model joints root depth j = true →
    (depth < fuel)%nat →
    climb fuel parents j = Some root.
Proof.
  intros Hperm Hparents.
  pose proof (skin_parents_from joints' ∅ parents Hparents) as Hmap.
  assert (Hin : ∀ c p, parents !! c = Some p → p ∈ joints ∧ is_child m_model p c = true).
  { intros c p Hp. destruct (Hmap c) as [Hsome _].
    apply Hsome in Hp as [Hp | [Hp Hc]]; [by rewrite lookup_empty in Hp |].
    split; [by rewrite <- Hperm | done]. }
  assert (Hroot : ∀ fuel, climb (S fuel) parents root = Some root).
  { intros fuel. simpl. destruct (parents !! root) as [p|] eqn:Hp; [| done].
    apply Hin in Hp as [Hp Hc]. by rewrite skin_tree_parentless in Hc. }
  induction depth as [|depth IH]; intros j fuel Hj Hd Hfuel;
    (destruct fuel as [|fuel]; [lia |]); simpl in Hd.
  - rewrite orb_false_r in Hd. apply Z.eqb_eq in Hd as ->. apply Hroot.
  - apply orb_true_iff in Hd as [Hd | Hd]; [apply Z.eqb_eq in Hd as ->; apply Hroot |].
    apply existsb_exists in Hd as (p & Hp%list_elem_of_In & Hpj).
    apply andb_true_iff in Hpj as [Hpj Hpd].
    simpl. destruct (parents !! j) as [p'|] eqn:Hp'.
    + destruct (Hin _ _ Hp') as [Hp'in Hp'j].
      rewrite (skin_tree_one_parent j p' p Hj Hp'in Hp Hp'j Hpj).
      apply IH; [done | done | lia].
    + destruct (Hmap j) as [_ Hdom]. destruct Hdom as [p' Hsome]; [| congruence].
      right. exists p. split; [by rewrite Hperm | done].
Qed.

End SkinTree.

(** C7. For a skin without a declared root whose joints form one tree with
    one parentless joint, the root search returns that joint, in whatever
    order the joints of the skin are listed: with fuel above the number of
    joints the climb ends, and it ends at the parentless joint. *)
Theorem FindSkinRootJointIndex_order_invariant (skin : Skin.t) (root : Z)
    (joints' : list Z) :
  Skin.skeleton skin = -1 →
  skin_tree m_model (Skin.joints skin) root = true →
  joints' ≡ₚ Skin.joints skin →
  ∀ fuel, (length (Skin.joints skin) < fuel)%nat →
    FindSkinRootJointIndex m_model fuel
      {| Skin.joints := joints'; Skin.skeleton := Skin.skeleton skin |}
    = Some (Returns root).
Proof.
  intros Hskeleton Htree Hperm fuel Hfuel.
  unfold FindSkinRootJointIndex. simpl. rewrite Hskeleton. simpl.
  pose proof (skin_tree_root _ _ Htree) as Hroot.
  destruct joints' as [|j0 joints'].
  { apply Permutation_nil_l in Hperm. rewrite <- Hperm in Hroot.
    by apply elem_of_nil in Hroot. }
  rewrite bool_decide_eq_false_2 by done.
  destruct (skin_parents_Returns (j0 :: joints')) as [parents Hparents].
  { intros j Hj. apply (skin_tree_node _ _ Htree). by rewrite <- Hperm. }
  rewrite Hparents. change (index (j0 :: joints') 0) with (Returns j0).
  assert (Hj0 : j0 ∈ Skin.joints skin) by (rewrite <- Hperm; by left).
  cbv iota beta.
  rewrite (climb_reaches_root _ _ Htree _ _ Hperm Hparents
             (length (Skin.joints skin)) j0 fuel Hj0
             (skin_tree_descends _ _ Htree j0 Hj0) Hfuel).
  done.
Qed.

(** ** Termination of the joint import *)

(** On a node graph in which every path of child links from the node ends,
    [ImportNode] terminates: with fuel from the length of the longest path
    on, it returns. *)
Lemma ImportNode_returns (depth : nat) (_node : Node.t) :
  paths_end_within m_model depth _node = true →
  ∀ fuel _joint, (depth ≤ fuel)%nat →
    ∃ result, ImportNode m_model fuel _node _joint = Some result.
Proof.
  revert _node. induction depth as [|depth IH]; intros _node Hpaths fuel _joint Hfuel;
    [done |].
  destruct fuel as [|fuel]; [lia |]. simpl in Hpaths |- *.
  destruct (CreateNodeTransform _node (Joint_transform _joint)) as [[[] transform]| |];
    eauto.
  rewrite forallb_forall in Hpaths.
  generalize (resized (length (Node.children _node)) Joint_default
                (Joint_children _joint)).
  generalize O.
  revert Hpaths. generalize (Node.children _node) as todo.
  induction todo as [|child todo IHtodo]; intros Hpaths i children; [eauto |].
  destruct (index (Model.nodes m_model) child) as [child_node| |] eqn:Hchild; eauto.
  destruct (children !! i) as [child_joint|]; eauto.
  destruct (IH child_node) with (fuel := fuel) (_joint := child_joint) as [result ->].
  { specialize (Hpaths child (or_introl eq_refl)). by rewrite Hchild in Hpaths. }
  { lia. }
  destruct result as [[[] child_joint']| |]; eauto.
  apply IHtodo. intros c Hc. apply Hpaths. by right.
Qed.

End Properties.

(** * Further properties of the importer *)

Section MoreProperties.
Context `{L : Library}.
Variable m_model : Model.t.

(** ** The linear sampler *)

Section LinearLayout.
Context `{VT : ValueType V}.
Variables (_output : Accessor.t) (values timestamps : list float).
Variables (n : Z) (t : Z → float) (v : Z → V).
Hypothesis Hcount : Accessor.count _output = n.
Hypothesis Hn : 0 ≤ n ≤ max_size.
Hypothesis Hview : BufferView sizeof _output = Some values.
Hypothesis Hinputs : ∀ i, 0 ≤ i < n →
  index timestamps i = Returns (t i) ∧ load values i = Returns (v i).

Lemma linear_loop (len : nat) :
  ∀ (k : Z) (_keyframes : list (Key V)),
    0 ≤ k →
    k + Z.of_nat len = n →
    Z.of_nat (length _keyframes) = n →
    ∃ keys,
      foldM (λ _keyframes i,
          t ← index timestamps i;
          v ← load values i;
          at_put _keyframes i {| time := t; value := v |})
        (seqZ k (Z.of_nat len)) _keyframes
      = Returns keys
      ∧ length keys = length _keyframes
      ∧ (∀ j, (j < Z.to_nat k)%nat → keys !! j = _keyframes !! j)
      ∧ (∀ i, k ≤ i < n → keys !! Z.to_nat i = Some {| time := t i; value := v i |}).
Proof.
  induction len as [|len IH]; intros k _keyframes Hk Hlen Hsize.
  - exists _keyframes. split; [done |]. split; [done |]. split; [done |]. intros i Hi. lia.
  - rewrite seqZ_cons by lia. simpl foldM.
    destruct (Hinputs k) as [Ht Hv]; [lia |].
    rewrite Ht, bind_ret, Hv, bind_ret, at_put_Returns, bind_ret by lia.
    replace (Z.pred (Z.of_nat (S len))) with (Z.of_nat len) by lia.
    destruct (IH (Z.succ k) (<[Z.to_nat k := {| time := t k; value := v k |}]> _keyframes))
      as (keys & Hkeys & Hlen2 & Hframe & Hall); [lia | lia | rewrite length_insert; lia |].
    exists keys. split; [done |]. rewrite length_insert in Hlen2. split; [done |]. split.
    + intros j Hj. rewrite Hframe by lia. apply list_lookup_insert_ne. lia.
    + intros i Hi. destruct (decide (i = k)) as [-> | Hne]; [| apply Hall; lia].
      rewrite Hframe by lia. apply list_lookup_insert_eq. lia.
Qed.

(** X1. The linear sampler copies: with [n] samples it returns exactly the
    keys [(t_0, v_0), ..., (t_{n-1}, v_{n-1})], whatever the track held
    before; with no sample it returns the empty track. *)
Theorem SampleLinearChannel_copies (_keyframes : list (Key V)) :
  SampleLinearChannel _output timestamps _keyframes
  = Returns (true, (λ i, {| time := t i; value := v i |}) <$> seqZ 0 n).
Proof.
  unfold SampleLinearChannel. rewrite Hview, Hcount. unfold resize.
  destruct (Z.ltb_spec max_size n); [lia |]. rewrite bind_ret.
  set (resized_keys := resized _ _ _).
  assert (Hsize : Z.of_nat (length resized_keys) = n).
  { unfold resized_keys, resized. rewrite length_app, length_take, length_replicate. lia. }
  destruct (linear_loop (Z.to_nat n) 0 resized_keys) as (keys & Hloop & Hlen & _ & Hall);
    [lia | lia | done |].
  rewrite Z2Nat.id in Hloop by lia. rewrite Hloop, bind_ret. do 2 f_equal.
  apply list_eq. intros j. rewrite list_lookup_fmap.
  destruct (decide (j < Z.to_nat n)%nat) as [Hj | Hj].
  - rewrite lookup_seqZ_lt by lia. specialize (Hall (Z.of_nat j) ltac:(lia)).
    rewrite Nat2Z.id in Hall. rewrite Hall. simpl. do 3 f_equal; lia.
  - rewrite lookup_seqZ_ge by lia. simpl. apply lookup_ge_None. lia.
Qed.

End LinearLayout.

(** ** The cubic spline sampler *)

(** X3. The key search of the cubic spline sampler, for [numKeyframes >= 1]
    keys: it only moves forward, it passes exactly the keys whose timestamp
    is above the output time while they are not the last key, and it stops
    at the first key whose timestamp is not above the time or at key
    [numKeyframes - 1]. *)
Theorem seek_key_spec (time : float) (numKeyframes : Z) (suffix : list float)
    (currentKey found : Z) :
  0 ≤ currentKey →
  1 ≤ numKeyframes ≤ 2 ^ 64 →
  seek_key time numKeyframes suffix currentKey = Returns found →
  currentKey ≤ found
  ∧ (∀ j t_j, (j < Z.to_nat (found - currentKey))%nat → suffix !! j = Some t_j →
       F32.gtb t_j time = true ∧ currentKey + Z.of_nat j < numKeyframes - 1)
  ∧ ∃ t_found,
      suffix !! Z.to_nat (found - currentKey) = Some t_found
      ∧ (F32.gtb t_found time = false ∨ numKeyframes - 1 ≤ found).
Proof.
  intros Hk Hn. revert currentKey Hk.
  induction suffix as [|t_current suffix IH]; intros currentKey Hk H; [done |].
  simpl in H. rewrite (size_t_small (numKeyframes - 1)) in H by lia.
  destruct (F32.gtb t_current time) eqn:Hgt; simpl in H.
  - destruct (Z.ltb_spec currentKey (numKeyframes - 1)) as [Hlt | Hge].
    + rewrite size_t_small in H by lia.
      apply IH in H as (Hle & Hpassed & t_found & Hfound & Hstop); [| lia].
      replace (Z.to_nat (found - currentKey)) with (S (Z.to_nat (found - (currentKey + 1))))
        by lia.
      split; [lia |]. split.
      * intros [|j] t_j Hj Ht_j.
        -- injection Ht_j as <-. split; [done | lia].
        -- simpl in Ht_j. destruct (Hpassed j t_j) as [? ?]; [lia | done |].
           split; [done | lia].
      * exists t_found. done.
    + injection H as <-. rewrite Z.sub_diag. split; [lia |]. split.
      * intros j t_j Hj. simpl in Hj. lia.
      * exists t_current. split; [done |]. right. lia.
  - injection H as <-. rewrite Z.sub_diag. split; [lia |]. split.
    + intros j t_j Hj. simpl in Hj. lia.
    + exists t_current. split; [done |]. by left.
Qed.

Lemma at_put_inv {A} (l l' : list A) (i : Z) (a : A) :
  at_put l i a = Returns l' →
  0 ≤ i < Z.of_nat (length l) ∧ l' = <[Z.to_nat i := a]> l.
Proof.
  unfold at_put. destruct (Z.leb_spec 0 i); [| done].
  destruct (Z.ltb_spec i (Z.of_nat (length l))); [| done].
  intros [= <-]. split; [lia | done].
Qed.

Section CubicLayout.
Context `{VT : ValueType V}.

Lemma CubicSplineTurn_time (values _timestamps : list float) (_sampling_rate : float)
    (numKeyframes i currentKey found : Z) (u : float) (key : Key V) :
  CubicSplineTurn values _timestamps _sampling_rate numKeyframes i currentKey
  = Returns (found, u, key) →
  time key = (F32.of_Z i / _sampling_rate)%f32.
Proof.
  unfold CubicSplineTurn. intros H.
  bind_inv H as k Hk. bind_inv H as currentTime H1. bind_inv H as nextTime H2.
  bind_inv H as p0 H3. bind_inv H as m0 H4. bind_inv H as p1 H5. bind_inv H as m1 H6.
  by injection H as _ _ <-.
Qed.

Lemma cubic_loop (values _timestamps : list float) (_sampling_rate : float)
    (numKeyframes : Z) (len : nat) :
  ∀ (k currentKey found : Z) (_keyframes keys : list (Key V)),
    0 ≤ k →
    foldM (λ '(currentKey, _keyframes) i,
        '(currentKey, _, key) ← CubicSplineTurn values _timestamps _sampling_rate
                                  numKeyframes i currentKey;
        _keyframes ← at_put _keyframes i key;
        Returns (currentKey, _keyframes))
      (seqZ k (Z.of_nat len)) (currentKey, _keyframes)
    = Returns (found, keys) →
    length keys = length _keyframes
    ∧ (∀ j, (j < Z.to_nat k)%nat → keys !! j = _keyframes !! j)
    ∧ (∀ i, k ≤ i < k + Z.of_nat len →
         ∃ key, keys !! Z.to_nat i = Some key
                ∧ time key = (F32.of_Z i / _sampling_rate)%f32).
Proof.
  induction len as [|len IH]; intros k currentKey found _keyframes keys Hk H.
  - injection H as _ <-. split; [done |]. split; [done |]. intros i Hi. lia.
  - rewrite seqZ_cons in H by lia. simpl foldM in H.
    replace (Z.pred (Z.of_nat (S len))) with (Z.of_nat len) in H by lia.
    bind_inv H as state Hstate. destruct state as [currentKey1 keys1].
    bind_inv Hstate as turn Hturn. destruct turn as [[currentKey2 u] key].
    bind_inv Hstate as keys2 Hput. injection Hstate as <- <-.
    apply at_put_inv in Hput as [Hrange ->].
    apply CubicSplineTurn_time in Hturn.
    apply IH in H as (Hlen & Hframe & Hall); [| lia].
    rewrite length_insert in Hlen. split; [done |]. split.
    + intros j Hj. rewrite Hframe by lia. apply list_lookup_insert_ne. lia.
    + intros i Hi. destruct (decide (i = k)) as [-> | Hne]; [| apply Hall; lia].
      exists key. split; [| done]. rewrite Hframe by lia.
      apply list_lookup_insert_eq. lia.
Qed.

(** X4. Where the cubic spline sampler returns on a matching buffer view,
    it returns [true] with [floor(duration * rate) + 1] keyframes, the
    product taken in binary32, its floor and the sum in binary64, and the
    keyframe at position [i] has the time [i / rate]. *)
Theorem SampleCubicSplineChannel_layout (_output : Accessor.t) (values : list float)
    (_timestamps : list float) (_keyframes keys : list (Key V))
    (_sampling_rate duration : float) (ok : bool) :
  BufferView sizeof _output = Some values →
  SampleCubicSplineChannel _output _timestamps _keyframes _sampling_rate duration
  = Returns (ok, keys) →
  ok = true
  ∧ F64.to_size_t
      (F64.add (F64.floor (F64.of_float (duration * _sampling_rate)%f32)) F64.one)
    = Some (Z.of_nat (length keys))
  ∧ ∀ i key, keys !! i = Some key →
      time key = (F32.of_Z (Z.of_nat i) / _sampling_rate)%f32.
Proof.
  intros Hview H. unfold SampleCubicSplineChannel in H. rewrite Hview in H.
  destruct (F64.to_size_t _) as [n|] eqn:Hn; [| done].
  assert (Hn0 : 0 ≤ n).
  { unfold F64.to_size_t, F32.to_size_t in Hn. destruct (F64.add _ _); try done.
    - by injection Hn as <-.
    - destruct (_ && _) eqn:Hrange; [| done]. injection Hn as <-.
      apply andb_true_iff in Hrange as [Hrange _]. by apply Z.leb_le. }
  bind_inv H as resized_keys Hresize. unfold resize in Hresize.
  destruct (max_size <? n); [done |]. injection Hresize as <-.
  bind_inv H as state Hloop. destruct state as [found keys']. injection H as <- <-.
  apply cubic_loop in Hloop as (Hlen & _ & Hall); [| lia].
  assert (Hsize : length (resized (Z.to_nat n) (Build_Key V F32.zero value_init) _keyframes)
                  = Z.to_nat n).
  { unfold resized. rewrite length_app, length_take, length_replicate. lia. }
  rewrite Hsize in Hlen, Hall. split; [done |]. split.
  - rewrite Hlen. by rewrite Z2Nat.id.
  - intros i key Hkey. pose proof (lookup_lt_Some _ _ _ Hkey) as Hi.
    destruct (Hall (Z.of_nat i)) as (key' & Hkey' & Htime); [lia |].
    rewrite Nat2Z.id, Hkey in Hkey'. by injection Hkey' as <-.
Qed.

End CubicLayout.

(** ** Channel dispatch *)

(** X5. A channel changes the keys of its own property only: what
    [SampleAnimationChannel] returns, with [true] or [false], leaves the
    two other key vectors of the joint's track as they were. *)
Theorem SampleAnimationChannel_frame (_sampler : AnimationSampler.t)
    (_target_path : string) (_sampling_rate _duration _duration' : float)
    (_track _track' : JointTrack) (ok : bool) :
  SampleAnimationChannel m_model _sampler _target_path _sampling_rate _duration _track
  = Returns (ok, _duration', _track') →
  (_target_path ≠ "translation" → translations _track' = translations _track)
  ∧ (_target_path ≠ "rotation" → rotations _track' = rotations _track)
  ∧ (_target_path ≠ "scale" → scales _track' = scales _track).
Proof.
  unfold SampleAnimationChannel. intros H.
  bind_inv H as input Hinput. bind_inv H as max0 Hmax. bind_inv H as output Houtput.
  destruct (BufferView 4 input) as [timestamps|]; [| by injection H as _ _ <-].
  bind_inv H as r Hr. destruct r as [ok' track1]. injection H as _ _ <-.
  repeat match type of Hr with
         | context [String.eqb ?a ?b] => destruct (String.eqb_spec a b)
         end;
    try (injection Hr as _ <-; done);
    unfold set_translations, set_rotations, set_scales in Hr;
    bind_inv Hr as keys Hkeys; destruct keys as [ok'' keys]; injection Hr as _ <-;
    subst; done.
Qed.

(** The size of the values of a property: a quaternion for rotation, else
    three floats. *)
Lemma SampleAnimationChannel_mismatch_branch (_output : Accessor.t)
    (timestamps : list float) (interpolation _target_path : string)
    (_sampling_rate duration : float) (_track : JointTrack) :
  BufferView (if String.eqb _target_path "rotation" then 16 else 12) _output = None →
  (if String.eqb interpolation "" then Returns (false, _track)
   else if String.eqb interpolation "LINEAR" then
     if String.eqb _target_path "translation" then
       set_translations _track
         (SampleLinearChannel _output timestamps (translations _track))
     else if String.eqb _target_path "rotation" then
       set_rotations _track
         (SampleLinearChannel _output timestamps (rotations _track))
     else if String.eqb _target_path "scale" then
       set_scales _track
         (SampleLinearChannel _output timestamps (scales _track))
     else Returns (false, _track)
   else if String.eqb interpolation "STEP" then
     if String.eqb _target_path "translation" then
       set_translations _track
         (SampleStepChannel _output timestamps (translations _track))
     else if String.eqb _target_path "rotation" then
       set_rotations _track
         (SampleStepChannel _output timestamps (rotations _track))
     else if String.eqb _target_path "scale" then
       set_scales _track
         (SampleStepChannel _output timestamps (scales _track))
     else Returns (false, _track)
   else if String.eqb interpolation "CUBICSPLINE" then
     if String.eqb _target_path "translation" then
       set_translations _track
         (SampleCubicSplineChannel _output timestamps (translations _track)
            _sampling_rate duration)
     else if String.eqb _target_path "rotation" then
       set_rotations _track
         (SampleCubicSplineRotations _output timestamps (rotations _track)
            _sampling_rate duration)
     else if String.eqb _target_path "scale" then
       set_scales _track
         (SampleCubicSplineChannel _output timestamps (scales _track)
            _sampling_rate duration)
     else Returns (false, _track)
   else Returns (false, _track))
  = Returns (false, _track).
Proof.
  intros Hview. destruct _track as [ts rs ss].
  unfold SampleCubicSplineRotations, SampleLinearChannel, SampleStepChannel,
    SampleCubicSplineChannel. simpl sizeof.
  repeat match goal with
         | |- context [String.eqb ?a ?b] => destruct (String.eqb_spec a b)
         end; subst; try done; simpl in Hview; rewrite Hview; done.
Qed.

(** X6. A buffer view of the wrong element size is a failure without
    effect on the track: when the input accessor is not one of 4 byte
    elements, or the output accessor not one of quaternions for a rotation
    channel, of three floats for another, [SampleAnimationChannel] returns
    [false] with the track as it was, and with the duration already raised
    to the one the channel declares. *)
Theorem SampleAnimationChannel_format_mismatch (_sampler : AnimationSampler.t)
    (_target_path : string) (_sampling_rate _duration : float) (_track : JointTrack)
    (input _output : Accessor.t) (max0 : double) :
  index (Model.accessors m_model) (AnimationSampler.input _sampler) = Returns input →
  index (Accessor.maxValues input) 0 = Returns max0 →
  index (Model.accessors m_model) (AnimationSampler.output _sampler) = Returns _output →
  BufferView 4 input = None
  ∨ BufferView (if String.eqb _target_path "rotation" then 16 else 12) _output = None →
  SampleAnimationChannel m_model _sampler _target_path _sampling_rate _duration _track
  = Returns (false, raise _duration (F32.of_double max0), _track).
Proof.
  intros Hinput Hmax Houtput Hview. unfold SampleAnimationChannel.
  rewrite Hinput, bind_ret, Hmax, bind_ret, Houtput, bind_ret.
  destruct (BufferView 4 input) as [timestamps|] eqn:Htimestamps; [| done].
  destruct Hview as [Hview | Hview]; [done |].
  rewrite (SampleAnimationChannel_mismatch_branch _ _ _ _ _ _ _ Hview). done.
Qed.

(** ** The channels of a joint *)

(** X7. The first loop of [Import] groups the channels by the name of
    their target node: it returns exactly when every channel with a target
    names a node of the document, and then a joint name maps to the
    channels that target a node of that name, in the order of the
    animation; channels without a target are in no group. *)
Theorem channels_per_joint_groups (gltf_animation : Animation.t) :
  (∀ channel, channel ∈ Animation.channels gltf_animation →
     AnimationChannel.target_node channel ≠ -1 →
     ∃ node, index (Model.nodes m_model) (AnimationChannel.target_node channel)
             = Returns node) →
  ∃ per_joint,
    channels_per_joint m_model (Animation.channels gltf_animation) = Returns per_joint
    ∧ ∀ joint_name,
        default [] (per_joint !! joint_name)
        = List.filter (targets m_model joint_name) (Animation.channels gltf_animation).
Proof.
  intros Hrange.
  assert (Hreturns : ∀ channels per_joint0,
            (∀ channel, channel ∈ channels →
               AnimationChannel.target_node channel ≠ -1 →
               ∃ node, index (Model.nodes m_model) (AnimationChannel.target_node channel)
                       = Returns node) →
            ∃ per_joint, foldM (record_channel m_model) channels per_joint0
                         = Returns per_joint).
  { induction channels as [|channel channels IH]; intros per_joint0 Hin; simpl; [eauto |].
    assert (∃ per_joint1, record_channel m_model per_joint0 channel = Returns per_joint1)
      as [per_joint1 ->].
    { unfold record_channel.
      destruct (Z.eqb_spec (AnimationChannel.target_node channel) (-1)); [eauto |].
      destruct (Hin channel) as [node ->]; [by left | done |]. simpl. eauto. }
    rewrite bind_ret. apply IH. intros c Hc. apply Hin. by right. }
  destruct (Hreturns (Animation.channels gltf_animation) ∅ Hrange) as [per_joint Hper].
  exists per_joint. split; [exact Hper |].
  intros joint_name. exact (channels_per_joint_lookup m_model _ _ joint_name Hper).
Qed.

(** ** Animation import *)

Lemma Import_Returns_inv _animation_name skeleton _sampling_rate _animation ok a' :
  Import m_model _animation_name skeleton _sampling_rate _animation = Returns (ok, a') →
  ∃ gltf_animation per_joint ok',
    List.find (λ a, String.eqb (Animation.name a) _animation_name)
      (Model.animations m_model) = Some gltf_animation
    ∧ import_joints m_model gltf_animation
        (if F32.eqb _sampling_rate F32.zero then F32.thirty else _sampling_rate)
        per_joint skeleton O
        {| RawAnimation.name := Animation.name gltf_animation;
           RawAnimation.duration := F32.zero;
           RawAnimation.tracks :=
             resized (length skeleton) JointTrack_empty (RawAnimation.tracks _animation) |}
      = Returns (ok', a')
    ∧ (ok = true → ok' = true).
Proof.
  unfold Import. intros H.
  destruct (List.find _ (Model.animations m_model)) as [gltf_animation|]; [| done].
  bind_inv H as per_joint Hper. bind_inv H as r Hr. destruct r as [ok' a1].
  exists gltf_animation, per_joint, ok'. split; [done |].
  destruct ok'; simpl in H.
  - destruct (Validate a1); simpl in H; injection H as <- <-; done.
  - injection H as <- <-. done.
Qed.

Lemma import_joints_name gltf_animation rate per_joint joint_names i a ok a' :
  import_joints m_model gltf_animation rate per_joint joint_names i a = Returns (ok, a') →
  RawAnimation.name a' = RawAnimation.name a.
Proof.
  revert i a. induction joint_names as [|joint_name joint_names IH]; intros i a H.
  - by injection H as _ <-.
  - simpl in H. bind_inv H as track Htrack. bind_inv H as r Hsample.
    destruct r as [[ok1 d1] track1]. destruct ok1; simpl in H.
    + bind_inv H as final Hfinal. by apply IH in H.
    + by injection H as _ <-.
Qed.

Lemma length_resized {A} (n : nat) (d : A) (l : list A) : length (resized n d l) = n.
Proof. unfold resized. rewrite length_app, length_take, length_replicate. lia. Qed.

Lemma Import_tracks_length _animation_name skeleton _sampling_rate _animation ok a' :
  Import m_model _animation_name skeleton _sampling_rate _animation = Returns (ok, a') →
  length (RawAnimation.tracks a') = length skeleton.
Proof.
  intros H. apply Import_Returns_inv in H as (g & per_joint & ok' & _ & H & _).
  apply import_joints_frame in H as [Hlen _]. simpl in Hlen.
  by rewrite length_resized in Hlen.
Qed.

(** X8. Whatever [Import] returns, [true] or [false], the animation has
    the name asked for and exactly one track per joint of the skeleton. *)
Theorem Import_tracks_per_joint (_animation_name : string) (skeleton : list string)
    (_sampling_rate : float) (_animation a' : RawAnimation.t) (ok : bool) :
  Import m_model _animation_name skeleton _sampling_rate _animation = Returns (ok, a') →
  RawAnimation.name a' = _animation_name
  ∧ length (RawAnimation.tracks a') = length skeleton.
Proof.
  intros H. split; [| by eapply Import_tracks_length].
  apply Import_Returns_inv in H as (g & per_joint & ok' & Hfind & H & _).
  apply import_joints_name in H. simpl in H. rewrite H.
  apply find_some in Hfind as [_ Hname]. by apply String.eqb_eq.
Qed.

Lemma pad_bind_pose_nonempty node track final :
  pad_bind_pose node track = Returns final →
  translations final ≠ [] ∧ rotations final ≠ [] ∧ scales final ≠ [].
Proof.
  unfold pad_bind_pose. intros H.
  bind_inv H as ts Hts. bind_inv H as rs Hrs. bind_inv H as ss Hss. injection H as <-.
  simpl. repeat split.
  - destruct (bool_decide (translations track = [])) eqn:Hempty.
    + bind_inv Hts as n Hn. bind_inv Hts as key Hkey. by injection Hts as <-.
    + injection Hts as <-. by apply bool_decide_eq_false_1 in Hempty.
  - destruct (bool_decide (rotations track = [])) eqn:Hempty.
    + bind_inv Hrs as n Hn. bind_inv Hrs as key Hkey. by injection Hrs as <-.
    + injection Hrs as <-. by apply bool_decide_eq_false_1 in Hempty.
  - destruct (bool_decide (scales track = [])) eqn:Hempty.
    + bind_inv Hss as n Hn. bind_inv Hss as key Hkey. by injection Hss as <-.
    + injection Hss as <-. by apply bool_decide_eq_false_1 in Hempty.
Qed.

Lemma import_joints_padded gltf_animation rate per_joint joint_names i a a' k joint_name :
  import_joints m_model gltf_animation rate per_joint joint_names i a = Returns (true, a') →
  joint_names !! k = Some joint_name →
  ∃ track final,
    pad_bind_pose (FindNodeByName m_model joint_name) track = Returns final
    ∧ RawAnimation.tracks a' !! (i + k)%nat = Some final.
Proof.
  revert i a k. induction joint_names as [|name joint_names IH]; intros i a k H Hk; [done |].
  simpl in H. bind_inv H as track0 Htrack. bind_inv H as r Hsample.
  destruct r as [[ok1 d1] track1]. destruct ok1; simpl in H; [| done].
  bind_inv H as final Hfinal.
  destruct k as [|k].
  - injection Hk as ->. exists track1, final. split; [done |].
    apply index_Returns in Htrack as [_ Htrack]. rewrite Nat2Z.id in Htrack.
    apply import_joints_frame in H as [_ Hframe]. rewrite Nat.add_0_r, Hframe by lia.
    simpl. apply list_lookup_insert_eq. by eapply lookup_lt_Some.
  - simpl in Hk. replace (i + S k)%nat with (S i + k)%nat by lia. by eapply IH.
Qed.

(** X9. After a successful import no track is left empty: every joint has
    at least one translation key, one rotation key and one scale key. *)
Theorem Import_tracks_nonempty (_animation_name : string) (skeleton : list string)
    (_sampling_rate : float) (_animation a' : RawAnimation.t) (i : nat)
    (track : JointTrack) :
  Import m_model _animation_name skeleton _sampling_rate _animation = Returns (true, a') →
  RawAnimation.tracks a' !! i = Some track →
  translations track ≠ [] ∧ rotations track ≠ [] ∧ scales track ≠ [].
Proof.
  intros H Htrack.
  pose proof (Import_tracks_length _ _ _ _ _ _ H) as Hlen.
  apply Import_true_inv in H as (g & per_joint & _ & _ & H & _).
  destruct (lookup_lt_is_Some_2 skeleton i) as [joint_name Hjoint].
  { rewrite <- Hlen. by eapply lookup_lt_Some. }
  destruct (import_joints_padded _ _ _ _ _ _ _ _ _ H Hjoint)
    as (track1 & final & Hpad & Hfinal).
  simpl in Hfinal. rewrite Htrack in Hfinal. injection Hfinal as <-.
  by eapply pad_bind_pose_nonempty.
Qed.

(** ** Bind pose and node transform *)

(** X10. The bind pose keys agree with the transform of the joint: for a
    node that [CreateNodeTransform] accepts, the three bind pose keys are
    at time 0 and carry the translation, the rotation and the scale of that
    transform. *)
Theorem bind_pose_keys_match_transform (_node : Node.t) (t0 transform : Transform.t) :
  CreateNodeTransform _node t0 = Returns (true, transform) →
  CreateTranslationBindPoseKey _node
  = Returns {| time := F32.zero; value := Transform.translation transform |}
  ∧ CreateRotationBindPoseKey _node
    = Returns {| time := F32.zero; value := Transform.rotation transform |}
  ∧ CreateScaleBindPoseKey _node
    = Returns {| time := F32.zero; value := Transform.scale transform |}.
Proof.
  intros H. apply CreateNodeTransform_rest_pose in H as (HT & HR & HS).
  unfold rest_translation, rest_rotation, rest_scale in *.
  unfold CreateTranslationBindPoseKey, CreateRotationBindPoseKey, CreateScaleBindPoseKey.
  repeat split.
  - destruct (bool_decide (Node.translation _node = [])); [by injection HT as <- |].
    by rewrite HT.
  - destruct (bool_decide (Node.rotation _node = [])); [by injection HR as <- |].
    by rewrite HR.
  - destruct (bool_decide (Node.scale _node = [])); [by injection HS as <- |].
    by rewrite HS.
Qed.

(** ** Skin roots *)

Lemma climb_end (fuel : nat) (parents : gmap Z Z) (start found : Z) :
  climb fuel parents start = Some found →
  parents !! found = None ∧ (found = start ∨ ∃ child, parents !! child = Some found).
Proof.
  revert start. induction fuel as [|fuel IH]; intros start H; [done |].
  simpl in H. destruct (parents !! start) as [parent|] eqn:Hparent.
  - apply IH in H as [Hnone [-> | Hchild]]; split; eauto.
  - injection H as <-. split; [done | by left].
Qed.

(** X11. Without a declared root, what the root search returns for a skin
    with joints is one of the joints of the skin, and no joint of the skin
    lists it as a child. *)
Theorem FindSkinRootJointIndex_is_parentless_joint (fuel : nat) (skin : Skin.t)
    (found : Z) :
  Skin.skeleton skin = -1 →
  Skin.joints skin ≠ [] →
  FindSkinRootJointIndex m_model fuel skin = Some (Returns found) →
  found ∈ Skin.joints skin
  ∧ ∀ p, p ∈ Skin.joints skin → is_child m_model p found = false.
Proof.
  intros Hskeleton Hjoints H. unfold FindSkinRootJointIndex in H.
  rewrite bool_decide_eq_false_2, Hskeleton in H by done. simpl in H.
  destruct (skin_parents m_model (Skin.joints skin)) as [parents| |] eqn:Hparents;
    [| done | done].
  destruct (index (Skin.joints skin) 0) as [start| |] eqn:Hstart; [| done | done].
  destruct (climb fuel parents start) as [found'|] eqn:Hclimb; [| done].
  injection H as ->.
  apply climb_end in Hclimb as [Hnone Hfrom].
  pose proof (skin_parents_from m_model _ ∅ parents Hparents) as Hmap.
  split.
  - destruct Hfrom as [-> | [child Hchild]].
    + apply index_Returns in Hstart as [_ Hstart]. by eapply list_elem_of_lookup_2.
    + destruct (Hmap child) as [Hsome _].
      apply Hsome in Hchild as [Hchild | [Hin _]]; [by rewrite lookup_empty in Hchild | done].
  - intros p Hp. destruct (is_child m_model p found) eqn:Hchild; [| done].
    destruct (Hmap found) as [_ Hdom]. destruct Hdom as [x Hx]; [right; eauto |].
    congruence.
Qed.

(** ** Joint import *)

Lemma CreateNodeTransform_true_any (_node : Node.t) (t0 t1 transform : Transform.t) :
  CreateNodeTransform _node t0 = Returns (true, transform) →
  CreateNodeTransform _node t1 = Returns (true, transform).
Proof.
  unfold CreateNodeTransform.
  destruct (negb (bool_decide (Node.matrix _node = []))); [done | done].
Qed.

Lemma ImportNode_builds_mirror (fuel : nat) (_node : Node.t) (_joint joint : Joint) :
  ImportNode m_model fuel _node _joint = Some (Returns (true, joint)) →
  mirrors m_model fuel _node joint.
Proof.
  revert _node _joint joint.
  induction fuel as [|fuel IH]; intros _node _joint joint H; [done |].
  simpl in H.
  destruct (CreateNodeTransform _node (Joint_transform _joint))
    as [[[] transform]| |] eqn:Htransform; try done.
  assert (Hfill : ∀ (todo : list Z) (i : nat) (children : list Joint),
    (fix fill (todo : list Z) (i : nat) (children : list Joint)
        : option (outcome (bool * Joint)) :=
       match todo with
       | [] => Some (Returns (true, MkJoint (Node.name _node) transform children))
       | child :: todo =>
           match index (Model.nodes m_model) child, children !! i with
           | Returns child_node, Some child_joint =>
               match ImportNode m_model fuel child_node child_joint with
               | Some (Returns (true, child_joint)) =>
                   fill todo (S i) (<[i := child_joint]> children)
               | Some (Returns (false, child_joint)) =>
                   Some (Returns (false,
                           MkJoint (Node.name _node) transform
                             (<[i := child_joint]> children)))
               | Some Undefined => Some Undefined
               | Some Throws => Some Throws
               | None => None
               end
           | Throws, _ => Some Throws
           | _, _ => Some Undefined
           end
       end) todo i children = Some (Returns (true, joint)) →
    ∃ children',
      joint = MkJoint (Node.name _node) transform children'
      ∧ length children' = length children
      ∧ (∀ k, (k < i)%nat → children' !! k = children !! k)
      ∧ ∀ k child, todo !! k = Some child →
          ∃ child_node child_joint,
            index (Model.nodes m_model) child = Returns child_node
            ∧ children' !! (i + k)%nat = Some child_joint
            ∧ mirrors m_model fuel child_node child_joint).
  { induction todo as [|child todo IHtodo]; intros i children Hloop.
    - injection Hloop as <-. exists children. done.
    - destruct (index (Model.nodes m_model) child) as [child_node| |] eqn:Hchild;
        [| by destruct (children !! i) | done].
      destruct (children !! i) as [child_joint|] eqn:Hi; [| done].
      destruct (ImportNode m_model fuel child_node child_joint)
        as [[[[] child_joint']| |]|] eqn:Himport; try done.
      apply IHtodo in Hloop as (children' & -> & Hlen & Hframe & Hall).
      rewrite length_insert in Hlen.
      exists children'. split; [done |]. split; [done |]. split.
      + intros k Hk. rewrite Hframe by lia. apply list_lookup_insert_ne. lia.
      + intros [|k] c Hc.
        * injection Hc as <-. exists child_node, child_joint'.
          split; [done |]. split; [| by eapply IH].
          rewrite Nat.add_0_r, Hframe by lia. apply list_lookup_insert_eq.
          by eapply lookup_lt_Some.
        * simpl in Hc. destruct (Hall k c Hc) as (cn & cj & Hcn & Hcj & Hmirror).
          exists cn, cj. split; [done |]. split; [| done].
          by replace (i + S k)%nat with (S i + k)%nat by lia. }
  apply Hfill in H as (children' & -> & Hlen & _ & Hall).
  rewrite length_resized in Hlen. simpl.
  split; [done |]. split; [by eapply CreateNodeTransform_true_any |].
  apply Forall2_same_length_lookup. split; [done |].
  intros k child child_joint Hchild Hjoint.
  destruct (Hall k child Hchild) as (cn & cj & Hcn & Hcj & Hmirror).
  simpl in Hcj. rewrite Hjoint in Hcj. injection Hcj as <-. eauto.
Qed.

(** X12. A successful [ImportNode] mirrors the node tree: the joint has
    the name and the transform of the node and one child joint per child of
    the node, in the order of the node's children, each of them again the
    mirror of that child. *)
Theorem ImportNode_mirrors (fuel : nat) (_node : Node.t) (_joint joint : Joint) :
  ImportNode m_model fuel _node _joint = Some (Returns (true, joint)) →
  mirrors m_model fuel _node joint.
Proof. apply ImportNode_builds_mirror. Qed.

End MoreProperties.

(** ** Names of the document *)

Lemma string_length_app (s1 s2 : string) :
  String.length (s1 +:+ s2) = (String.length s1 + String.length s2)%nat.
Proof. induction s1 as [|c s1 IH]; simpl; [done | by rewrite IH]. Qed.

Lemma pretty_N_go_length (x : N) (s : string) :
  (String.length s ≤ String.length (pretty_N_go x s))%nat.
Proof.
  revert s. induction (N.lt_wf_0 x) as [x _ IH]; intros s.
  assert (x = 0 ∨ 0 < x)%N as [-> | Hx] by lia.
  - by rewrite pretty_N_go_0.
  - rewrite pretty_N_go_step by done.
    etrans; [| apply IH; apply N.div_lt; done]. simpl. lia.
Qed.

Lemma to_string_nonempty (i : nat) : to_string i ≠ "".
Proof.
  unfold to_string, pretty, pretty_nat, pretty, pretty_N.
  destruct (decide (N.of_nat i = 0)%N); [done |].
  rewrite pretty_N_go_step by lia. intros Hempty.
  pose proof (pretty_N_go_length (N.of_nat i `div` 10)
                (String (pretty_N_char (N.of_nat i `mod` 10)) "")) as Hlen.
  rewrite Hempty in Hlen. simpl in Hlen. lia.
Qed.

Lemma suffixed_longer (name : string) (i : nat) :
  (String.length name < String.length (name +:+ "_" +:+ to_string i))%nat.
Proof. rewrite string_length_app. simpl. lia. Qed.

(** Strings without a NUL, the fixed points of [c_str]. *)
Lemma c_str_idemp (s : string) : c_str (c_str s) = c_str s.
Proof.
  induction s as [|c s IH]; simpl; [done |].
  destruct (Ascii.eqb c Ascii.zero) eqn:Hc; simpl; [done |]. by rewrite Hc, IH.
Qed.

Lemma c_str_app (s1 s2 : string) :
  c_str s1 = s1 → c_str s2 = s2 → c_str (s1 +:+ s2) = s1 +:+ s2.
Proof.
  intros H1 H2. induction s1 as [|c s1 IH]; simpl in *; [done |].
  destruct (Ascii.eqb c Ascii.zero); [done |].
  injection H1 as H1. by rewrite IH.
Qed.

Lemma c_str_pretty_N_go (x : N) (s : string) :
  c_str s = s → c_str (pretty_N_go x s) = pretty_N_go x s.
Proof.
  revert s. induction (N.lt_wf_0 x) as [x _ IH]; intros s Hs.
  assert (x = 0 ∨ 0 < x)%N as [-> | Hx] by lia.
  - by rewrite pretty_N_go_0.
  - rewrite pretty_N_go_step by done. apply IH; [by apply N.div_lt |].
    simpl. rewrite Hs.
    assert (Hdigit : (x `mod` 10 < 10)%N) by (apply N.mod_lt; lia).
    destruct (x `mod` 10)%N as [|d]; [done |].
    do 4 (destruct d as [d|d|]; try done; try lia).
Qed.

Lemma c_str_to_string (i : nat) : c_str (to_string i) = to_string i.
Proof.
  unfold to_string, pretty, pretty_nat, pretty, pretty_N.
  destruct (decide (N.of_nat i = 0)%N); [done |]. by apply c_str_pretty_N_go.
Qed.

Lemma c_str_suffixed (name : string) (i : nat) :
  c_str name = name → c_str (name +:+ "_" +:+ to_string i) = name +:+ "_" +:+ to_string i.
Proof.
  intros Hname. apply c_str_app; [done |]. apply (c_str_app "_"); [done |].
  apply c_str_to_string.
Qed.

Section FixDuplicate.
Variables (names : gset string) (i : nat).

Lemma fix_duplicate_fresh (fuel : nat) (name name' : string) (renamed renamed' : bool) :
  fix_duplicate fuel names i name renamed = Some (name', renamed') →
  (name' ∉ names)
  ∧ (String.length name ≤ String.length name')%nat
  ∧ ((name' = name ∧ renamed' = renamed) ∨ renamed' = true)
  ∧ (c_str name = name → c_str name' = name').
Proof.
  revert name renamed. induction fuel as [|fuel IH]; intros name renamed H; [done |].
  simpl in H. destruct (decide (name ∈ names)) as [Hin | Hout].
  - rewrite bool_decide_eq_true_2 in H by done.
    apply IH in H as (Hfresh & Hlen & Hrenamed & Hnul).
    split; [done |]. split; [| split].
    + pose proof (suffixed_longer name i). lia.
    + right. destruct Hrenamed as [[_ ->] | ->]; done.
    + intros Hname. by apply Hnul, c_str_suffixed.
  - rewrite bool_decide_eq_false_2 in H by done. injection H as <- <-.
    split; [done |]. split; [done |]. split; [by left | done].
Qed.

End FixDuplicate.

Lemma fix_duplicate_without (fuel : nat) (names : gset string) (i : nat)
    (x name : string) (renamed : bool) :
  (String.length x < String.length name)%nat →
  fix_duplicate fuel names i name renamed
  = fix_duplicate fuel (names ∖ {[x]}) i name renamed.
Proof.
  revert name renamed. induction fuel as [|fuel IH]; intros name renamed Hlen; [done |].
  simpl. assert (name ≠ x) by (intros ->; lia).
  destruct (decide (name ∈ names)) as [Hin | Hout].
  - rewrite !bool_decide_eq_true_2 by set_solver.
    apply IH. pose proof (suffixed_longer name i). lia.
  - rewrite !bool_decide_eq_false_2 by set_solver. done.
Qed.

(** The loop ends: each turn meets a name of the set that no later turn
    can meet again. *)
Lemma fix_duplicate_ends (fuel : nat) (names : gset string) (i : nat) (name : string)
    (renamed : bool) :
  (size names < fuel)%nat →
  is_Some (fix_duplicate fuel names i name renamed).
Proof.
  revert names name renamed.
  induction fuel as [|fuel IH]; intros names name renamed Hsize; [lia |].
  simpl. destruct (decide (name ∈ names)) as [Hin | Hout].
  - rewrite bool_decide_eq_true_2 by done.
    rewrite (fix_duplicate_without _ _ _ name) by apply suffixed_longer.
    apply IH. rewrite size_difference by set_solver. rewrite size_singleton.
    assert (size names ≠ 0)%nat by (intros ?%size_empty_inv; set_solver). lia.
  - rewrite bool_decide_eq_false_2 by done. eauto.
Qed.

Section Fixup.
Context `{Named A}.
Variables (fuel : nat) (_prefix_name : string).

Lemma fixup_from_spec (todo : list A) :
  ∀ (names : gset string) (i : nat),
    (size names + length todo ≤ fuel)%nat →
    ∃ fixed,
      fixup_from fuel _prefix_name names i todo = Some fixed
      ∧ length fixed = length todo
      ∧ NoDup (c_str ∘ name_of <$> fixed)
      ∧ (∀ a, a ∈ fixed → (c_str (name_of a) ∉ names) ∧ c_str (name_of a) ≠ "")
      ∧ Forall2 (λ a a', a' = a ∨ a' = set_name (name_of a') a) todo fixed
      ∧ (∀ k a, todo !! k = Some a →
           c_str (name_of a) ≠ "" → c_str (name_of a) ∉ names →
           (∀ j a', (j < k)%nat → fixed !! j = Some a' →
              c_str (name_of a') ≠ c_str (name_of a)) →
           fixed !! k = Some a).
Proof.
  induction todo as [|data todo IH]; intros names i Hfuel.
  - exists []. simpl. split; [done |]. split; [done |]. split; [constructor |].
    split; [| split; [constructor | done]].
    intros a Ha. by apply elem_of_nil in Ha.
  - simpl in Hfuel |- *.
    remember (if String.eqb (c_str (name_of data)) ""
              then (c_str _prefix_name +:+ to_string i, true)
              else (c_str (name_of data), false)) as start eqn:Hstart.
    destruct start as [name0 renamed0].
    assert (Hne : name0 ≠ "").
    { destruct (String.eqb_spec (c_str (name_of data)) ""); injection Hstart as -> ->;
        [| done].
      intros Hempty. pose proof (f_equal String.length Hempty) as Hlen.
      rewrite string_length_app in Hlen. simpl in Hlen.
      pose proof (to_string_nonempty i). destruct (to_string i); [done | simpl in Hlen; lia]. }
    assert (Hnul0 : c_str name0 = name0).
    { destruct (String.eqb_spec (c_str (name_of data)) ""); injection Hstart as -> ->.
      - apply c_str_app; [apply c_str_idemp | apply c_str_to_string].
      - apply c_str_idemp. }
    assert (Hkept : renamed0 = false → name0 = c_str (name_of data)).
    { destruct (String.eqb_spec (c_str (name_of data)) ""); injection Hstart as -> ->; done. }
    destruct (fix_duplicate_ends fuel names i name0 renamed0) as [[name renamed] Hfix];
      [lia |].
    rewrite Hfix.
    pose proof (fix_duplicate_fresh _ _ _ _ _ _ _ Hfix) as (Hfresh & Hlen & Hrenamed & Hnul).
    specialize (Hnul Hnul0).
    destruct (IH ({[name]} ∪ names) (S i))
      as (fixed & -> & Hlength & Hnodup & Hnames & Hsame & Hkeep).
    { rewrite size_union by set_solver. rewrite size_singleton. lia. }
    set (data' := if renamed then set_name name data else data).
    assert (Hname : c_str (name_of data') = name).
    { unfold data'. destruct renamed; [by rewrite name_of_set_name |].
      destruct Hrenamed as [[-> Hr] | ?]; [| done]. symmetry. by apply Hkept. }
    exists (data' :: fixed). split; [done |]. split; [simpl; lia |]. split; [| split; [| split]].
    + simpl. apply NoDup_cons. split; [| done].
      rewrite Hname. intros (a & Ha & Hin)%list_elem_of_fmap. simpl in Ha.
      destruct (Hnames a Hin) as [Hnot _]. set_solver.
    + intros a [-> | Hin]%elem_of_cons.
      * rewrite Hname. split; [done |]. intros ->. destruct name0; [done | simpl in Hlen; lia].
      * destruct (Hnames a Hin) as [Hnot Hne']. split; [set_solver | done].
    + constructor; [| done]. unfold data'. destruct renamed; [right | by left].
      by rewrite name_of_set_name.
    + intros [|k] a Ha Hnonempty Hout Hearlier.
      * injection Ha as <-. simpl. f_equal. unfold data'.
        destruct (String.eqb_spec (c_str (name_of data)) ""); [done |].
        injection Hstart as -> ->.
        destruct fuel as [|fuel']; [done |]. simpl in Hfix.
        rewrite bool_decide_eq_false_2 in Hfix by done. by injection Hfix as _ <-.
      * simpl in Ha |- *. apply Hkeep; [done | done | |].
        -- specialize (Hearlier O data' ltac:(lia) eq_refl). rewrite Hname in Hearlier.
           set_solver.
        -- intros j a' Hj Ha'. apply (Hearlier (S j) a'); [lia | done].
Qed.

(** X13. With fuel for every element, [FixupNames] returns [true] and
    leaves a vector of as many elements whose names are pairwise different
    and none empty, already as the C strings the importer hands on; it
    changes nothing of an element but its name. *)
Theorem FixupNames_unique_names (_data : list A) :
  (length _data ≤ fuel)%nat →
  ∃ fixed,
    FixupNames fuel _data _prefix_name = Some (true, fixed)
    ∧ length fixed = length _data
    ∧ NoDup (c_str ∘ name_of <$> fixed)
    ∧ (∀ a, a ∈ fixed → c_str (name_of a) ≠ "")
    ∧ Forall2 (λ a a', a' = a ∨ a' = set_name (name_of a') a) _data fixed.
Proof.
  intros Hfuel. unfold FixupNames.
  destruct (fixup_from_spec _data ∅ O) as (fixed & -> & Hlen & Hnodup & Hnames & Hsame & _).
  { rewrite size_empty. lia. }
  exists fixed. split; [done |]. split; [done |]. split; [done |]. split; [| done].
  intros a Ha. by destruct (Hnames a Ha).
Qed.

(** X14. A vector whose names, as C strings, are already pairwise different
    and none empty is left as it is. *)
Theorem FixupNames_keeps_good_names (_data : list A) :
  (length _data ≤ fuel)%nat →
  NoDup (c_str ∘ name_of <$> _data) →
  (∀ a, a ∈ _data → c_str (name_of a) ≠ "") →
  FixupNames fuel _data _prefix_name = Some (true, _data).
Proof.
  intros Hfuel Hnodup Hnonempty. unfold FixupNames.
  destruct (fixup_from_spec _data ∅ O) as (fixed & -> & Hlen & _ & _ & _ & Hkeep).
  { rewrite size_empty. lia. }
  do 2 f_equal. apply list_eq. intros k.
  induction k as [k IH] using lt_wf_ind.
  destruct (_data !! k) as [a|] eqn:Ha.
  - apply Hkeep; [done | | set_solver |].
    + apply Hnonempty. by eapply list_elem_of_lookup_2.
    + intros j a' Hj Ha' Hname. rewrite (IH j Hj) in Ha'.
      assert (j = k); [| lia].
      eapply NoDup_lookup; [exact Hnodup | |]; rewrite list_lookup_fmap.
      * by rewrite Ha'.
      * rewrite Ha. simpl. by rewrite Hname.
  - apply lookup_ge_None. rewrite Hlen. by apply lookup_ge_None.
Qed.

End Fixup.

(** ** The Hermite blend in binary32 *)

Lemma digits2_pos_shift (m : positive) :
  Z.pos (digits2_pos (Pos.iter xO m 23)) = Z.pos (digits2_pos m) + 23.
Proof. simpl. lia. Qed.

Lemma shr_23 (m : positive) :
  SpecFloat.iter_pos shr_1 23 (shr_record_of_loc (Z.pos (Pos.iter xO m 23)) loc_Exact)
  = {| shr_m := Z.pos m; shr_r := false; shr_s := false |}.
Proof. reflexivity. Qed.

(** Multiplying by [1.0f] is exact. *)
Lemma mul_one (x : float) : finite_float x = true → F32.mul x F32.one = x.
Proof.
  destruct x as [s| | |s m e]; intros Hb; [by destruct s | done | done |].
  unfold finite_float, bounded, canonical_mantissa in Hb.
  apply andb_true_iff in Hb as [Hc He]. apply Z.eqb_eq in Hc. apply Z.leb_le in He.
  assert (Hc' : fexp F32.prec F32.emax (Z.pos (digits2_pos m) + e) = e) by exact Hc.
  unfold F32.mul, F32.one, F32.of_Z.
  change (binary_normalize F32.prec F32.emax 1 0 false) with (S754_finite false 8388608 (-23)).
  unfold SFmul. rewrite xorb_false_r.
  rewrite Pos.mul_comm. change (8388608 * m)%positive with (Pos.iter xO m 23).
  unfold binary_round_aux, shr_fexp.
  unfold Zdigits2 at 1. rewrite digits2_pos_shift.
  replace (Z.pos (digits2_pos m) + 23 + (e + -23)) with (Z.pos (digits2_pos m) + e) by lia.
  rewrite Hc'. replace (e - (e + -23)) with 23 by lia.
  unfold shr at 1. rewrite !shr_23.
  cbn [shr_m loc_of_shr_record round_nearest_even Zdigits2].
  replace (e + -23 + 23) with e by lia.
  rewrite Hc', Z.sub_diag. cbn [shr shr_record_of_loc shr_m].
  destruct (Z.leb_spec e (F32.emax - F32.prec)); [done | lia].
Qed.

Lemma mul_zero (x : float) :
  finite_float x = true → ∃ s, F32.mul x F32.zero = S754_zero s.
Proof. destruct x as [s| | |s m e]; intros Hb; try done; simpl; eauto. Qed.

Lemma add_zero_r (y x : float) (s : bool) :
  finite_float x = true → same_number y x →
  same_number (F32.add y (S754_zero s)) x.
Proof.
  intros Hx [-> | (s1 & s2 & -> & ->)].
  - destruct x as [sx| | |sx m e]; try done.
    + right. exists (if Bool.eqb sx s then sx else false), sx.
      split; [| done]. by destruct sx, s.
    + by left.
  - right. exists (if Bool.eqb s1 s then s1 else false), s2.
    split; [| done]. by destruct s1, s.
Qed.

Lemma add_zero_l (x : float) (s : bool) :
  finite_float x = true → same_number (F32.add (S754_zero s) x) x.
Proof.
  intros Hx. destruct x as [sx| | |sx m e]; try done.
  - right. exists (if Bool.eqb s sx then s else false), sx.
    split; [| done]. by destruct sx, s.
  - by left.
Qed.

Lemma same_number_eqb (y x : float) :
  finite_float x = true → same_number y x → F32.eqb y x = true.
Proof.
  intros Hx [-> | (s1 & s2 & -> & ->)]; [| done].
  destruct x as [sx| | |sx m e]; try done.
  unfold F32.eqb, SFeqb, SFcompare.
  change (PosDef.Pos.compare_cont Eq m m) with (Pos.compare m m).
  rewrite Z.compare_refl, Pos.compare_refl. by destruct sx.
Qed.

Lemma hermite_at_zero :
  (F32.two * (F32.zero * F32.zero * F32.zero) - F32.three * (F32.zero * F32.zero) + F32.one)%f32 = F32.one
  ∧ (F32.zero * F32.zero * F32.zero - F32.two * (F32.zero * F32.zero) + F32.zero)%f32 = F32.zero
  ∧ (F32.neg_two * (F32.zero * F32.zero * F32.zero) + F32.three * (F32.zero * F32.zero))%f32 = F32.zero
  ∧ (F32.zero * F32.zero * F32.zero - F32.zero * F32.zero)%f32 = F32.zero.
Proof. repeat split; vm_compute; reflexivity. Qed.

Lemma hermite_at_one :
  (F32.two * (F32.one * F32.one * F32.one) - F32.three * (F32.one * F32.one) + F32.one)%f32 = F32.zero
  ∧ (F32.one * F32.one * F32.one - F32.two * (F32.one * F32.one) + F32.one)%f32 = F32.zero
  ∧ (F32.neg_two * (F32.one * F32.one * F32.one) + F32.three * (F32.one * F32.one))%f32 = F32.one
  ∧ (F32.one * F32.one * F32.one - F32.one * F32.one)%f32 = F32.zero.
Proof. repeat split; vm_compute; reflexivity. Qed.

(** One component of the blend at the start of the segment, and at its
    end. *)
Lemma blend_start (p0 m0 p1 m1 : float) :
  finite_float p0 = true → finite_float m0 = true →
  finite_float p1 = true → finite_float m1 = true →
  F32.eqb (p0 * F32.one + m0 * F32.zero + p1 * F32.zero + m1 * F32.zero)%f32 p0 = true.
Proof.
  intros H0 Hm0 H1 Hm1. rewrite mul_one by done.
  destruct (mul_zero m0 Hm0) as [s1 ->]. destruct (mul_zero p1 H1) as [s2 ->].
  destruct (mul_zero m1 Hm1) as [s3 ->].
  apply same_number_eqb; [done |].
  do 3 (apply add_zero_r; [done |]). by left.
Qed.

Lemma blend_end (p0 m0 p1 m1 : float) :
  finite_float p0 = true → finite_float m0 = true →
  finite_float p1 = true → finite_float m1 = true →
  F32.eqb (p0 * F32.zero + m0 * F32.zero + p1 * F32.one + m1 * F32.zero)%f32 p1 = true.
Proof.
  intros H0 Hm0 H1 Hm1. rewrite mul_one by done.
  destruct (mul_zero m0 Hm0) as [s1 ->]. destruct (mul_zero p0 H0) as [s2 ->].
  destruct (mul_zero m1 Hm1) as [s3 ->].
  apply same_number_eqb; [done |]. apply add_zero_r; [done |].
  replace (S754_zero s2 + S754_zero s1)%f32
    with (S754_zero (if Bool.eqb s2 s1 then s2 else false)) by (by destruct s1, s2).
  by apply add_zero_l.
Qed.

(** X15. The Hermite blend meets the two keys of its segment: for values
    with finite components it compares equal to [p0] at [t = 0] and to
    [p1] at [t = 1], whatever the tangents. *)
Theorem SampleHermiteSpline_endpoints (p0 m0 p1 m1 : Float3) :
  finite_Float3 p0 = true → finite_Float3 m0 = true →
  finite_Float3 p1 = true → finite_Float3 m1 = true →
  Float3_eqb (SampleHermiteSpline F32.zero p0 m0 p1 m1) p0 = true
  ∧ Float3_eqb (SampleHermiteSpline F32.one p0 m0 p1 m1) p1 = true.
Proof.
  unfold finite_Float3. rewrite !andb_true_iff.
  intros [[? ?] ?] [[? ?] ?] [[? ?] ?] [[? ?] ?].
  unfold SampleHermiteSpline, Float3_eqb.
  destruct hermite_at_zero as (-> & -> & -> & ->).
  destruct hermite_at_one as (-> & -> & -> & ->).
  cbn [plus scale_by Float3_value x y z].
  rewrite !blend_start, !blend_end by done. done.
Qed.
(** ** Skins of a scene *)

Lemma begin_None (s : gset Z) : begin s = None → s = ∅.
Proof.
  unfold begin. destruct (elements s) eqn:Hs; [| done].
  intros _. by apply elements_empty_inv, leibniz_equiv in Hs.
Qed.

Lemma foldr_min_in (x : Z) (l : list Z) : foldr Z.min x l ∈ x :: l.
Proof.
  induction l as [|y l IH]; simpl; [by left |].
  destruct (Z.min_spec y (foldr Z.min x l)) as [[_ ->] | [_ ->]]; [set_solver |].
  set_solver.
Qed.

Lemma begin_Some (s : gset Z) (x : Z) : begin s = Some x → x ∈ s.
Proof.
  unfold begin. destruct (elements s) as [|y l] eqn:Hs; [done |].
  intros [= <-]. apply elem_of_elements. rewrite Hs. apply foldr_min_in.
Qed.

Lemma is_child_children (m_model : Model.t) (p c : Z) (node : Node.t) :
  index (Model.nodes m_model) p = Returns node →
  is_child m_model p c = true ↔ c ∈ Node.children node.
Proof.
  intros Hp. unfold is_child. rewrite Hp. apply bool_decide_eq_true.
Qed.

Lemma sum_list_with_ext {A} (f g : A → nat) (l : list A) :
  (∀ a, a ∈ l → f a = g a) → sum_list_with f l = sum_list_with g l.
Proof.
  induction l as [|a l IH]; intros H; [done |].
  cbn [sum_list_with]. rewrite (H a) by (by left). f_equal. apply IH.
  intros b Hb. apply H. by right.
Qed.

Lemma ends_within_children (m_model : Model.t) (depth : nat) (n : Z) (node : Node.t) :
  index (Model.nodes m_model) n = Returns node →
  ends_within m_model depth n = true →
  ∃ depth', depth = S depth'
    ∧ ∀ child, child ∈ Node.children node → ends_within m_model depth' child = true.
Proof.
  unfold ends_within at 1. intros -> H. destruct depth as [|depth']; [done |].
  exists depth'. split; [done |]. simpl in H. rewrite forallb_forall in H.
  intros child Hchild. by apply H, list_elem_of_In.
Qed.

Lemma ends_within_S (m_model : Model.t) (depth : nat) :
  ∀ n, ends_within m_model depth n = true → ends_within m_model (S depth) n = true.
Proof.
  induction depth as [|depth IH]; intros n H.
  - unfold ends_within in *. by destruct (index _ n).
  - destruct (index (Model.nodes m_model) n) as [node| |] eqn:Hn;
      [| by unfold ends_within; rewrite Hn ..].
    destruct (ends_within_children _ _ _ _ Hn H) as (d & [= <-] & Hchildren).
    unfold ends_within. rewrite Hn. change (forallb (ends_within m_model (S depth))
      (Node.children node) = true). apply forallb_forall.
    intros child Hchild%list_elem_of_In. by apply IH, Hchildren.
Qed.

Lemma weight_stable (m_model : Model.t) (depth : nat) :
  ∀ n, ends_within m_model depth n = true →
       weight m_model (S depth) n = weight m_model depth n.
Proof.
  induction depth as [|depth IH]; intros n H.
  - unfold ends_within in H. simpl. by destruct (index _ n).
  - destruct (index (Model.nodes m_model) n) as [node| |] eqn:Hn;
      [| by simpl; rewrite Hn ..].
    destruct (ends_within_children _ _ _ _ Hn H) as (d & [= <-] & Hchildren).
    change (weight m_model (S (S depth)) n)
      with (match index (Model.nodes m_model) n with
            | Returns node => S (sum_list_with (weight m_model (S depth)) (Node.children node))
            | _ => 1%nat
            end).
    change (weight m_model (S depth) n)
      with (match index (Model.nodes m_model) n with
            | Returns node => S (sum_list_with (weight m_model depth) (Node.children node))
            | _ => 1%nat
            end).
    rewrite Hn. f_equal. apply sum_list_with_ext.
    intros child Hchild. by apply IH, Hchildren.
Qed.

(** The sum of [f] over a finite set. *)
Lemma sum_elements_union (f : Z → nat) (X Y : gset Z) :
  (sum_list_with f (elements (X ∪ Y))
   ≤ sum_list_with f (elements X) + sum_list_with f (elements Y))%nat.
Proof.
  replace (X ∪ Y) with ((X ∖ Y) ∪ Y) by (apply set_eq; intros x; destruct (decide (x ∈ Y)); set_solver).
  rewrite elements_disj_union by set_solver. rewrite sum_list_with_app.
  replace X with ((X ∖ Y) ∪ (X ∩ Y)) at 2
    by (apply set_eq; intros x; destruct (decide (x ∈ Y)); set_solver).
  rewrite (elements_disj_union (X ∖ Y) (X ∩ Y)) by set_solver.
  rewrite sum_list_with_app. lia.
Qed.

Lemma sum_elements_list_to_set (f : Z → nat) (l : list Z) :
  (sum_list_with f (elements (list_to_set l : gset Z)) ≤ sum_list_with f l)%nat.
Proof.
  induction l as [|x l IH]; simpl; [by rewrite elements_empty |].
  etrans; [apply sum_elements_union |]. rewrite elements_singleton. simpl. lia.
Qed.

Lemma sum_elements_remove (f : Z → nat) (X : gset Z) (x : Z) :
  x ∈ X →
  sum_list_with f (elements X) = (f x + sum_list_with f (elements (X ∖ {[x]})))%nat.
Proof.
  intros Hx. rewrite (union_difference_singleton_L x X Hx) at 1.
  rewrite elements_disj_union by set_solver. rewrite sum_list_with_app, elements_singleton.
  simpl. lia.
Qed.

Lemma tc_first_step {A} (R : relation A) (x z : A) :
  tc R x z → ∃ y, R x y ∧ rtc R y z.
Proof.
  intros [x' z' H | x' y z' Hxy Hyz].
  - by exists z'.
  - exists y. split; [done | by apply tc_rtc].
Qed.

Section Skins.
Variable m_document : Document.t.
Local Abbreviation m_model := (Document.model m_document).

Lemma visit_found (roots : list Z) (fuel : nat) :
  ∀ open found result,
    visit m_document fuel open found = Some (Returns result) →
    (∀ n, n ∈ found ∪ open → reachable m_model roots n) →
    (∀ r, r ∈ roots → r ∈ found ∪ open) →
    (∀ p c, p ∈ found → child_of m_model p c → c ∈ found ∪ open) →
    ∀ n, n ∈ result ↔ reachable m_model roots n.
Proof.
  induction fuel as [|fuel IH]; intros open found result H Hreach Hroots Hclosed; [done |].
  simpl in H. destruct (begin open) as [x|] eqn:Hbegin.
  - apply begin_Some in Hbegin.
    destruct (index (Model.nodes m_model) x) as [node| |] eqn:Hx; [| done | done].
    apply (IH _ _ _ H).
    + intros n Hn.
      destruct (decide (n ∈ Node.children node)) as [Hchild | Hnot]; [| apply Hreach; set_solver].
      destruct (Hreach x) as (root & Hroot & Hpath); [set_solver |].
      exists root. split; [done |]. eapply rtc_r; [done |].
      by apply (is_child_children _ _ _ node).
    + intros r Hr. specialize (Hroots r Hr).
      destruct (decide (r = x)); set_solver.
    + intros p c Hp Hc. apply elem_of_union in Hp as [Hp | Hp].
      * apply elem_of_singleton in Hp as ->. apply (is_child_children _ _ _ node) in Hc; [| done]. set_solver.
      * specialize (Hclosed p c Hp Hc). destruct (decide (c = x)); set_solver.
  - injection H as <-. apply begin_None in Hbegin as ->.
    intros n. split; [intros Hn; apply Hreach; set_solver |].
    intros (root & Hroot & Hpath). revert n Hpath. apply rtc_ind_r.
    + specialize (Hroots _ Hroot). set_solver.
    + intros p c _ Hpc Hp. specialize (Hclosed p c Hp Hpc). set_solver.
Qed.

Lemma sublist_List_filter {A} (f : A → bool) (l : list A) : sublist (List.filter f l) l.
Proof.
  induction l as [|a l IH]; simpl; [constructor |].
  destruct (f a); by constructor.
Qed.

(** X16. The skins that [GetSkinsForScene] returns are, in the order of the
    document, exactly the skins with a first joint that is a node of the
    scene or is reached from one along child links. *)
Theorem GetSkinsForScene_reachable (fuel : nat) (_scene : Scene.t) (skins : list Skin.t) :
  GetSkinsForScene m_document fuel _scene = Some (Returns skins) →
  sublist skins (Document.skins m_document)
  ∧ ∀ skin,
      skin ∈ skins ↔
      skin ∈ Document.skins m_document
      ∧ ∃ joint joints,
          Skin.joints skin = joint :: joints
          ∧ reachable m_model (Scene.nodes _scene) joint.
Proof.
  unfold GetSkinsForScene. intros H.
  destruct (visit _ _ _ _) as [[found| |]|] eqn:Hvisit; try done.
  simpl in H. injection H as <-.
  pose proof (visit_found (Scene.nodes _scene) _ _ _ _ Hvisit) as Hfound.
  split; [apply sublist_List_filter |].
  intros skin. rewrite list_elem_of_In, filter_In, <- list_elem_of_In.
  assert (Hiff : ∀ n, n ∈ found ↔ reachable m_model (Scene.nodes _scene) n).
  { apply Hfound.
    - intros n Hn. exists n. split; [set_solver | done].
    - set_solver.
    - set_solver. }
  split.
  - intros [Hin Hjoint]. split; [done |].
    destruct (Skin.joints skin) as [|joint joints]; [done |].
    exists joint, joints. split; [done |]. apply Hiff. by apply bool_decide_eq_true in Hjoint.
  - intros [Hin (joint & joints & -> & Hreach)]. split; [done |].
    apply bool_decide_eq_true. by apply Hiff.
Qed.

Lemma visit_cycle (c : Z) :
  tc (child_of m_model) c c →
  ∀ fuel open found result,
    (∃ n, n ∈ open ∧ rtc (child_of m_model) n c) →
    visit m_document fuel open found ≠ Some (Returns result).
Proof.
  intros Hcycle. induction fuel as [|fuel IH]; intros open found result (n & Hn & Hpath); [done |].
  simpl. destruct (begin open) as [x|] eqn:Hbegin.
  - apply begin_Some in Hbegin.
    destruct (index (Model.nodes m_model) x) as [node| |] eqn:Hx; [| done | done].
    apply IH. destruct (decide (n = x)) as [-> | Hne]; [| exists n; set_solver].
    assert (∃ y, child_of m_model x y ∧ rtc (child_of m_model) y c) as (y & Hxy & Hyc).
    { destruct Hpath as [|x y c Hxy Hyc]; [| eauto].
      by apply tc_first_step. }
    exists y. split; [| done]. apply (is_child_children _ _ _ node) in Hxy; [| done].
    set_solver.
  - apply begin_None in Hbegin as ->. set_solver.
Qed.

(** X17. [GetSkinsForScene] has no guard against cycles: when a node that
    lies on a cycle of child links is reached from the scene, the loop over
    the open nodes never empties its set and no list of skins is ever
    returned, whatever the fuel. *)
Theorem GetSkinsForScene_never_returns_on_cycle (_scene : Scene.t) (root c : Z) :
  root ∈ Scene.nodes _scene →
  rtc (child_of m_model) root c →
  tc (child_of m_model) c c →
  ∀ fuel skins, GetSkinsForScene m_document fuel _scene ≠ Some (Returns skins).
Proof.
  intros Hroot Hpath Hcycle fuel skins. unfold GetSkinsForScene.
  destruct (visit _ _ _ _) as [[found| |]|] eqn:Hvisit; try done.
  exfalso. eapply (visit_cycle c Hcycle); [| exact Hvisit].
  exists root. split; [set_solver | done].
Qed.

Lemma visit_ends (depth : nat) :
  ∀ fuel open found,
    (∀ n, n ∈ open → ends_within m_model depth n = true) →
    (sum_list_with (weight m_model depth) (elements open) < fuel)%nat →
    is_Some (visit m_document fuel open found).
Proof.
  induction fuel as [|fuel IH]; intros open found Hends Hfuel; [lia |].
  simpl. destruct (begin open) as [x|] eqn:Hbegin; [| eauto].
  apply begin_Some in Hbegin.
  destruct (index (Model.nodes m_model) x) as [node| |] eqn:Hx; [| eauto ..].
  destruct (ends_within_children _ _ _ _ Hx (Hends x Hbegin)) as (d & -> & Hchildren).
  apply IH.
  - intros n [Hn | Hn]%elem_of_union.
    + apply ends_within_S, Hchildren. by apply elem_of_list_to_set in Hn.
    + apply Hends. set_solver.
  - rewrite (sum_elements_remove _ open x Hbegin) in Hfuel.
    assert (Hx' : weight m_model (S d) x
                  = S (sum_list_with (weight m_model (S d)) (Node.children node))).
    { change (weight m_model (S d) x)
        with (match index (Model.nodes m_model) x with
              | Returns node => S (sum_list_with (weight m_model d) (Node.children node))
              | _ => 1%nat
              end).
      rewrite Hx. f_equal. apply sum_list_with_ext.
      intros child Hchild. symmetry. by apply weight_stable, Hchildren. }
    pose proof (sum_elements_union (weight m_model (S d))
                  (list_to_set (Node.children node)) (open ∖ {[x]})) as Hunion.
    pose proof (sum_elements_list_to_set (weight m_model (S d)) (Node.children node)).
    lia.
Qed.

(** X18. Where every path of child links from the nodes of the scene
    ends, [GetSkinsForScene] terminates: it returns, or leaves the defined
    behaviour at a node index outside the document, within as many turns
    of its loop as there are paths from the scene nodes. *)
Theorem GetSkinsForScene_terminates (depth fuel : nat) (_scene : Scene.t) :
  (∀ n, n ∈ Scene.nodes _scene → ends_within m_model depth n = true) →
  (sum_list_with (weight m_model depth) (Scene.nodes _scene) < fuel)%nat →
  ∃ result, GetSkinsForScene m_document fuel _scene = Some result.
Proof.
  intros Hends Hfuel. unfold GetSkinsForScene.
  destruct (visit_ends depth fuel (list_to_set (Scene.nodes _scene)) ∅) as [result ->].
  - intros n Hn. apply Hends. by apply elem_of_list_to_set in Hn.
  - pose proof (sum_elements_list_to_set (weight m_model depth) (Scene.nodes _scene)). lia.
  - destruct result; simpl; eauto.
Qed.

End Skins.

(** ** Skeleton import *)

Section Roots.
Variable m_model : Model.t.

Lemma skin_parents_valid (joints : list Z) :
  ∀ parents0 parents,
    foldM (record_children m_model) joints parents0 = Returns parents →
    ∀ j, j ∈ joints → ∃ node, index (Model.nodes m_model) j = Returns node.
Proof.
  induction joints as [|joint joints IH]; intros parents0 parents H j Hj.
  - by apply elem_of_nil in Hj.
  - simpl in H. bind_inv H as parents1 H1.
    apply elem_of_cons in Hj as [-> | Hj]; [| by eapply IH].
    unfold record_children in H1. bind_inv H1 as node Hnode. eauto.
Qed.

Lemma FindSkinRootJointIndex_set (fuel : nat) (skin : Skin.t) (root : Z) :
  Skin.joints skin ≠ [] →
  FindSkinRootJointIndex m_model fuel skin = Some (Returns root) →
  root ≠ -1.
Proof.
  intros Hjoints H. unfold FindSkinRootJointIndex in H.
  rewrite bool_decide_eq_false_2 in H by done.
  destruct (Z.eqb_spec (Skin.skeleton skin) (-1)) as [Hunset | Hset]; simpl in H;
    [| by injection H as <-].
  destruct (skin_parents m_model (Skin.joints skin)) as [parents| |] eqn:Hparents;
    [| done | done].
  destruct (index (Skin.joints skin) 0) as [start| |] eqn:Hstart; [| done | done].
  destruct (climb fuel parents start) as [found|] eqn:Hclimb; [| done].
  injection H as ->.
  apply climb_end in Hclimb as [_ Hfrom].
  assert (Hin : root ∈ Skin.joints skin).
  { destruct Hfrom as [-> | [child Hchild]].
    - apply index_Returns in Hstart as [_ Hstart]. by eapply list_elem_of_lookup_2.
    - destruct (skin_parents_from m_model _ ∅ parents Hparents child) as [Hsome _].
      apply Hsome in Hchild as [Hchild | [Hin _]]; [by rewrite lookup_empty in Hchild | done]. }
  destruct (skin_parents_valid _ _ _ Hparents root Hin) as [node Hnode].
  apply index_Returns in Hnode as [Hroot _]. lia.
Qed.

(** X19. For a skin with joints the root search never returns -1, the
    value it keeps for a skin without joints: what it returns is the
    declared root, other than -1, or the index of a node of the document. *)
Theorem FindSkinRootJointIndex_never_unset (fuel : nat) (skin : Skin.t) (root : Z) :
  Skin.joints skin ≠ [] →
  FindSkinRootJointIndex m_model fuel skin = Some (Returns root) →
  root ≠ -1.
Proof. apply FindSkinRootJointIndex_set. Qed.

End Roots.

Lemma ascending_spec (s : gset Z) :
  StronglySorted Z.lt (ascending s) ∧ ∀ x, x ∈ ascending s ↔ x ∈ s.
Proof.
  unfold ascending.
  pose proof (merge_sort_Permutation Z.le (elements s)) as Hperm.
  split.
  - assert (Hnodup : NoDup (merge_sort Z.le (elements s))).
    { rewrite Hperm. apply NoDup_elements. }
    pose proof (StronglySorted_merge_sort Z.le (elements s)) as Hsorted.
    clear Hperm. revert Hnodup Hsorted. generalize (merge_sort Z.le (elements s)).
    intros l Hnodup Hsorted.
    induction Hsorted as [|x l Hl IH Hx]; [constructor |].
    apply NoDup_cons in Hnodup as [Hnot Hnodup].
    constructor; [by apply IH |].
    rewrite Forall_forall in Hx |- *. intros y Hy.
    specialize (Hx y Hy). assert (y ≠ x) by (by intros ->). lia.
  - intros x. by rewrite Hperm, elem_of_elements.
Qed.

Lemma length_ascending (s : gset Z) : length (ascending s) = size s.
Proof. unfold ascending. by rewrite merge_sort_Permutation. Qed.

Section Skeleton.
Variable m_document : Document.t.
Variable Validate_skeleton : list Joint → bool.
Local Abbreviation m_model := (Document.model m_document).

Lemma and_then_Returns {A B} (m : option (outcome A)) (k : A → option (outcome B)) (b : B) :
  and_then m k = Some (Returns b) → ∃ a, m = Some (Returns a) ∧ k a = Some (Returns b).
Proof. destruct m as [[a| |]|]; try done. eauto. Qed.

Lemma skin_roots_spec (fuel : nat) (skins : list Skin.t) :
  ∀ roots0 roots,
    skin_roots m_document fuel skins roots0 = Some (Returns roots) →
    ∀ r, r ∈ roots ↔
         r ∈ roots0
         ∨ ∃ skin, skin ∈ skins
                   ∧ FindSkinRootJointIndex m_model fuel skin = Some (Returns r)
                   ∧ r ≠ -1.
Proof.
  induction skins as [|skin skins IH]; intros roots0 roots H r.
  - injection H as <-. split; [by left |]. intros [? | (skin & Hskin & _)]; [done |].
    by apply elem_of_nil in Hskin.
  - simpl in H. apply and_then_Returns in H as (root & Hroot & H).
    destruct (Z.eqb_spec root (-1)) as [-> | Hset]; rewrite (IH _ _ H); clear IH H.
    + split.
      * intros [? | (s & Hs & Hr & Hne)]; [by left |]. right. exists s. by split; [right |].
      * intros [? | (s & [-> | Hs]%elem_of_cons & Hr & Hne)]; [by left | congruence |].
        right. by exists s.
    + rewrite elem_of_union, elem_of_singleton. split.
      * intros [[-> | ?] | (s & Hs & Hr & Hne)].
        -- right. exists skin. by split; [left |].
        -- by left.
        -- right. exists s. by split; [right |].
      * intros [? | (s & [-> | Hs]%elem_of_cons & Hr & Hne)].
        -- left. by right.
        -- left. left. congruence.
        -- right. by exists s.
Qed.

Lemma import_roots_spec (fuel : nat) (roots : list Z) :
  ∀ i joints joints',
    import_roots m_document fuel roots i joints = Some (Returns (true, joints')) →
    length joints' = length joints
    ∧ (∀ k, (k < i)%nat → joints' !! k = joints !! k)
    ∧ ∀ k root, roots !! k = Some root →
        ∃ node joint,
          index (Model.nodes m_model) root = Returns node
          ∧ joints' !! (i + k)%nat = Some joint
          ∧ mirrors m_model fuel node joint.
Proof.
  induction roots as [|root roots IH]; intros i joints joints' H.
  - injection H as <-. done.
  - simpl in H.
    destruct (index (Model.nodes m_model) root) as [root_node| |] eqn:Hroot;
      [| by destruct (joints !! i) | done].
    destruct (joints !! i) as [root_joint|] eqn:Hi; [| done].
    apply and_then_Returns in H as ([ok root_joint'] & Himport & H).
    destruct ok; [| done].
    apply IH in H as (Hlen & Hframe & Hall). rewrite length_insert in Hlen.
    split; [done |]. split.
    + intros k Hk. rewrite Hframe by lia. apply list_lookup_insert_ne. lia.
    + intros [|k] r Hr.
      * injection Hr as <-. exists root_node, root_joint'. split; [done |].
        split; [| by eapply ImportNode_builds_mirror].
        rewrite Nat.add_0_r, Hframe by lia. apply list_lookup_insert_eq.
        by eapply lookup_lt_Some.
      * simpl in Hr. destruct (Hall k r Hr) as (node & joint & Hnode & Hjoint & Hmirror).
        exists node, joint. split; [done |]. split; [| done].
        by replace (i + S k)%nat with (S i + k)%nat by lia.
Qed.

(** X20. A skeleton import that returns [true] leaves one root joint per
    root node, in ascending order of the node indices and without
    repetition, each the mirror of the tree of its node, and at least one.
    The root nodes are the nodes of the scene when [GetSkinsForScene] finds
    no skin, and else the roots that [FindSkinRootJointIndex] returns for
    the skins found; the roots passed the validation. *)
Theorem ImportSkeleton_mirrors (fuel : nat) (_skeleton joints : list Joint) :
  ImportSkeleton m_document Validate_skeleton fuel _skeleton = Some (Returns (true, joints)) →
  ∃ scene skins roots,
    index (Document.scenes m_document)
      (if Document.defaultScene m_document =? -1 then 0
       else Document.defaultScene m_document) = Returns scene
    ∧ GetSkinsForScene m_document fuel scene = Some (Returns skins)
    ∧ (∀ r, r ∈ roots ↔
         match skins with
         | [] => r ∈ Scene.nodes scene
         | _ => ∃ skin, skin ∈ skins
                        ∧ FindSkinRootJointIndex m_model fuel skin = Some (Returns r)
         end)
    ∧ roots ≠ []
    ∧ StronglySorted Z.lt roots
    ∧ Forall2 (λ root joint,
          ∃ node, index (Model.nodes m_model) root = Returns node
                  ∧ mirrors m_model fuel node joint) roots joints
    ∧ Validate_skeleton joints = true.
Proof.
  unfold ImportSkeleton. intros H.
  destruct (Document.scenes m_document) as [|scene0 scenes] eqn:Hscenes; [done |].
  rewrite <- Hscenes in *.
  destruct (index (Document.scenes m_document) _) as [scene| |] eqn:Hscene; [| done | done].
  destruct (Scene.nodes scene) as [|node0 nodes] eqn:Hnodes; [done |].
  rewrite <- Hnodes in *.
  apply and_then_Returns in H as (skins & Hskins & H).
  apply and_then_Returns in H as (roots & Hroots & H).
  apply and_then_Returns in H as ([ok joints'] & Himport & H).
  destruct ok; [| done]. simpl in H.
  destruct (Validate_skeleton joints') eqn:Hvalid; [| done]. injection H as <-.
  destruct (ascending_spec roots) as [Hsorted Hsame].
  apply import_roots_spec in Himport as (Hlen & _ & Hall).
  rewrite length_resized in Hlen.
  assert (Hset : ∀ r, r ∈ roots ↔
            match skins with
            | [] => r ∈ Scene.nodes scene
            | _ => ∃ skin, skin ∈ skins
                           ∧ FindSkinRootJointIndex m_model fuel skin = Some (Returns r)
            end).
  { destruct skins as [|skin skins]; [injection Hroots as <-; set_solver |].
    intros r. rewrite (skin_roots_spec _ _ _ _ Hroots r). split.
    - intros [? | (s & Hs & Hr & _)]; [set_solver | eauto].
    - intros (s & Hs & Hr). right. exists s. split; [done |]. split; [done |].
      eapply FindSkinRootJointIndex_set; [| exact Hr].
      unfold GetSkinsForScene in Hskins.
      apply and_then_Returns in Hskins as (found & _ & [= Hfilter]).
      rewrite <- Hfilter in Hs. apply list_elem_of_In, filter_In in Hs as [_ Hs].
      by destruct (Skin.joints s). }
  exists scene, skins, (ascending roots).
  split; [done |]. split; [done |]. split; [by intros r; rewrite Hsame |].
  split; [| split; [done |]; split; [| done]].
  - assert (∃ r, r ∈ roots) as [r Hr].
    { destruct skins as [|skin skins].
      - exists node0. apply Hset. rewrite Hnodes. by left.
      - simpl in Hroots. apply and_then_Returns in Hroots as (root & Hroot & _).
        exists root. apply Hset. exists skin. by split; [left |]. }
    apply Hsame in Hr. intros Hempty. rewrite Hempty in Hr. by apply elem_of_nil in Hr.
  - apply Forall2_same_length_lookup. split; [by rewrite length_ascending |].
    intros k root joint Hroot Hjoint.
    destruct (Hall k root Hroot) as (node & joint' & Hnode & Hjoint' & Hmirror).
    simpl in Hjoint'. rewrite Hjoint in Hjoint'. injection Hjoint' as <-. eauto.
Qed.

End Skeleton.

(** ** Failed joint import, and names found back *)

Section Joints.
Variable m_model : Model.t.

(** X21. [ImportNode] returns [false] for one reason only: the node, or a
    node below it along child links, carries a matrix. *)
Theorem ImportNode_refuses_matrix (fuel : nat) (_node : Node.t) (_joint joint : Joint) :
  ImportNode m_model fuel _node _joint = Some (Returns (false, joint)) →
  ∃ n, below m_model _node n ∧ Node.matrix n ≠ [].
Proof.
  revert _node _joint joint.
  induction fuel as [|fuel IH]; intros _node _joint joint H; [done |].
  simpl in H.
  destruct (CreateNodeTransform _node (Joint_transform _joint))
    as [[[] transform]| |] eqn:Htransform; try done.
  - assert (Hfill : ∀ (todo : list Z) (i : nat) (children : list Joint),
      (∀ child, child ∈ todo → child ∈ Node.children _node) →
      (fix fill (todo : list Z) (i : nat) (children : list Joint)
          : option (outcome (bool * Joint)) :=
         match todo with
         | [] => Some (Returns (true, MkJoint (Node.name _node) transform children))
         | child :: todo =>
             match index (Model.nodes m_model) child, children !! i with
             | Returns child_node, Some child_joint =>
                 match ImportNode m_model fuel child_node child_joint with
                 | Some (Returns (true, child_joint)) =>
                     fill todo (S i) (<[i := child_joint]> children)
                 | Some (Returns (false, child_joint)) =>
                     Some (Returns (false,
                             MkJoint (Node.name _node) transform
                               (<[i := child_joint]> children)))
                 | Some Undefined => Some Undefined
                 | Some Throws => Some Throws
                 | None => None
                 end
             | Throws, _ => Some Throws
             | _, _ => Some Undefined
             end
         end) todo i children = Some (Returns (false, joint)) →
      ∃ n, below m_model _node n ∧ Node.matrix n ≠ []).
    { induction todo as [|child todo IHtodo]; intros i children Hsub Hloop; [done |].
      destruct (index (Model.nodes m_model) child) as [child_node| |] eqn:Hchild;
        [| by destruct (children !! i) | done].
      destruct (children !! i) as [child_joint|] eqn:Hi; [| done].
      destruct (ImportNode m_model fuel child_node child_joint)
        as [[[[] child_joint']| |]|] eqn:Himport; try done.
      - apply IHtodo in Hloop; [done |]. intros c Hc. apply Hsub. by right.
      - apply IH in Himport as (n & Hbelow & Hmatrix). exists n. split; [| done].
        eapply below_child; [| done | done]. apply Hsub. by left. }
    by apply Hfill in H.
  - exists _node. split; [constructor |].
    unfold CreateNodeTransform in Htransform.
    destruct (bool_decide (Node.matrix _node = [])) eqn:Hm; simpl in Htransform.
    + bind_inv Htransform as t1 H1. bind_inv Htransform as t2 H2.
      bind_inv Htransform as t3 H3. done.
    + by apply bool_decide_eq_false in Hm.
Qed.

End Joints.

Lemma find_by_c_str `{Named A} (l : list A) (k : nat) (a : A) :
  NoDup (c_str ∘ name_of <$> l) →
  l !! k = Some a →
  List.find (λ b, String.eqb (name_of b) (c_str (name_of a))) l
  = if bool_decide (c_str (name_of a) = name_of a) then Some a else None.
Proof.
  intros Hnodup Ha.
  destruct (List.find _ l) as [b|] eqn:Hfind.
  - apply find_some in Hfind as [Hb Hname]. apply String.eqb_eq in Hname.
    apply list_elem_of_In, list_elem_of_lookup in Hb as [j Hb].
    assert (j = k) as ->.
    { eapply NoDup_lookup; [exact Hnodup | |]; rewrite list_lookup_fmap.
      - rewrite Hb. simpl. by rewrite Hname, c_str_idemp.
      - by rewrite Ha. }
    rewrite Ha in Hb. injection Hb as <-. by rewrite bool_decide_eq_true_2.
  - rewrite bool_decide_eq_false_2; [done |]. intros Hname.
    eapply find_none in Hfind; [| by eapply list_elem_of_In, list_elem_of_lookup_2].
    simpl in Hfind. apply String.eqb_neq in Hfind. congruence.
Qed.

Lemma FixupNames_NoDup `{Named A} (fuel : nat) (_data fixed : list A) (_prefix_name : string) :
  (length _data ≤ fuel)%nat →
  FixupNames fuel _data _prefix_name = Some (true, fixed) →
  NoDup (c_str ∘ name_of <$> fixed) ∧ ∀ a, a ∈ fixed → c_str (name_of a) ≠ "".
Proof.
  intros Hfuel. unfold FixupNames.
  destruct (fixup_from_spec fuel _prefix_name _data ∅ O)
    as (fixed' & -> & _ & Hnodup & Hnames & _).
  { rewrite size_empty. lia. }
  intros [= <-]. split; [done |]. intros a Ha. by destruct (Hnames a Ha).
Qed.

(** X22. After [FixupNames] on the nodes, the C string of a node's name,
    which is the name its joint gets, finds back this very node, unless
    the name has a NUL inside: then no node at all is found. *)
Theorem FindNodeByName_after_FixupNames (m_model : Model.t) (fuel : nat)
    (nodes : list Node.t) (_prefix_name : string) (node : Node.t) :
  (length nodes ≤ fuel)%nat →
  FixupNames fuel nodes _prefix_name = Some (true, Model.nodes m_model) →
  node ∈ Model.nodes m_model →
  FindNodeByName m_model (c_str (Node.name node))
  = if bool_decide (c_str (Node.name node) = Node.name node) then Some node else None.
Proof.
  intros Hfuel Hfix [k Hk]%list_elem_of_lookup.
  apply FixupNames_NoDup in Hfix as [Hnodup _]; [| done].
  exact (find_by_c_str (Model.nodes m_model) k node Hnodup Hk).
Qed.

(** X23. After [FixupNames] on the animations, the names that
    [GetAnimationNames] returns are pairwise different and none is empty,
    and the search of [Import] for the name returned at position [k] finds
    the animation at position [k], unless its name has a NUL inside: then
    the search finds no animation. *)
Theorem GetAnimationNames_after_FixupNames (m_model : Model.t) (fuel : nat)
    (animations : list Animation.t) (_prefix_name : string) :
  (length animations ≤ fuel)%nat →
  FixupNames fuel animations _prefix_name = Some (true, Model.animations m_model) →
  NoDup (GetAnimationNames m_model)
  ∧ (∀ name, name ∈ GetAnimationNames m_model → name ≠ "")
  ∧ ∀ k name animation,
      GetAnimationNames m_model !! k = Some name →
      Model.animations m_model !! k = Some animation →
      List.find (λ a, String.eqb (Animation.name a) name) (Model.animations m_model)
      = if bool_decide (name = Animation.name animation) then Some animation else None.
Proof.
  intros Hfuel Hfix. apply FixupNames_NoDup in Hfix as [Hnodup Hnames]; [| done].
  split; [done |]. split.
  - intros name (a & -> & Ha)%list_elem_of_fmap. by apply Hnames.
  - intros k name animation Hname Ha. unfold GetAnimationNames in Hname.
    rewrite list_lookup_fmap, Ha in Hname. injection Hname as <-.
    exact (find_by_c_str (Model.animations m_model) k animation Hnodup Ha).
Qed.

(** ** The joint import and cycles *)

Lemma index_not_Throws {A} (l : list A) (i : Z) : index l i ≠ Throws.
Proof. unfold index. destruct (i <? 0); [done |]. by destruct (l !! Z.to_nat i). Qed.

Lemma bind_not_Throws {A B} (m : outcome A) (k : A → outcome B) :
  m ≠ Throws → (∀ a, k a ≠ Throws) → (m ≫= k) ≠ Throws.
Proof. destruct m as [a| |]; [intros _ Hk; apply Hk | done | done]. Qed.

Lemma Float3_of_not_Throws (v : list double) : Float3_of v ≠ Throws.
Proof.
  unfold Float3_of.
  repeat (apply bind_not_Throws; [apply index_not_Throws | intros ?]). done.
Qed.

Lemma Quaternion_of_not_Throws (v : list double) : Quaternion_of v ≠ Throws.
Proof.
  unfold Quaternion_of.
  repeat (apply bind_not_Throws; [apply index_not_Throws | intros ?]). done.
Qed.

Lemma CreateNodeTransform_not_Throws (_node : Node.t) (t0 : Transform.t) :
  CreateNodeTransform _node t0 ≠ Throws.
Proof.
  unfold CreateNodeTransform. destruct (negb _); [done |].
  repeat (apply bind_not_Throws;
          [destruct (negb _); [| done];
           apply bind_not_Throws;
           [apply Float3_of_not_Throws || apply Quaternion_of_not_Throws | done]
          | intros ?]).
  done.
Qed.

Lemma CreateNodeTransform_false_matrix (_node : Node.t) (t0 transform : Transform.t) :
  CreateNodeTransform _node t0 = Returns (false, transform) → Node.matrix _node ≠ [].
Proof.
  unfold CreateNodeTransform. intros H.
  destruct (bool_decide (Node.matrix _node = [])) eqn:Hm; simpl in H.
  - bind_inv H as t1 H1. bind_inv H as t2 H2. bind_inv H as t3 H3. done.
  - by apply bool_decide_eq_false in Hm.
Qed.

Lemma CreateNodeTransform_true_no_matrix (_node : Node.t) (t0 transform : Transform.t) :
  CreateNodeTransform _node t0 = Returns (true, transform) → Node.matrix _node = [].
Proof.
  unfold CreateNodeTransform. intros H.
  destruct (bool_decide (Node.matrix _node = [])) eqn:Hm; simpl in H; [| done].
  by apply bool_decide_eq_true in Hm.
Qed.

(** Without a matrix the transform handed in is not read. *)
Lemma CreateNodeTransform_no_matrix (_node : Node.t) (t0 t1 : Transform.t) :
  Node.matrix _node = [] → CreateNodeTransform _node t0 = CreateNodeTransform _node t1.
Proof. unfold CreateNodeTransform. intros ->. done. Qed.

Section JointImport.
Variable m_model : Model.t.

Lemma paths_end_within_S (depth : nat) :
  ∀ node, paths_end_within m_model depth node = true →
          paths_end_within m_model (S depth) node = true.
Proof.
  induction depth as [|depth IH]; intros node H; [done |].
  change (forallb (λ child,
            match index (Model.nodes m_model) child with
            | Returns child_node => paths_end_within m_model depth child_node
            | _ => true
            end) (Node.children node) = true) in H.
  change (forallb (λ child,
            match index (Model.nodes m_model) child with
            | Returns child_node => paths_end_within m_model (S depth) child_node
            | _ => true
            end) (Node.children node) = true).
  rewrite forallb_forall in H |- *. intros child Hchild. specialize (H child Hchild).
  destruct (index (Model.nodes m_model) child) as [child_node| |]; [| done | done].
  by apply IH.
Qed.

Lemma paths_end_within_child (depth : nat) (node child_node : Node.t) (child : Z) :
  child ∈ Node.children node →
  index (Model.nodes m_model) child = Returns child_node →
  paths_end_within m_model (S depth) node = true →
  paths_end_within m_model depth child_node = true.
Proof.
  intros Hchild Hindex H. simpl in H. rewrite forallb_forall in H.
  specialize (H child). rewrite Hindex in H. by apply H, list_elem_of_In.
Qed.

Lemma paths_end_within_below (node n : Node.t) :
  below m_model node n →
  ∀ depth, paths_end_within m_model depth node = true →
           paths_end_within m_model depth n = true.
Proof.
  induction 1 as [node | node child child_node n Hchild Hindex _ IH]; intros depth H;
    [done |].
  destruct depth as [|depth]; [done |].
  apply paths_end_within_S, IH. by eapply paths_end_within_child.
Qed.

(** From a node on a cycle the paths do not end. *)
Lemma on_cycle_paths (node n : Node.t) :
  below m_model node n → on_cycle m_model n →
  ∀ depth, paths_end_within m_model depth node = false.
Proof.
  intros Hbelow (child & child_node & Hchild & Hindex & Hback) depth.
  destruct (paths_end_within m_model depth node) eqn:H; [exfalso | done].
  apply (paths_end_within_below _ _ Hbelow) in H.
  induction depth as [|depth IH]; [done |].
  apply IH. eapply paths_end_within_below; [exact Hback |].
  by eapply paths_end_within_child.
Qed.

(** What [ImportNode] returns, result by result. *)
Lemma ImportNode_result (fuel : nat) :
  ∀ (_node : Node.t) (_joint : Joint) (result : outcome (bool * Joint)),
    ImportNode m_model fuel _node _joint = Some result →
    match result with
    | Returns (true, _) => paths_end_within m_model fuel _node = true
    | Returns (false, _) => ∃ n, below m_model _node n ∧ Node.matrix n ≠ []
    | Undefined =>
        ∃ n, below m_model _node n
             ∧ ((∃ t0, CreateNodeTransform n t0 = Undefined)
                ∨ ∃ child, child ∈ Node.children n
                           ∧ index (Model.nodes m_model) child = Undefined)
    | Throws => False
    end.
Proof.
  induction fuel as [|fuel IH]; intros _node _joint result H; [done |].
  simpl in H.
  destruct (CreateNodeTransform _node (Joint_transform _joint))
    as [[[] transform]| |] eqn:Htransform.
  - assert (Hfill : ∀ (todo : list Z) (i : nat) (children : list Joint),
      (∀ child, child ∈ todo → child ∈ Node.children _node) →
      length children = (i + length todo)%nat →
      (fix fill (todo : list Z) (i : nat) (children : list Joint)
          : option (outcome (bool * Joint)) :=
         match todo with
         | [] => Some (Returns (true, MkJoint (Node.name _node) transform children))
         | child :: todo =>
             match index (Model.nodes m_model) child, children !! i with
             | Returns child_node, Some child_joint =>
                 match ImportNode m_model fuel child_node child_joint with
                 | Some (Returns (true, child_joint)) =>
                     fill todo (S i) (<[i := child_joint]> children)
                 | Some (Returns (false, child_joint)) =>
                     Some (Returns (false,
                             MkJoint (Node.name _node) transform
                               (<[i := child_joint]> children)))
                 | Some Undefined => Some Undefined
                 | Some Throws => Some Throws
                 | None => None
                 end
             | Throws, _ => Some Throws
             | _, _ => Some Undefined
             end
         end) todo i children = Some result →
      match result with
      | Returns (true, _) =>
          forallb (λ child,
              match index (Model.nodes m_model) child with
              | Returns child_node => paths_end_within m_model fuel child_node
              | _ => true
              end) todo = true
      | Returns (false, _) => ∃ n, below m_model _node n ∧ Node.matrix n ≠ []
      | Undefined =>
          ∃ n, below m_model _node n
               ∧ ((∃ t0, CreateNodeTransform n t0 = Undefined)
                  ∨ ∃ child, child ∈ Node.children n
                             ∧ index (Model.nodes m_model) child = Undefined)
      | Throws => False
      end).
    { induction todo as [|child todo IHtodo]; intros i children Hsub Hlen Hloop.
      - by injection Hloop as <-.
      - assert (Hin : child ∈ Node.children _node) by (apply Hsub; by left).
        destruct (index (Model.nodes m_model) child) as [child_node| |] eqn:Hchild.
        + destruct (lookup_lt_is_Some_2 children i) as [child_joint Hi];
            [simpl in Hlen; lia |].
          rewrite Hi in Hloop.
          destruct (ImportNode m_model fuel child_node child_joint)
            as [[[[] child_joint']| |]|] eqn:Himport; [| | | | done].
          * apply IH in Himport. simpl in Himport.
            apply IHtodo in Hloop;
              [| intros c Hc; apply Hsub; by right
               | rewrite length_insert; simpl in Hlen; lia].
            destruct result as [[[] joint]| |]; [| done ..].
            simpl. by rewrite Hchild, Himport.
          * injection Hloop as <-. apply IH in Himport as (n & Hbelow & Hmatrix).
            exists n. split; [by eapply below_child | done].
          * injection Hloop as <-. apply IH in Himport as (n & Hbelow & Hwhy).
            exists n. split; [by eapply below_child | done].
          * by apply IH in Himport.
        + assert (result = Undefined) as -> by (destruct (children !! i); congruence).
          exists _node. split; [constructor |]. right. by exists child.
        + by apply index_not_Throws in Hchild. }
    apply Hfill in H; [| done | by rewrite length_resized].
    destruct result as [[[] joint]| |]; done.
  - injection H as <-. exists _node. split; [constructor |].
    by eapply CreateNodeTransform_false_matrix.
  - injection H as <-. exists _node. split; [constructor |]. left. eauto.
  - by apply CreateNodeTransform_not_Throws in Htransform.
Qed.

(** C2, as the code has it. [ImportNode] has no guard against cycles: it
    keeps no record of the nodes on the current path and never fails for a
    node met again. On a node from which every path of child links ends it
    terminates. Whenever it returns, it returns [true] only if every path
    of child links from the node ends, [false] only if the node or a node
    below it carries a matrix, and it leaves the defined behaviour only at
    a node, the node or one below it, whose translation, rotation or scale
    has too few numbers or which lists a child outside the document. Hence
    where a node on a cycle of child links is reached, and every node
    reached has no matrix, a readable transform and only children of the
    document, it recurses without end: it returns nothing, no error
    either. *)
Theorem ImportNode_terminates_without_cycle (_node : Node.t) :
  (∀ depth fuel _joint,
     paths_end_within m_model depth _node = true → (depth ≤ fuel)%nat →
     ∃ result, ImportNode m_model fuel _node _joint = Some result)
  ∧ (∀ fuel _joint result,
       ImportNode m_model fuel _node _joint = Some result →
       match result with
       | Returns (true, _) => paths_end_within m_model fuel _node = true
       | Returns (false, _) => ∃ n, below m_model _node n ∧ Node.matrix n ≠ []
       | Undefined =>
           ∃ n, below m_model _node n
                ∧ ((∃ t0, CreateNodeTransform n t0 = Undefined)
                   ∨ ∃ child, child ∈ Node.children n
                              ∧ index (Model.nodes m_model) child = Undefined)
       | Throws => False
       end)
  ∧ (∀ n,
       below m_model _node n → on_cycle m_model n →
       (∀ n', below m_model _node n' →
              ∃ transform,
                CreateNodeTransform n' Transform.identity = Returns (true, transform)) →
       (∀ n' child, below m_model _node n' → child ∈ Node.children n' →
                    ∃ child_node, index (Model.nodes m_model) child = Returns child_node) →
       ∀ fuel _joint, ImportNode m_model fuel _node _joint = None).
Proof.
  split; [| split].
  - intros depth fuel _joint Hpaths Hfuel. by eapply ImportNode_returns.
  - intros fuel _joint result. apply ImportNode_result.
  - intros n Hbelow Hcycle Hposed Hchildren fuel _joint.
    destruct (ImportNode m_model fuel _node _joint) as [result|] eqn:H; [exfalso | done].
    apply ImportNode_result in H. destruct result as [[[] joint]| |].
    + by rewrite (on_cycle_paths _ _ Hbelow Hcycle) in H.
    + destruct H as (n' & Hn' & Hmatrix). destruct (Hposed n' Hn') as [transform Ht].
      by apply CreateNodeTransform_true_no_matrix in Ht.
    + destruct H as (n' & Hn' & [[t0 Hundefined] | (child & Hchild & Hindex)]).
      * destruct (Hposed n' Hn') as [transform Ht].
        rewrite (CreateNodeTransform_no_matrix n' t0 Transform.identity) in Hundefined
          by (by eapply CreateNodeTransform_true_no_matrix).
        congruence.
      * destruct (Hchildren n' child Hn' Hchild) as [child_node Hnode]. congruence.
    + done.
Qed.

End JointImport.

(** * The worked inputs, with the reference library *)

(** ** Step sampler *)

(** C8 at an output accessor without elements. *)
Lemma StepNumKeyframes_wraps_at_zero_witness :
  Accessor.count no_values = 0
  ∧ BufferView (sizeof (V := Float3)) no_values = Some []
  ∧ StepNumKeyframes no_values = 2 ^ 64 - 1
  ∧ SampleStepChannel (V := Float3) no_values [] [] = Throws.
Proof.
  split; [reflexivity |]. split; [reflexivity |].
  apply (StepNumKeyframes_wraps_at_zero (V := Float3) no_values [] [] []); reflexivity.
Defined.

(** With the keys at 0 s and 1 s the three times do increase strictly. *)
Example step_times_early :
  ∃ keys,
    SampleStepChannel (V := Float3) late_step_output [F32.of_Z 0; F32.of_Z 1] []
    = Returns (true, keys)
    ∧ time <$> keys = [F32.of_Z 0; (F32.of_Z 1 - eps)%f32; F32.of_Z 1]
    ∧ strictly_increasing (time <$> keys) = true.
Proof. eexists. split; [| split]; vm_compute; reflexivity. Qed.

(** C3. A step channel with keys at 0 s and 64 s: [eps] is far below the
    distance between the two timestamps, and the sampler gives the
    [2 * 2 - 1 = 3] keyframes, but [64 - eps] rounds to 64 in binary32, so
    the times of the track are 0, 64, 64, which do not increase strictly;
    the import of the channel then fails the validation of the animation. *)
Theorem SampleStepChannel_times_collide :
  ∃ keys,
    SampleStepChannel (V := Float3) late_step_output late_step_timestamps []
    = Returns (true, keys)
    ∧ F32.ltb eps (F32.of_Z 64 - F32.of_Z 0)%f32 = true
    ∧ time <$> keys = [F32.of_Z 0; F32.of_Z 64; F32.of_Z 64]
    ∧ strictly_increasing (time <$> keys) = false
    ∧ ∃ a, Import late_step_model "walk" ["J0"] F32.thirty fresh_animation
           = Returns (false, a)
           ∧ translations <$> RawAnimation.tracks a = [keys].
Proof.
  eexists. split; [vm_compute; reflexivity |].
  split; [vm_compute; reflexivity |].
  split; [vm_compute; reflexivity |].
  split; [vm_compute; reflexivity |].
  eexists. split; vm_compute; reflexivity.
Qed.

(** ** Cubic spline sampler *)

(** C1. A cubic spline channel with keys at 0 s, 1 s and 2 s, sampled at
    1 Hz over its span of 2 s. At the output time 2 s the key search stays
    at key 0, whose segment [0 s, 1 s] does not contain the time; the
    interpolation parameter is 2, outside [0, 1], and the keyframe written
    has the value -4 in x where the authored key at 2 s has 3. *)
Theorem SampleCubicSplineChannel_keeps_first_segment :
  CubicSplineTurn (V := Float3) (Accessor.payload spline_output) spline_timestamps
    (F32.of_Z 1) 3 2 0
  = Returns (0, F32.of_Z 2,
             {| time := F32.of_Z 2;
                value := {| x := F32.of_Z (-4); y := F32.zero; z := F32.zero |} |})
  ∧ F32.leb (F32.of_Z 2) F32.one = false
  ∧ ∃ keys,
      SampleCubicSplineChannel (V := Float3) spline_output spline_timestamps []
        (F32.of_Z 1) (F32.of_Z 2)
      = Returns (true, keys)
      ∧ keys !! 2%nat
        = Some {| time := F32.of_Z 2;
                  value := {| x := F32.of_Z (-4); y := F32.zero; z := F32.zero |} |}
      ∧ load (V := Float3) (Accessor.payload spline_output) (2 * 3 + 1)
        = Returns {| x := F32.of_Z 3; y := F32.zero; z := F32.zero |}.
Proof.
  split; [vm_compute; reflexivity |].
  split; [vm_compute; reflexivity |].
  eexists. split; [vm_compute; reflexivity |].
  split; vm_compute; reflexivity.
Qed.

(** ** Channel dispatch *)

(** C6 at a channel whose sampler has the empty interpolation string. *)
Lemma unsupported_channel_is_hard_failure_witness :
  ¬ (supported_interpolation "" ∧ supported_target_path "translation")
  ∧ (∃ _duration',
       SampleAnimationChannel (one_channel_model "" "translation")
         {| AnimationSampler.input := 0; AnimationSampler.output := 1;
            AnimationSampler.interpolation := "" |}
         "translation" F32.thirty F32.zero JointTrack_empty
       = Returns (false, _duration', JointTrack_empty)).
Proof.
  assert (Hno : ¬ (supported_interpolation "" ∧ supported_target_path "translation")).
  { intros [[H | [H | H]] _]; discriminate H. }
  split; [exact Hno |].
  destruct (unsupported_channel_is_hard_failure (one_channel_model "" "translation")
              (walk_animation "" "translation")
              {| AnimationChannel.sampler := 0; AnimationChannel.target_node := 0;
                 AnimationChannel.target_path := "translation" |}
              []
              {| AnimationSampler.input := 0; AnimationSampler.output := 1;
                 AnimationSampler.interpolation := "" |}
              (float_accessor TINYGLTF_TYPE_SCALAR 2 [double_of_bits 1 0]
                 [F32.of_Z 0; F32.of_Z 1])
              (float_accessor TINYGLTF_TYPE_VEC3 2 [] (vec3 0 0 0 ++ vec3 1 0 0))
              (double_of_bits 1 0) F32.thirty F32.zero JointTrack_empty
              eq_refl eq_refl eq_refl eq_refl Hno) as [[d' [Hd' _]] _].
  exists d'. exact Hd'.
Defined.

(** ** Animation import *)

(** The end-to-end example: the duration is 1 s, J1 has the two authored
    translation keys and single rotation and scale keys, J0 and J2 have
    single keys throughout. *)
Example chain_walk_tracks :
  RawAnimation.duration chain_walk_animation = F32.one
  ∧ (λ track, (length (translations track), length (rotations track),
               length (scales track)))
    <$> RawAnimation.tracks chain_walk_animation
    = [(1, 1, 1); (2, 1, 1); (1, 1, 1)]%nat
  ∧ (λ track, time <$> translations track) <$> RawAnimation.tracks chain_walk_animation
    = [[F32.zero]; [F32.zero; F32.one]; [F32.zero]].
Proof. split; [| split]; vm_compute; reflexivity. Qed.

(** C4 as stated fails on an animation object that was used before:
    [Import] resizes the vector of tracks and does not clear it, so J0,
    which no channel targets, keeps the rotation key it had, a half turn,
    where the rest pose of its node is the identity. *)
Lemma reused_animation_keeps_its_keys :
  Import chain_walk_model "walk" chain_skeleton F32.thirty reused_animation
  = Returns (true, reused_walk_animation)
  ∧ chain_skeleton !! 0%nat = Some "J0"
  ∧ channels_of chain_walk_model (walk_animation_on 1) "J0" = []
  ∧ FindNodeByName chain_walk_model "J0" = Some (plain_node "J0" [1])
  ∧ rotations <$> RawAnimation.tracks reused_walk_animation !! 0%nat = Some [old_key]
  ∧ old_key
    ≠ {| time := F32.zero;
         value := Transform.rotation (rest_pose (plain_node "J0" [1])) |}.
Proof.
  split; [vm_compute; reflexivity |]. split; [reflexivity |]. split; [reflexivity |].
  split; [reflexivity |]. split; [reflexivity |]. discriminate.
Qed.

(** The rest pose of the posed node, number by number. *)
Example posed_leaf_rest_pose :
  rest_pose posed_leaf
  = {| Transform.translation := {| x := F32.of_Z 1; y := F32.of_Z 2; z := F32.of_Z 3 |};
       Transform.rotation :=
         {| qx := F32.of_Z 1; qy := F32.of_Z 0; qz := F32.of_Z 0; qw := F32.of_Z 0 |};
       Transform.scale := {| x := F32.of_Z 2; y := F32.of_Z 2; z := F32.of_Z 2 |} |}.
Proof. reflexivity. Qed.

(** C4 at the end-to-end example with a posed J2, which has no channel:
    its three keys are (1, 2, 3), the half turn and (2, 2, 2). *)
Lemma unauthored_joint_gets_rest_pose_witness :
  Import posed_walk_model "walk" chain_skeleton F32.thirty fresh_animation
  = Returns (true, posed_walk_animation)
  ∧ RawAnimation.tracks posed_walk_animation !! 2%nat
    = Some {| translations :=
                [{| time := F32.zero;
                    value := {| x := F32.of_Z 1; y := F32.of_Z 2; z := F32.of_Z 3 |} |}];
              rotations :=
                [{| time := F32.zero;
                    value := {| qx := F32.of_Z 1; qy := F32.of_Z 0; qz := F32.of_Z 0;
                                qw := F32.of_Z 0 |} |}];
              scales :=
                [{| time := F32.zero;
                    value := {| x := F32.of_Z 2; y := F32.of_Z 2; z := F32.of_Z 2 |} |}] |}
  ∧ ∃ node,
      FindNodeByName posed_walk_model "J2" = Some node
      ∧ RawAnimation.tracks posed_walk_animation !! 2%nat
        = Some {| translations :=
                    [{| time := F32.zero;
                        value := Transform.translation (rest_pose node) |}];
                  rotations :=
                    [{| time := F32.zero; value := Transform.rotation (rest_pose node) |}];
                  scales :=
                    [{| time := F32.zero; value := Transform.scale (rest_pose node) |}] |}.
Proof.
  assert (H : Import posed_walk_model "walk" chain_skeleton F32.thirty fresh_animation
              = Returns (true, posed_walk_animation)) by (vm_compute; reflexivity).
  split; [exact H |]. split; [reflexivity |].
  apply (unauthored_joint_gets_rest_pose posed_walk_model "walk" chain_skeleton
           F32.thirty fresh_animation posed_walk_animation
           (walk_animation_on 1) 2 "J2" H); [| reflexivity ..].
  intros track Htrack. discriminate Htrack.
Defined.

(** C5 as stated fails where every declared maximum is negative: the only
    sampled channel declares -1, the import succeeds, and the duration is
    0, which is not the maximum of the declared maxima. *)
Lemma negative_span_duration_is_not_maximum :
  ∃ a',
    Import negative_span_model "walk" ["J0"] F32.thirty fresh_animation
    = Returns (true, a')
    ∧ Forall2 (λ channel x,
          declared_duration negative_span_model (walk_animation "LINEAR" "translation")
            channel = Returns x)
        (sampled_channels negative_span_model (walk_animation "LINEAR" "translation")
           ["J0"])
        [F32.of_Z (-1)]
    ∧ RawAnimation.duration a' = F32.zero
    ∧ ¬ maximal_duration [F32.of_Z (-1)] (RawAnimation.duration a').
Proof.
  eexists. split; [vm_compute; reflexivity |].
  split; [repeat constructor |].
  split; [reflexivity |].
  simpl. intros [Hin _]. apply list_elem_of_singleton in Hin. discriminate Hin.
Qed.

(** C5 at the end-to-end example: one channel, which declares 1 s. *)
Lemma Import_duration_is_raised_maximum_witness :
  Import chain_walk_model "walk" chain_skeleton F32.thirty fresh_animation
  = Returns (true, chain_walk_animation)
  ∧ ∃ ds,
      Forall2 (λ channel x,
          declared_duration chain_walk_model (walk_animation_on 1) channel = Returns x)
        (sampled_channels chain_walk_model (walk_animation_on 1) chain_skeleton) ds
      ∧ RawAnimation.duration chain_walk_animation = foldl raise F32.zero ds
      ∧ (∀ x, x ∈ ds → F32.ltb (RawAnimation.duration chain_walk_animation) x = false)
      ∧ (RawAnimation.duration chain_walk_animation = F32.zero
         ∨ RawAnimation.duration chain_walk_animation ∈ ds)
      ∧ (sampled_channels chain_walk_model (walk_animation_on 1) chain_skeleton = [] →
         RawAnimation.duration chain_walk_animation = F32.zero)
      ∧ F32.leb F32.zero (RawAnimation.duration chain_walk_animation) = true.
Proof.
  assert (H : Import chain_walk_model "walk" chain_skeleton F32.thirty fresh_animation
              = Returns (true, chain_walk_animation)) by (vm_compute; reflexivity).
  split; [exact H |].
  apply (Import_duration_is_raised_maximum chain_walk_model "walk" chain_skeleton
           F32.thirty fresh_animation chain_walk_animation (walk_animation_on 1) H).
  reflexivity.
Defined.

(** ** Skin roots *)

(** C7 at the chain J0 <- J1 <- J2, its joints listed as J2, J0, J1 and
    as J1, J2, J0. *)
Lemma FindSkinRootJointIndex_order_invariant_witness :
  skin_tree chain_model [2; 0; 1] 0 = true
  ∧ [1; 2; 0] ≡ₚ [2; 0; 1]
  ∧ FindSkinRootJointIndex chain_model 4 {| Skin.joints := [1; 2; 0]; Skin.skeleton := -1 |}
    = Some (Returns 0).
Proof.
  assert (Hperm : [1; 2; 0] ≡ₚ [2; 0; 1]).
  { etrans; [apply Permutation_swap |]. apply Permutation_skip, Permutation_swap. }
  split; [reflexivity |]. split; [exact Hperm |].
  apply (FindSkinRootJointIndex_order_invariant chain_model
           {| Skin.joints := [2; 0; 1]; Skin.skeleton := -1 |} 0 [1; 2; 0]
           eq_refl eq_refl Hperm 4%nat).
  simpl. lia.
Defined.

(** ** Joint import *)

(** C2 as stated fails on a node that is its own child: whatever the fuel,
    [ImportNode] does not return, neither a joint nor a failure. *)
Lemma ImportNode_runs_forever_on_cycle :
  ¬ ∃ fuel result, ImportNode loop_model fuel loop_node Joint_default = Some result.
Proof.
  assert (H : ∀ fuel _joint, ImportNode loop_model fuel loop_node _joint = None).
  { induction fuel as [|fuel IH]; intros _joint; [reflexivity |].
    simpl. destruct (resized 1 Joint_default (Joint_children _joint))
             as [|child_joint children] eqn:Hresized.
    - unfold resized in Hresized. destruct (Joint_children _joint); discriminate Hresized.
    - simpl. change (plain_node "J0" [0]) with loop_node. by rewrite IH. }
  intros (fuel & result & Hresult). by rewrite H in Hresult.
Qed.

(** The chain imports as J0 with the child J1 with the child J2. *)
Example chain_joints :
  ImportNode chain_model 3 (plain_node "J0" [1]) Joint_default
  = Some (Returns (true,
      MkJoint "J0" Transform.identity
        [MkJoint "J1" Transform.identity [MkJoint "J2" Transform.identity []]])).
Proof. reflexivity. Qed.

(** A cycle is no failure of its own: where J0 lists J1, which carries a
    matrix, before itself, [ImportNode] returns [false] for the matrix and
    never comes to the cycle. *)
Example ImportNode_fails_for_matrix_before_cycle :
  on_cycle matrix_loop_model (plain_node "J0" [1; 0])
  ∧ ∃ joint,
      ImportNode matrix_loop_model 2 (plain_node "J0" [1; 0]) Joint_default
      = Some (Returns (false, joint)).
Proof.
  split.
  - exists 0, (plain_node "J0" [1; 0]). split; [by right; left |].
    split; [reflexivity | constructor].
  - eexists. reflexivity.
Qed.

(** C2 on the chain J0 <- J1 <- J2, whose longest path has three nodes,
    and on the node that is its own child. *)
Lemma ImportNode_terminates_without_cycle_witness :
  paths_end_within chain_model 3 (plain_node "J0" [1]) = true
  ∧ (∃ result, ImportNode chain_model 3 (plain_node "J0" [1]) Joint_default = Some result)
  ∧ on_cycle loop_model loop_node
  ∧ ∀ fuel _joint, ImportNode loop_model fuel loop_node _joint = None.
Proof.
  assert (Hcycle : on_cycle loop_model loop_node).
  { exists 0, loop_node. split; [by left |]. split; [reflexivity | constructor]. }
  assert (Hloop : ∀ n, below loop_model loop_node n → n = loop_node).
  { assert (Hfrom : ∀ node n, below loop_model node n → node = loop_node → n = loop_node).
    { induction 1 as [| node child child_node n Hchild Hindex _ IH]; [done |].
      intros ->. apply list_elem_of_singleton in Hchild as ->.
      injection Hindex as <-. by apply IH. }
    intros n Hn. by eapply Hfrom. }
  split; [reflexivity |]. split; [| split; [exact Hcycle |]].
  - apply (proj1 (ImportNode_terminates_without_cycle chain_model (plain_node "J0" [1]))
             3%nat 3%nat Joint_default); [reflexivity | lia].
  - apply (proj2 (proj2 (ImportNode_terminates_without_cycle loop_model loop_node))
             loop_node); [constructor | exact Hcycle | |].
    + intros n Hn. apply Hloop in Hn as ->. eexists. reflexivity.
    + intros n child Hn Hchild. apply Hloop in Hn as ->.
      apply list_elem_of_singleton in Hchild as ->. eexists. reflexivity.
Defined.

(** * Further worked inputs, with the reference library *)

(** X1 at a channel of two keys. *)
Lemma SampleLinearChannel_copies_witness :
  SampleLinearChannel (V := Float3) two_key_output two_key_timestamps []
  = Returns (true, [{| time := F32.of_Z 0; value := two_key_value 0 |};
                    {| time := F32.of_Z 1; value := two_key_value 1 |}]).
Proof.
  apply (SampleLinearChannel_copies (V := Float3) two_key_output
           (Accessor.payload two_key_output) two_key_timestamps 2
           two_key_time two_key_value eq_refl).
  - vm_compute. split; discriminate.
  - reflexivity.
  - intros i Hi. assert (i = 0 ∨ i = 1) as [-> | ->] by lia; split; reflexivity.
Defined.

(** X2 at the channel of two keys. *)
Lemma SampleStepChannel_layout_witness :
  ∃ keys,
    SampleStepChannel (V := Float3) two_key_output two_key_timestamps []
    = Returns (true, keys)
    ∧ Z.of_nat (length keys) = 2 * 2 - 1
    ∧ (∀ i, 0 ≤ i < 2 →
         keys !! Z.to_nat (2 * i)
         = Some {| time := two_key_time i; value := two_key_value i |}
         ∧ (i < 2 - 1 →
            keys !! Z.to_nat (2 * i + 1)
            = Some {| time := (two_key_time (i + 1) - eps)%f32;
                      value := two_key_value i |})).
Proof.
  apply (SampleStepChannel_layout (V := Float3) two_key_output
           (Accessor.payload two_key_output) two_key_timestamps 2
           two_key_time two_key_value eq_refl).
  - lia.
  - intros i Hi. assert (i = 0 ∨ i = 1) as [-> | ->] by lia; split; reflexivity.
  - reflexivity.
  - vm_compute. discriminate.
Defined.

(** X3 at the timestamps 5, 3, 1 and the output time 2: the search passes
    the keys 0 and 1 and stops at key 2. *)
Lemma seek_key_spec_witness :
  seek_key (F32.of_Z 2) 3 [F32.of_Z 5; F32.of_Z 3; F32.of_Z 1] 0 = Returns 2
  ∧ 0 ≤ 2
  ∧ (∀ j t_j, (j < Z.to_nat (2 - 0))%nat →
       [F32.of_Z 5; F32.of_Z 3; F32.of_Z 1] !! j = Some t_j →
       F32.gtb t_j (F32.of_Z 2) = true ∧ 0 + Z.of_nat j < 3 - 1)
  ∧ ∃ t_found,
      [F32.of_Z 5; F32.of_Z 3; F32.of_Z 1] !! Z.to_nat (2 - 0) = Some t_found
      ∧ (F32.gtb t_found (F32.of_Z 2) = false ∨ 3 - 1 ≤ 2).
Proof.
  assert (H : seek_key (F32.of_Z 2) 3 [F32.of_Z 5; F32.of_Z 3; F32.of_Z 1] 0 = Returns 2)
    by reflexivity.
  split; [exact H |].
  apply (seek_key_spec (F32.of_Z 2) 3 [F32.of_Z 5; F32.of_Z 3; F32.of_Z 1] 0 2);
    [lia | lia | exact H].
Defined.

(** X4 at the cubic spline channel of three keys, sampled at 1 Hz. *)
Lemma SampleCubicSplineChannel_layout_witness :
  F64.to_size_t
    (F64.add (F64.floor (F64.of_float (F32.of_Z 2 * F32.of_Z 1)%f32)) F64.one)
  = Some (Z.of_nat (length spline_keys))
  ∧ ∀ i key, spline_keys !! i = Some key →
      time key = (F32.of_Z (Z.of_nat i) / F32.of_Z 1)%f32.
Proof.
  apply (SampleCubicSplineChannel_layout (V := Float3) spline_output
           (Accessor.payload spline_output) spline_timestamps [] spline_keys
           (F32.of_Z 1) (F32.of_Z 2) true).
  - reflexivity.
  - vm_compute. reflexivity.
Defined.

(** X5 at a linear translation channel: the rotation and scale keys of the
    track stay. *)
Lemma SampleAnimationChannel_frame_witness :
  SampleAnimationChannel (one_channel_model "LINEAR" "translation")
    (walk_sampler "LINEAR") "translation" F32.thirty F32.zero a_track
  = Returns (true, walked_duration, walked_track)
  ∧ ("translation" ≠ "translation" → translations walked_track = translations a_track)
  ∧ ("translation" ≠ "rotation" → rotations walked_track = rotations a_track)
  ∧ ("translation" ≠ "scale" → scales walked_track = scales a_track).
Proof.
  assert (H : SampleAnimationChannel (one_channel_model "LINEAR" "translation")
                (walk_sampler "LINEAR") "translation" F32.thirty F32.zero a_track
              = Returns (true, walked_duration, walked_track)) by reflexivity.
  split; [exact H |].
  exact (SampleAnimationChannel_frame (one_channel_model "LINEAR" "translation")
           (walk_sampler "LINEAR") "translation" F32.thirty F32.zero walked_duration
           a_track walked_track true H).
Defined.

(** X6 at a rotation channel whose output accessor holds elements of three
    floats: the channel is refused, the duration is raised to the declared
    maximum of 1 s all the same, the track stays. *)
Lemma SampleAnimationChannel_format_mismatch_witness :
  SampleAnimationChannel (one_channel_model "LINEAR" "rotation") (walk_sampler "LINEAR")
    "rotation" F32.thirty F32.zero a_track
  = Returns (false, raise F32.zero (F32.of_double (double_of_bits 1 0)), a_track).
Proof.
  apply (SampleAnimationChannel_format_mismatch (one_channel_model "LINEAR" "rotation")
           (walk_sampler "LINEAR") "rotation" F32.thirty F32.zero a_track
           (float_accessor TINYGLTF_TYPE_SCALAR 2 [double_of_bits 1 0]
              [F32.of_Z 0; F32.of_Z 1])
           (float_accessor TINYGLTF_TYPE_VEC3 2 [] (vec3 0 0 0 ++ vec3 1 0 0))
           (double_of_bits 1 0)).
  - reflexivity.
  - reflexivity.
  - reflexivity.
  - right. reflexivity.
Defined.

(** X7 at the end-to-end example, whose one channel is on node 1. *)
Lemma channels_per_joint_groups_witness :
  ∃ per_joint,
    channels_per_joint chain_walk_model (Animation.channels (walk_animation_on 1))
    = Returns per_joint
    ∧ ∀ joint_name,
        default [] (per_joint !! joint_name)
        = List.filter (targets chain_walk_model joint_name)
            (Animation.channels (walk_animation_on 1)).
Proof.
  apply (channels_per_joint_groups chain_walk_model (walk_animation_on 1)).
  intros channel Hin _. apply list_elem_of_singleton in Hin as ->.
  eexists. reflexivity.
Defined.

(** X8 at the end-to-end example. *)
Lemma Import_tracks_per_joint_witness :
  Import chain_walk_model "walk" chain_skeleton F32.thirty fresh_animation
  = Returns (true, chain_walk_animation)
  ∧ RawAnimation.name chain_walk_animation = "walk"
  ∧ length (RawAnimation.tracks chain_walk_animation) = length chain_skeleton.
Proof.
  assert (H : Import chain_walk_model "walk" chain_skeleton F32.thirty fresh_animation
              = Returns (true, chain_walk_animation)) by reflexivity.
  split; [exact H |].
  exact (Import_tracks_per_joint chain_walk_model "walk" chain_skeleton F32.thirty
           fresh_animation chain_walk_animation true H).
Defined.

(** X9 at the root joint of the end-to-end example, which no channel
    targets. *)
Lemma Import_tracks_nonempty_witness :
  RawAnimation.tracks chain_walk_animation !! 0%nat = Some chain_root_track
  ∧ translations chain_root_track ≠ []
  ∧ rotations chain_root_track ≠ []
  ∧ scales chain_root_track ≠ [].
Proof.
  split; [reflexivity |].
  apply (Import_tracks_nonempty chain_walk_model "walk" chain_skeleton F32.thirty
           fresh_animation chain_walk_animation 0 chain_root_track).
  - reflexivity.
  - reflexivity.
Defined.

(** X10 at a node with a translation, a rotation and a scale of its own. *)
Lemma bind_pose_keys_match_transform_witness :
  CreateTranslationBindPoseKey posed_node
  = Returns {| time := F32.zero; value := Transform.translation posed_transform |}
  ∧ CreateRotationBindPoseKey posed_node
    = Returns {| time := F32.zero; value := Transform.rotation posed_transform |}
  ∧ CreateScaleBindPoseKey posed_node
    = Returns {| time := F32.zero; value := Transform.scale posed_transform |}.
Proof.
  apply (bind_pose_keys_match_transform posed_node Transform.identity posed_transform).
  reflexivity.
Defined.

(** X11 at the chain J0 <- J1 <- J2, its joints listed as J2, J0, J1. *)
Lemma FindSkinRootJointIndex_is_parentless_joint_witness :
  0 ∈ [2; 0; 1] ∧ ∀ p, p ∈ [2; 0; 1] → is_child chain_model p 0 = false.
Proof.
  apply (FindSkinRootJointIndex_is_parentless_joint chain_model 4
           {| Skin.joints := [2; 0; 1]; Skin.skeleton := -1 |} 0).
  - reflexivity.
  - discriminate.
  - reflexivity.
Defined.

(** X12 at the chain J0 <- J1 <- J2. *)
Lemma ImportNode_mirrors_witness :
  mirrors chain_model 3 (plain_node "J0" [1]) chain_joint_tree.
Proof.
  apply (ImportNode_mirrors chain_model 3 (plain_node "J0" [1]) Joint_default
           chain_joint_tree).
  reflexivity.
Defined.

(** X13 at five nodes, one without a name and three named "a". *)
Lemma FixupNames_unique_names_witness :
  ∃ fixed,
    FixupNames 5 unnamed_nodes "node" = Some (true, fixed)
    ∧ length fixed = length unnamed_nodes
    ∧ NoDup (c_str ∘ name_of <$> fixed)
    ∧ (∀ a, a ∈ fixed → c_str (name_of a) ≠ "")
    ∧ Forall2 (λ a a', a' = a ∨ a' = set_name (name_of a') a) unnamed_nodes fixed.
Proof.
  apply (FixupNames_unique_names 5 "node" unnamed_nodes). simpl. lia.
Defined.

(** X14 at the three nodes of the chain. *)
Lemma FixupNames_keeps_good_names_witness :
  FixupNames 3 (Model.nodes chain_model) "node" = Some (true, Model.nodes chain_model).
Proof.
  apply (FixupNames_keeps_good_names 3 "node" (Model.nodes chain_model)).
  - simpl. lia.
  - apply (bool_decide_unpack (NoDup (c_str ∘ name_of <$> Model.nodes chain_model))).
    vm_compute. exact I.
  - apply Forall_forall. repeat constructor; discriminate.
Defined.

(** X15 at the segment from (1, 2, 3) to (-4, 0, 7) with the tangents
    (5, 5, 5) and (0, -1, 2). *)
Lemma SampleHermiteSpline_endpoints_witness :
  Float3_eqb (SampleHermiteSpline F32.zero (f3 1 2 3) (f3 5 5 5) (f3 (-4) 0 7) (f3 0 (-1) 2))
    (f3 1 2 3) = true
  ∧ Float3_eqb (SampleHermiteSpline F32.one (f3 1 2 3) (f3 5 5 5) (f3 (-4) 0 7) (f3 0 (-1) 2))
      (f3 (-4) 0 7) = true.
Proof.
  apply (SampleHermiteSpline_endpoints (f3 1 2 3) (f3 5 5 5) (f3 (-4) 0 7) (f3 0 (-1) 2));
    reflexivity.
Defined.

(** ** Skins, roots and names *)

(** X16 at the chain: of its two skins the one with joints is returned. *)
Lemma GetSkinsForScene_reachable_witness :
  GetSkinsForScene chain_document 4 chain_scene = Some (Returns [chain_skin])
  ∧ sublist [chain_skin] (Document.skins chain_document)
  ∧ ∀ skin,
      skin ∈ [chain_skin] ↔
      skin ∈ Document.skins chain_document
      ∧ ∃ joint joints,
          Skin.joints skin = joint :: joints
          ∧ reachable chain_model (Scene.nodes chain_scene) joint.
Proof.
  assert (H : GetSkinsForScene chain_document 4 chain_scene = Some (Returns [chain_skin]))
    by (vm_compute; reflexivity).
  split; [exact H |].
  exact (GetSkinsForScene_reachable chain_document 4 chain_scene [chain_skin] H).
Defined.

(** X17 at the node that is its own child. *)
Lemma GetSkinsForScene_never_returns_on_cycle_witness :
  is_child loop_model 0 0 = true
  ∧ ∀ fuel skins, GetSkinsForScene loop_document fuel chain_scene ≠ Some (Returns skins).
Proof.
  split; [reflexivity |].
  apply (GetSkinsForScene_never_returns_on_cycle loop_document chain_scene 0 0).
  - by left.
  - apply rtc_refl.
  - apply tc_once. reflexivity.
Defined.

(** X18 at the chain, from whose root three paths start. *)
Lemma GetSkinsForScene_terminates_witness :
  ∃ result, GetSkinsForScene chain_document 4 chain_scene = Some result.
Proof.
  apply (GetSkinsForScene_terminates chain_document 3 4 chain_scene).
  - intros n Hn. apply list_elem_of_singleton in Hn as ->. reflexivity.
  - vm_compute. lia.
Defined.

(** X19 at the skin of the chain. *)
Lemma FindSkinRootJointIndex_never_unset_witness :
  FindSkinRootJointIndex chain_model 4 chain_skin = Some (Returns 0) ∧ 0 ≠ -1.
Proof.
  assert (H : FindSkinRootJointIndex chain_model 4 chain_skin = Some (Returns 0))
    by reflexivity.
  split; [exact H |].
  apply (FindSkinRootJointIndex_never_unset chain_model 4 chain_skin 0); [discriminate | exact H].
Defined.

(** X20 at the chain: one root joint, the mirror of J0. *)
Lemma ImportSkeleton_mirrors_witness :
  ∃ scene skins roots,
    index (Document.scenes chain_document)
      (if Document.defaultScene chain_document =? -1 then 0
       else Document.defaultScene chain_document) = Returns scene
    ∧ GetSkinsForScene chain_document 4 scene = Some (Returns skins)
    ∧ (∀ r, r ∈ roots ↔
         match skins with
         | [] => r ∈ Scene.nodes scene
         | _ => ∃ skin, skin ∈ skins
                        ∧ FindSkinRootJointIndex chain_model 4 skin = Some (Returns r)
         end)
    ∧ roots ≠ []
    ∧ StronglySorted Z.lt roots
    ∧ Forall2 (λ root joint,
          ∃ node, index (Model.nodes chain_model) root = Returns node
                  ∧ mirrors chain_model 4 node joint) roots [chain_joint_tree]
    ∧ accept_all [chain_joint_tree] = true.
Proof.
  apply (ImportSkeleton_mirrors chain_document accept_all 4 [] [chain_joint_tree]).
  vm_compute. reflexivity.
Defined.

(** X21 at a node whose child carries a matrix. *)
Lemma ImportNode_refuses_matrix_witness :
  ∃ n, below matrix_model (plain_node "J0" [1]) n ∧ Node.matrix n ≠ [].
Proof.
  apply (ImportNode_refuses_matrix matrix_model 2 (plain_node "J0" [1]) Joint_default
           (MkJoint "J0" Transform.identity
              [MkJoint "J1" (Joint_transform Joint_default) []])).
  reflexivity.
Defined.

(** X22 at five nodes, the fourth of which was renamed from a_2 to a_2_3
    since the third had taken the name a_2. *)
Lemma FindNodeByName_after_FixupNames_witness :
  FindNodeByName renamed_model "a_2_3" = Some (plain_node "a_2_3" []).
Proof.
  apply (FindNodeByName_after_FixupNames renamed_model 5 unnamed_nodes "node_"
           (plain_node "a_2_3" [])).
  - simpl. lia.
  - vm_compute. reflexivity.
  - vm_compute. do 3 right. left.
Defined.

(** X23 at two animations of the name walk. *)
Lemma GetAnimationNames_after_FixupNames_witness :
  NoDup (GetAnimationNames two_walks_model)
  ∧ (∀ name, name ∈ GetAnimationNames two_walks_model → name ≠ "")
  ∧ ∀ k name animation,
      GetAnimationNames two_walks_model !! k = Some name →
      Model.animations two_walks_model !! k = Some animation →
      List.find (λ a, String.eqb (Animation.name a) name) (Model.animations two_walks_model)
      = if bool_decide (name = Animation.name animation) then Some animation else None.
Proof.
  apply (GetAnimationNames_after_FixupNames two_walks_model 2 two_walks "animation_").
  - simpl. lia.
  - vm_compute. reflexivity.
Defined.

(** ** Worked inputs at three corners of the embedding *)

(** The keyframe count of the cubic spline sampler at a duration of 2^24 s
    and 1 Hz: the sum [floor(...) + 1.f] is one of binary64 and exact,
    16777217, where a sum of binary32 would round to 16777216. *)
Example cubic_spline_count_is_binary64 :
  F64.to_size_t
    (F64.add (F64.floor (F64.of_float (F32.of_Z (2 ^ 24) * F32.of_Z 1)%f32)) F64.one)
  = Some 16777217
  ∧ F32.to_size_t (F32.floor (F32.of_Z (2 ^ 24) * F32.of_Z 1) + F32.one)%f32
    = Some 16777216.
Proof. split; vm_compute; reflexivity. Qed.

(** Over a buffer without bytes the view is null and the sampler returns
    [false], the keyframes untouched. *)
Example null_view_is_refused :
  BufferView (sizeof (V := Float3)) (without_bytes two_key_output) = None
  ∧ SampleLinearChannel (V := Float3) (without_bytes two_key_output) two_key_timestamps []
    = Returns (false, []).
Proof. split; reflexivity. Qed.

(** A joint without a node is no failure where its track already holds
    keys of the three kinds: the node is not looked at, and the import
    goes on to the validation. *)
Example joint_without_node_keeps_its_keys :
  FindNodeByName chain_walk_model "ghost" = None
  ∧ Import chain_walk_model "walk" ["ghost"] F32.thirty full_animation
    = Returns (true,
        {| RawAnimation.name := "walk"; RawAnimation.duration := F32.zero;
           RawAnimation.tracks := RawAnimation.tracks full_animation |})
  ∧ Import chain_walk_model "walk" ["ghost"] F32.thirty fresh_animation = Undefined.
Proof. split; [reflexivity |]. split; vm_compute; reflexivity. Qed.
